(** * libfabric: the RxR (EFA reliable datagram) and shm providers

    A shallow embedding of the inline functions of [prov/efa/src/rxr/rxr.h],
    of the memory-registration wrappers of [prov/efa/src/rxr/rxr_domain.c]
    and of the receive cancellation path of [prov/shm/src/smr_ep.c],
    followed by the properties of these functions that the protocol
    specification relies on.

    Conventions.
    - C integers are values of [Z]; every conversion into a fixed-width type
      is written out ([to_uint16], [to_uint64], [to_int], ...).  Signed
      arithmetic whose result is not representable has no defined result in
      C: such operations return [None].
    - A pointer into an array owned by the endpoint (a peer of [ep->peer], a
      buffer of a pool) is the index of the element.
    - A [dlist] is the list of its members, head first.
    - The global [rxr_env] is passed as an argument.
    - Conditional compilation ([ENABLE_DEBUG], [ENABLE_EFA_POISONING]) is a
      [build] record passed as an argument.
    - The functions are those of a build without [NDEBUG]: a failed
      [assert] leaves the function without a result ([None]). *)

From stdpp Require Import list.

Local Open Scope Z_scope.

(** ** C integer types (LP64: [int] is 32 bits wide, [size_t] 64) *)

Module CInt.

Definition INT_MAX : Z := 2 ^ 31 - 1.
Definition INT_MIN : Z := - 2 ^ 31.

Definition to_uint16 (x : Z) : Z := x mod 2 ^ 16.
Definition to_uint32 (x : Z) : Z := x mod 2 ^ 32.
Definition to_uint64 (x : Z) : Z := x mod 2 ^ 64.
Definition to_size_t (x : Z) : Z := x mod 2 ^ 64.

(** Conversion of a wider integer to [int] (two's complement). *)
Definition to_int (x : Z) : Z := (x + 2 ^ 31) mod 2 ^ 32 - 2 ^ 31.

Definition is_int (x : Z) : bool := (INT_MIN <=? x) && (x <=? INT_MAX).

(** [a * b] on [int]: undefined on overflow. *)
Definition int_mul (a b : Z) : option Z :=
  if is_int (a * b) then Some (a * b) else None.

(** [a << n] on [int]: undefined for a negative [a], for a shift count
    outside [0, 32) and when [a * 2^n] is not representable. *)
Definition int_shl (a n : Z) : option Z :=
  if (0 <=? a) && (0 <=? n) && (n <? 32) && is_int (a * 2 ^ n)
  then Some (a * 2 ^ n) else None.

(** The [int] value of a C truth value. *)
Definition of_bool (b : bool) : Z := if b then 1 else 0.

(** Modelled from the spec: the [MIN] macro of [include/ofi.h], which is not
    part of the sources at hand; the spec writes it [min]. *)
Definition MIN (a b : Z) : Z := if a <? b then a else b.

(** Modelled from the spec: the [BIT_ULL] macro of [include/ofi.h], which
    is not part of the sources at hand; the spec gives [RXR_MTU_MAX_LIMIT],
    defined as [BIT_ULL(15)], as [2^15]. *)
Definition BIT_ULL (nr : Z) : Z := to_uint64 (Z.shiftl 1 nr).

End CInt.

Export CInt.

(** ** Constants and layout facts declared outside the sources at hand

    The values of the [rdma/*.h] constants, the value of the extern
    [rxr_poison_value], [sizeof(struct fi_eq_err_entry)] and the position of
    the [state] member in the two operation-tracking records are not fixed
    by the three files; the development is parametric in them. *)

Class fabric_defs := {
  FI_ORDER_SAS : Z;
  FI_ADDR_UNSPEC : Z;
  FI_ECANCELED : Z;
  FI_ENOMEM : Z;
  FI_ENOKEY : Z;
  FI_SEND : Z;
  FI_RECV : Z;
  FI_NOTIFY : Z;
  UTIL_FLAG_ERROR : Z;
  ofi_op_msg : Z;
  rxr_poison_value : Z;
  sizeof_fi_eq_err_entry : Z;
  (** [offsetof(struct rxr_tx_entry, state) / sizeof(uint32_t)] *)
  tx_entry_state_word : nat;
  (** [offsetof(struct rxr_rx_entry, state) / sizeof(uint32_t)] *)
  rx_entry_state_word : nat
}.

(** The compile-time switches the embedded functions depend on. *)
Record build := {
  ENABLE_DEBUG : bool;
  ENABLE_EFA_POISONING : bool
}.

(** ** rxr.h *)

Module Rxr.

Definition RXR_MAJOR_VERSION : Z := 2.
Definition RXR_MINOR_VERSION : Z := 0.
Definition RXR_PROTOCOL_VERSION : Z := 4.

Definition RXR_IOV_LIMIT : Z := 4.

Definition RXR_RECVWIN_SIZE : Z := 16384.
Definition RXR_DEF_CQ_SIZE : Z := 8192.
Definition RXR_REMOTE_CQ_DATA_LEN : Z := 8.

Definition RXR_DEF_RNR_MAX_TIMEOUT : Z := 1000000.
Definition RXR_RAND_MIN_TIMEOUT : Z := 40.
Definition RXR_RAND_MAX_TIMEOUT : Z := 120.

Definition RXR_DEF_MAX_RX_WINDOW : Z := 128.
Definition RXR_DEF_MAX_TX_CREDITS : Z := 64.
Definition RXR_DEF_MIN_TX_CREDITS : Z := 32.

Definition RXR_MAX_NAME_LENGTH : Z := 32.

Definition RXR_MTU_MAX_LIMIT : Z := BIT_ULL 15.

(** [struct rxr_env]; the [int] members first, as in the source. *)
Record rxr_env := {
  env_rx_window_size : Z;
  env_tx_min_credits : Z;
  env_tx_max_credits : Z;
  env_tx_queue_size : Z;
  env_enable_sas_ordering : Z;
  env_enable_shm_transfer : Z;
  env_shm_av_size : Z;
  env_shm_max_medium_size : Z;
  env_recvwin_size : Z;
  env_cq_size : Z;
  env_max_memcpy_size : Z;
  env_mtu_size : Z;
  env_tx_size : Z;
  env_rx_size : Z;
  env_tx_iov_limit : Z;
  env_rx_iov_limit : Z;
  env_rx_copy_unexp : Z;
  env_rx_copy_ooo : Z;
  env_max_timeout : Z;
  env_timeout_interval : Z;
  env_efa_cq_read_size : Z;
  env_shm_cq_read_size : Z;
  env_efa_max_emulated_read_size : Z;
  env_efa_max_emulated_write_size : Z;
  env_efa_read_segment_size : Z
}.

Inductive rxr_tx_comm_type :=
  | RXR_TX_FREE
  | RXR_TX_SHM_RMA
  | RXR_TX_RTS
  | RXR_TX_SEND
  | RXR_TX_QUEUED_SHM_RMA
  | RXR_TX_QUEUED_CTRL
  | RXR_TX_QUEUED_RTS_RNR
  | RXR_TX_QUEUED_DATA_RNR
  | RXR_TX_SENT_READRSP
  | RXR_TX_QUEUED_READRSP
  | RXR_TX_WAIT_READ_FINISH.

Inductive rxr_rx_comm_type :=
  | RXR_RX_FREE
  | RXR_RX_INIT
  | RXR_RX_UNEXP
  | RXR_RX_MATCHED
  | RXR_RX_RECV
  | RXR_RX_QUEUED_CTRL
  | RXR_RX_QUEUED_SHM_LARGE_READ
  | RXR_RX_QUEUED_EOR
  | RXR_RX_QUEUED_CTS_RNR
  | RXR_RX_WAIT_READ_FINISH.

Inductive rxr_peer_state :=
  | RXR_PEER_FREE
  | RXR_PEER_CONNREQ
  | RXR_PEER_ACKED.

(** The enumerators count up from [RXR_TX_FREE = 0]. *)
Definition tx_comm_value (s : rxr_tx_comm_type) : Z :=
  match s with
  | RXR_TX_FREE => 0
  | RXR_TX_SHM_RMA => 1
  | RXR_TX_RTS => 2
  | RXR_TX_SEND => 3
  | RXR_TX_QUEUED_SHM_RMA => 4
  | RXR_TX_QUEUED_CTRL => 5
  | RXR_TX_QUEUED_RTS_RNR => 6
  | RXR_TX_QUEUED_DATA_RNR => 7
  | RXR_TX_SENT_READRSP => 8
  | RXR_TX_QUEUED_READRSP => 9
  | RXR_TX_WAIT_READ_FINISH => 10
  end.

(** The enumerators count up from [RXR_RX_FREE = 0]. *)
Definition rx_comm_value (s : rxr_rx_comm_type) : Z :=
  match s with
  | RXR_RX_FREE => 0
  | RXR_RX_INIT => 1
  | RXR_RX_UNEXP => 2
  | RXR_RX_MATCHED => 3
  | RXR_RX_RECV => 4
  | RXR_RX_QUEUED_CTRL => 5
  | RXR_RX_QUEUED_SHM_LARGE_READ => 6
  | RXR_RX_QUEUED_EOR => 7
  | RXR_RX_QUEUED_CTS_RNR => 8
  | RXR_RX_WAIT_READ_FINISH => 9
  end.

(** *** Data *)

(** Modelled from the spec: [struct rxr_robuf] and [ofi_recvwin_buf_alloc]
    come from [OFI_DECL_RECVWIN_BUF] of [include/ofi_recvwin.h], which is
    not part of the sources at hand.  The spec describes the receive window
    as a per-peer window "sized [recvwin_size], holding deferred packets by
    msg_id", with an expected msg_id; a slot holds the index of a parked
    packet. *)
Record rxr_robuf := {
  exp_msg_id : Z;
  win_size : Z;
  pending : list (option nat)
}.

(** Modelled from the spec: [ofi_recvwin_buf_alloc], of the same header,
    sets up [recvq] as an empty window of [size] slots that expects msg_id
    0. *)
Definition ofi_recvwin_buf_alloc (recvq : rxr_robuf) (size : Z) : rxr_robuf :=
  {| exp_msg_id := 0; win_size := size;
     pending := replicate (Z.to_nat size) None |}.

(** Modelled from the spec: [freestack_pop] is declared outside the sources
    at hand.  The free stack is the list of its free elements, top first;
    popping an empty stack has no result. *)
Definition freestack_pop {A} (fs : list A) : option (A * list A) :=
  match fs with
  | [] => None
  | x :: fs' => Some (x, fs')
  end.

(** Modelled from the spec: [dlist_insert_tail] is declared outside the
    sources at hand; the item becomes the last member of the list. *)
Definition dlist_insert_tail {A} (item : A) (head : list A) : list A :=
  head ++ [item].

(** Modelled from the spec: [dlist_remove] is declared outside the sources
    at hand; the item is unlinked from the list it is a member of. *)
Definition dlist_remove (item : nat) (head : list nat) : list nat :=
  filter (fun i => i <> item) head.

(** Modelled from the spec: [dlist_empty] is declared outside the sources
    at hand; it tells whether the list has no member. *)
Definition dlist_empty {A} (head : list A) : bool :=
  match head with
  | [] => true
  | _ :: _ => false
  end.

(** Modelled from the spec: [struct ofi_bufpool] and [ofi_buf_free] of
    [include/ofi_mem.h], which are not part of the sources at hand.  The
    spec describes fixed-capacity pools whose slots are released back to the
    pool and reused: a pool is its array of buffers and the stack of the
    indices of the free ones. *)
Record ofi_bufpool (A : Type) := {
  bp_bufs : list A;
  bp_free : list nat
}.
Arguments bp_bufs {A} _.
Arguments bp_free {A} _.

(** Modelled from the spec: [ofi_buf_free], of the same header, releases
    the buffer back to its pool. *)
Definition ofi_buf_free {A} (pool : ofi_bufpool A) (buf : nat) : ofi_bufpool A :=
  {| bp_bufs := bp_bufs pool; bp_free := buf :: bp_free pool |}.

(** [struct rxr_peer].  The two list links [rnr_entry] and [entry] are
    the membership of the peer in [ep_peer_backoff_list] and
    [ep_peer_list]. *)
Record rxr_peer := {
  tx_init : bool;
  rx_init : bool;
  is_local : bool;
  shm_fiaddr : Z;
  robuf : option rxr_robuf;
  next_msg_id : Z;
  state : rxr_peer_state;
  rnr_state : Z;
  tx_pending : Z;
  tx_credits : Z;
  rx_credits : Z;
  rnr_ts : Z;
  rnr_queued_pkt_cnt : Z;
  timeout_interval : Z;
  rnr_timeout_exp : Z
}.

(** [struct rxr_tx_entry] and [struct rxr_rx_entry] as [rxr_release_tx_entry]
    and [rxr_release_rx_entry] see them: the object representation, which
    [rxr_poison_mem_region] addresses as an array of [uint32_t] (the
    records hold 8-byte members, so their size is a multiple of 4), and the
    [queued_pkts] list.  The [state] member is the word at index
    [tx_entry_state_word] (resp. [rx_entry_state_word]).  The head of
    [queued_pkts] lies in the record as well: it is the list of its members
    or, once the words of the record were overwritten, no list ([None]). *)
Record rxr_tx_entry := {
  tx_mem : list Z;
  tx_queued_pkts : option (list nat)
}.

Record rxr_rx_entry := {
  rx_mem : list Z;
  rx_queued_pkts : option (list nat)
}.

(** [dlist_empty] on the head of [queued_pkts]: it compares the head with
    the entry the head links to, and an overwritten head links to no entry
    of a list. *)
Definition queued_pkts_empty (head : option (list nat)) : bool :=
  match head with
  | Some l => dlist_empty l
  | None => false
  end.

Definition sizeof_uint32 : Z := 4.

Definition sizeof_rxr_tx_entry (e : rxr_tx_entry) : Z :=
  sizeof_uint32 * Z.of_nat (length (tx_mem e)).

Definition sizeof_rxr_rx_entry (e : rxr_rx_entry) : Z :=
  sizeof_uint32 * Z.of_nat (length (rx_mem e)).

(** [struct rxr_ep], restricted to the members the embedded functions read
    or write, the resource-management flag and the debug counters.
    [ep_rx_entry_list], [ep_tx_entry_list] and the four counters exist in
    [ENABLE_DEBUG] builds only. *)
Record rxr_ep := {
  ep_peer : list rxr_peer;
  ep_robuf_fs : list rxr_robuf;
  ep_rm_full : Z;
  ep_msg_order : Z;
  ep_core_msg_order : Z;
  ep_tx_entry_pool : ofi_bufpool rxr_tx_entry;
  ep_rx_entry_pool : ofi_bufpool rxr_rx_entry;
  ep_peer_backoff_list : list nat;
  ep_peer_list : list nat;
  ep_rx_entry_list : list nat;
  ep_tx_entry_list : list nat;
  ep_sends : Z;
  ep_send_comps : Z;
  ep_failed_send_comps : Z;
  ep_recv_comps : Z;
  ep_tx_pending : Z
}.

(** Assignment to one member. *)

Definition set_tx_init (f : bool -> bool) (x : rxr_peer) : rxr_peer :=
  {| tx_init := f (tx_init x); rx_init := rx_init x; is_local := is_local x;
     shm_fiaddr := shm_fiaddr x; robuf := robuf x;
     next_msg_id := next_msg_id x; state := state x; rnr_state := rnr_state x;
     tx_pending := tx_pending x; tx_credits := tx_credits x;
     rx_credits := rx_credits x; rnr_ts := rnr_ts x;
     rnr_queued_pkt_cnt := rnr_queued_pkt_cnt x;
     timeout_interval := timeout_interval x;
     rnr_timeout_exp := rnr_timeout_exp x |}.

Definition set_rx_init (f : bool -> bool) (x : rxr_peer) : rxr_peer :=
  {| tx_init := tx_init x; rx_init := f (rx_init x); is_local := is_local x;
     shm_fiaddr := shm_fiaddr x; robuf := robuf x;
     next_msg_id := next_msg_id x; state := state x; rnr_state := rnr_state x;
     tx_pending := tx_pending x; tx_credits := tx_credits x;
     rx_credits := rx_credits x; rnr_ts := rnr_ts x;
     rnr_queued_pkt_cnt := rnr_queued_pkt_cnt x;
     timeout_interval := timeout_interval x;
     rnr_timeout_exp := rnr_timeout_exp x |}.

Definition set_robuf (f : option rxr_robuf -> option rxr_robuf) (x : rxr_peer) : rxr_peer :=
  {| tx_init := tx_init x; rx_init := rx_init x; is_local := is_local x;
     shm_fiaddr := shm_fiaddr x; robuf := f (robuf x);
     next_msg_id := next_msg_id x; state := state x; rnr_state := rnr_state x;
     tx_pending := tx_pending x; tx_credits := tx_credits x;
     rx_credits := rx_credits x; rnr_ts := rnr_ts x;
     rnr_queued_pkt_cnt := rnr_queued_pkt_cnt x;
     timeout_interval := timeout_interval x;
     rnr_timeout_exp := rnr_timeout_exp x |}.

Definition set_tx_pending (f : Z -> Z) (x : rxr_peer) : rxr_peer :=
  {| tx_init := tx_init x; rx_init := rx_init x; is_local := is_local x;
     shm_fiaddr := shm_fiaddr x; robuf := robuf x;
     next_msg_id := next_msg_id x; state := state x; rnr_state := rnr_state x;
     tx_pending := f (tx_pending x); tx_credits := tx_credits x;
     rx_credits := rx_credits x; rnr_ts := rnr_ts x;
     rnr_queued_pkt_cnt := rnr_queued_pkt_cnt x;
     timeout_interval := timeout_interval x;
     rnr_timeout_exp := rnr_timeout_exp x |}.

Definition set_tx_credits (f : Z -> Z) (x : rxr_peer) : rxr_peer :=
  {| tx_init := tx_init x; rx_init := rx_init x; is_local := is_local x;
     shm_fiaddr := shm_fiaddr x; robuf := robuf x;
     next_msg_id := next_msg_id x; state := state x; rnr_state := rnr_state x;
     tx_pending := tx_pending x; tx_credits := f (tx_credits x);
     rx_credits := rx_credits x; rnr_ts := rnr_ts x;
     rnr_queued_pkt_cnt := rnr_queued_pkt_cnt x;
     timeout_interval := timeout_interval x;
     rnr_timeout_exp := rnr_timeout_exp x |}.

Definition set_rx_credits (f : Z -> Z) (x : rxr_peer) : rxr_peer :=
  {| tx_init := tx_init x; rx_init := rx_init x; is_local := is_local x;
     shm_fiaddr := shm_fiaddr x; robuf := robuf x;
     next_msg_id := next_msg_id x; state := state x; rnr_state := rnr_state x;
     tx_pending := tx_pending x; tx_credits := tx_credits x;
     rx_credits := f (rx_credits x); rnr_ts := rnr_ts x;
     rnr_queued_pkt_cnt := rnr_queued_pkt_cnt x;
     timeout_interval := timeout_interval x;
     rnr_timeout_exp := rnr_timeout_exp x |}.

Definition set_ep_peer (f : list rxr_peer -> list rxr_peer) (x : rxr_ep) : rxr_ep :=
  {| ep_peer := f (ep_peer x); ep_robuf_fs := ep_robuf_fs x;
     ep_rm_full := ep_rm_full x; ep_msg_order := ep_msg_order x;
     ep_core_msg_order := ep_core_msg_order x;
     ep_tx_entry_pool := ep_tx_entry_pool x;
     ep_rx_entry_pool := ep_rx_entry_pool x;
     ep_peer_backoff_list := ep_peer_backoff_list x;
     ep_peer_list := ep_peer_list x; ep_rx_entry_list := ep_rx_entry_list x;
     ep_tx_entry_list := ep_tx_entry_list x; ep_sends := ep_sends x;
     ep_send_comps := ep_send_comps x;
     ep_failed_send_comps := ep_failed_send_comps x;
     ep_recv_comps := ep_recv_comps x; ep_tx_pending := ep_tx_pending x |}.

Definition set_ep_robuf_fs (f : list rxr_robuf -> list rxr_robuf) (x : rxr_ep) : rxr_ep :=
  {| ep_peer := ep_peer x; ep_robuf_fs := f (ep_robuf_fs x);
     ep_rm_full := ep_rm_full x; ep_msg_order := ep_msg_order x;
     ep_core_msg_order := ep_core_msg_order x;
     ep_tx_entry_pool := ep_tx_entry_pool x;
     ep_rx_entry_pool := ep_rx_entry_pool x;
     ep_peer_backoff_list := ep_peer_backoff_list x;
     ep_peer_list := ep_peer_list x; ep_rx_entry_list := ep_rx_entry_list x;
     ep_tx_entry_list := ep_tx_entry_list x; ep_sends := ep_sends x;
     ep_send_comps := ep_send_comps x;
     ep_failed_send_comps := ep_failed_send_comps x;
     ep_recv_comps := ep_recv_comps x; ep_tx_pending := ep_tx_pending x |}.

Definition set_ep_tx_entry_pool (f : ofi_bufpool rxr_tx_entry -> ofi_bufpool rxr_tx_entry) (x : rxr_ep) : rxr_ep :=
  {| ep_peer := ep_peer x; ep_robuf_fs := ep_robuf_fs x;
     ep_rm_full := ep_rm_full x; ep_msg_order := ep_msg_order x;
     ep_core_msg_order := ep_core_msg_order x;
     ep_tx_entry_pool := f (ep_tx_entry_pool x);
     ep_rx_entry_pool := ep_rx_entry_pool x;
     ep_peer_backoff_list := ep_peer_backoff_list x;
     ep_peer_list := ep_peer_list x; ep_rx_entry_list := ep_rx_entry_list x;
     ep_tx_entry_list := ep_tx_entry_list x; ep_sends := ep_sends x;
     ep_send_comps := ep_send_comps x;
     ep_failed_send_comps := ep_failed_send_comps x;
     ep_recv_comps := ep_recv_comps x; ep_tx_pending := ep_tx_pending x |}.

Definition set_ep_rx_entry_pool (f : ofi_bufpool rxr_rx_entry -> ofi_bufpool rxr_rx_entry) (x : rxr_ep) : rxr_ep :=
  {| ep_peer := ep_peer x; ep_robuf_fs := ep_robuf_fs x;
     ep_rm_full := ep_rm_full x; ep_msg_order := ep_msg_order x;
     ep_core_msg_order := ep_core_msg_order x;
     ep_tx_entry_pool := ep_tx_entry_pool x;
     ep_rx_entry_pool := f (ep_rx_entry_pool x);
     ep_peer_backoff_list := ep_peer_backoff_list x;
     ep_peer_list := ep_peer_list x; ep_rx_entry_list := ep_rx_entry_list x;
     ep_tx_entry_list := ep_tx_entry_list x; ep_sends := ep_sends x;
     ep_send_comps := ep_send_comps x;
     ep_failed_send_comps := ep_failed_send_comps x;
     ep_recv_comps := ep_recv_comps x; ep_tx_pending := ep_tx_pending x |}.

Definition set_ep_peer_list (f : list nat -> list nat) (x : rxr_ep) : rxr_ep :=
  {| ep_peer := ep_peer x; ep_robuf_fs := ep_robuf_fs x;
     ep_rm_full := ep_rm_full x; ep_msg_order := ep_msg_order x;
     ep_core_msg_order := ep_core_msg_order x;
     ep_tx_entry_pool := ep_tx_entry_pool x;
     ep_rx_entry_pool := ep_rx_entry_pool x;
     ep_peer_backoff_list := ep_peer_backoff_list x;
     ep_peer_list := f (ep_peer_list x);
     ep_rx_entry_list := ep_rx_entry_list x;
     ep_tx_entry_list := ep_tx_entry_list x; ep_sends := ep_sends x;
     ep_send_comps := ep_send_comps x;
     ep_failed_send_comps := ep_failed_send_comps x;
     ep_recv_comps := ep_recv_comps x; ep_tx_pending := ep_tx_pending x |}.

Definition set_ep_rx_entry_list (f : list nat -> list nat) (x : rxr_ep) : rxr_ep :=
  {| ep_peer := ep_peer x; ep_robuf_fs := ep_robuf_fs x;
     ep_rm_full := ep_rm_full x; ep_msg_order := ep_msg_order x;
     ep_core_msg_order := ep_core_msg_order x;
     ep_tx_entry_pool := ep_tx_entry_pool x;
     ep_rx_entry_pool := ep_rx_entry_pool x;
     ep_peer_backoff_list := ep_peer_backoff_list x;
     ep_peer_list := ep_peer_list x;
     ep_rx_entry_list := f (ep_rx_entry_list x);
     ep_tx_entry_list := ep_tx_entry_list x; ep_sends := ep_sends x;
     ep_send_comps := ep_send_comps x;
     ep_failed_send_comps := ep_failed_send_comps x;
     ep_recv_comps := ep_recv_comps x; ep_tx_pending := ep_tx_pending x |}.

Definition set_ep_tx_entry_list (f : list nat -> list nat) (x : rxr_ep) : rxr_ep :=
  {| ep_peer := ep_peer x; ep_robuf_fs := ep_robuf_fs x;
     ep_rm_full := ep_rm_full x; ep_msg_order := ep_msg_order x;
     ep_core_msg_order := ep_core_msg_order x;
     ep_tx_entry_pool := ep_tx_entry_pool x;
     ep_rx_entry_pool := ep_rx_entry_pool x;
     ep_peer_backoff_list := ep_peer_backoff_list x;
     ep_peer_list := ep_peer_list x; ep_rx_entry_list := ep_rx_entry_list x;
     ep_tx_entry_list := f (ep_tx_entry_list x); ep_sends := ep_sends x;
     ep_send_comps := ep_send_comps x;
     ep_failed_send_comps := ep_failed_send_comps x;
     ep_recv_comps := ep_recv_comps x; ep_tx_pending := ep_tx_pending x |}.

Definition set_ep_sends (f : Z -> Z) (x : rxr_ep) : rxr_ep :=
  {| ep_peer := ep_peer x; ep_robuf_fs := ep_robuf_fs x;
     ep_rm_full := ep_rm_full x; ep_msg_order := ep_msg_order x;
     ep_core_msg_order := ep_core_msg_order x;
     ep_tx_entry_pool := ep_tx_entry_pool x;
     ep_rx_entry_pool := ep_rx_entry_pool x;
     ep_peer_backoff_list := ep_peer_backoff_list x;
     ep_peer_list := ep_peer_list x; ep_rx_entry_list := ep_rx_entry_list x;
     ep_tx_entry_list := ep_tx_entry_list x; ep_sends := f (ep_sends x);
     ep_send_comps := ep_send_comps x;
     ep_failed_send_comps := ep_failed_send_comps x;
     ep_recv_comps := ep_recv_comps x; ep_tx_pending := ep_tx_pending x |}.

Definition set_ep_failed_send_comps (f : Z -> Z) (x : rxr_ep) : rxr_ep :=
  {| ep_peer := ep_peer x; ep_robuf_fs := ep_robuf_fs x;
     ep_rm_full := ep_rm_full x; ep_msg_order := ep_msg_order x;
     ep_core_msg_order := ep_core_msg_order x;
     ep_tx_entry_pool := ep_tx_entry_pool x;
     ep_rx_entry_pool := ep_rx_entry_pool x;
     ep_peer_backoff_list := ep_peer_backoff_list x;
     ep_peer_list := ep_peer_list x; ep_rx_entry_list := ep_rx_entry_list x;
     ep_tx_entry_list := ep_tx_entry_list x; ep_sends := ep_sends x;
     ep_send_comps := ep_send_comps x;
     ep_failed_send_comps := f (ep_failed_send_comps x);
     ep_recv_comps := ep_recv_comps x; ep_tx_pending := ep_tx_pending x |}.

Definition set_ep_tx_pending (f : Z -> Z) (x : rxr_ep) : rxr_ep :=
  {| ep_peer := ep_peer x; ep_robuf_fs := ep_robuf_fs x;
     ep_rm_full := ep_rm_full x; ep_msg_order := ep_msg_order x;
     ep_core_msg_order := ep_core_msg_order x;
     ep_tx_entry_pool := ep_tx_entry_pool x;
     ep_rx_entry_pool := ep_rx_entry_pool x;
     ep_peer_backoff_list := ep_peer_backoff_list x;
     ep_peer_list := ep_peer_list x; ep_rx_entry_list := ep_rx_entry_list x;
     ep_tx_entry_list := ep_tx_entry_list x; ep_sends := ep_sends x;
     ep_send_comps := ep_send_comps x;
     ep_failed_send_comps := ep_failed_send_comps x;
     ep_recv_comps := ep_recv_comps x;
     ep_tx_pending := f (ep_tx_pending x) |}.

Definition set_bp_bufs {A} (f : list A -> list A) (x : ofi_bufpool A)
  : ofi_bufpool A :=
  {| bp_bufs := f (bp_bufs x); bp_free := bp_free x |}.

(** *** Functions *)

Section Functions.

Context {defs : fabric_defs}.

(** [rxr_poison_mem_region]: the loop writes [rxr_poison_value] to
    [ptr[i]] for [i = 0 .. size / 4 - 1].  The counter [i] is an [int]: its
    increment is undefined beyond [INT_MAX]; so is a write behind the end of
    the region. *)
Fixpoint rxr_poison_loop (n : nat) (i : Z) (ptr : list Z) : list Z :=
  match n with
  | O => ptr
  | S n' => rxr_poison_loop n' (i + 1) (<[Z.to_nat i := rxr_poison_value]> ptr)
  end.

Definition rxr_poison_mem_region (ptr : list Z) (size : Z) : option (list Z) :=
  let n := size / sizeof_uint32 in
  if (0 <=? size) && (n <=? INT_MAX) && (n <=? Z.of_nat (length ptr))
  then Some (rxr_poison_loop (Z.to_nat n) 0 ptr)
  else None.

(** [rxr_ep_get_peer]: the address of [ep->peer[addr]]. *)
Definition rxr_ep_get_peer (ep : rxr_ep) (addr : Z) : nat := Z.to_nat addr.

(** [rxr_ep_peer_init].  [peer] points into [ep->peer]. *)
Definition rxr_ep_peer_init (env : rxr_env) (ep : rxr_ep) (peer : nat)
  : option rxr_ep :=
  p ← ep_peer ep !! peer;
  (* assert(!peer->rx_init) *)
  if rx_init p then None else
  '(rb, fs) ← freestack_pop (ep_robuf_fs ep);
  let p := set_robuf (fun _ => Some (ofi_recvwin_buf_alloc rb (env_recvwin_size env))) p in
  let peer_list := dlist_insert_tail peer (ep_peer_list ep) in
  let p := set_rx_credits (fun _ => to_uint16 (env_rx_window_size env)) p in
  let p := set_rx_init (fun _ => true) p in
  let p :=
    if negb (tx_init p) then
      let p := set_tx_credits (fun _ => to_uint16 (env_tx_max_credits env)) p in
      set_tx_init (fun _ => true) p
    else p in
  Some (set_ep_peer (fun _ => <[peer := p]> (ep_peer ep))
         (set_ep_peer_list (fun _ => peer_list)
           (set_ep_robuf_fs (fun _ => fs) ep))).

(** [rxr_release_tx_entry].  [tx_entry] points into the tx entry pool.
    Poisoning overwrites the whole record, the head of [queued_pkts]
    included. *)
Definition rxr_release_tx_entry (bld : build) (ep : rxr_ep) (tx_entry : nat)
  : option rxr_ep :=
  e ← bp_bufs (ep_tx_entry_pool ep) !! tx_entry;
  let ep :=
    if ENABLE_DEBUG bld
    then set_ep_tx_entry_list (dlist_remove tx_entry) ep else ep in
  (* assert(dlist_empty(&tx_entry->queued_pkts)) *)
  if negb (queued_pkts_empty (tx_queued_pkts e)) then None else
  mem ← (if ENABLE_EFA_POISONING bld
         then rxr_poison_mem_region (tx_mem e) (sizeof_rxr_tx_entry e)
         else Some (tx_mem e));
  (* tx_entry->state = RXR_TX_FREE: the record has a state member *)
  if negb (bool_decide (tx_entry_state_word < length mem)%nat) then None else
  let e :=
    {| tx_mem := <[tx_entry_state_word := tx_comm_value RXR_TX_FREE]> mem;
       tx_queued_pkts :=
         if ENABLE_EFA_POISONING bld then None else tx_queued_pkts e |} in
  Some (set_ep_tx_entry_pool
          (fun pool => ofi_buf_free (set_bp_bufs (fun b => <[tx_entry := e]> b) pool)
                                    tx_entry) ep).

(** [rxr_release_rx_entry].  [rx_entry] points into the rx entry pool. *)
Definition rxr_release_rx_entry (bld : build) (ep : rxr_ep) (rx_entry : nat)
  : option rxr_ep :=
  e ← bp_bufs (ep_rx_entry_pool ep) !! rx_entry;
  let ep :=
    if ENABLE_DEBUG bld
    then set_ep_rx_entry_list (dlist_remove rx_entry) ep else ep in
  (* assert(dlist_empty(&rx_entry->queued_pkts)) *)
  if negb (queued_pkts_empty (rx_queued_pkts e)) then None else
  mem ← (if ENABLE_EFA_POISONING bld
         then rxr_poison_mem_region (rx_mem e) (sizeof_rxr_rx_entry e)
         else Some (rx_mem e));
  (* rx_entry->state = RXR_RX_FREE: the record has a state member *)
  if negb (bool_decide (rx_entry_state_word < length mem)%nat) then None else
  let e :=
    {| rx_mem := <[rx_entry_state_word := rx_comm_value RXR_RX_FREE]> mem;
       rx_queued_pkts :=
         if ENABLE_EFA_POISONING bld then None else rx_queued_pkts e |} in
  Some (set_ep_rx_entry_pool
          (fun pool => ofi_buf_free (set_bp_bufs (fun b => <[rx_entry := e]> b) pool)
                                    rx_entry) ep).

(** The [state] member of an entry, read back from its representation. *)
Definition tx_entry_state (e : rxr_tx_entry) : option Z :=
  tx_mem e !! tx_entry_state_word.

Definition rx_entry_state (e : rxr_rx_entry) : option Z :=
  rx_mem e !! rx_entry_state_word.

(** [rxr_match_addr] and [rxr_match_tag]; the arguments are 64 bits wide. *)
Definition rxr_match_addr (addr match_addr : Z) : Z :=
  of_bool ((addr =? FI_ADDR_UNSPEC) || (addr =? match_addr)).

Definition rxr_match_tag (tag ignore match_tag : Z) : Z :=
  of_bool (Z.lor tag ignore =? Z.lor match_tag ignore).

(** [rxr_ep_inc_tx_pending] and [rxr_ep_dec_tx_pending]; the counters are
    [size_t].  [peer] points into [ep->peer]. *)
Definition rxr_ep_inc_tx_pending (bld : build) (ep : rxr_ep) (peer : nat)
  : option rxr_ep :=
  p ← ep_peer ep !! peer;
  let ep := set_ep_tx_pending (fun n => to_size_t (n + 1)) ep in
  let ep :=
    set_ep_peer
      (fun _ => <[peer := set_tx_pending (fun n => to_size_t (n + 1)) p]> (ep_peer ep))
      ep in
  Some (if ENABLE_DEBUG bld
        then set_ep_sends (fun n => to_size_t (n + 1)) ep else ep).

Definition rxr_ep_dec_tx_pending (bld : build) (ep : rxr_ep) (peer : nat)
  (failed : Z) : option rxr_ep :=
  p ← ep_peer ep !! peer;
  let ep := set_ep_tx_pending (fun n => to_size_t (n - 1)) ep in
  let ep :=
    set_ep_peer
      (fun _ => <[peer := set_tx_pending (fun n => to_size_t (n - 1)) p]> (ep_peer ep))
      ep in
  Some (if ENABLE_DEBUG bld && negb (failed =? 0)
        then set_ep_failed_send_comps (fun n => to_size_t (n + 1)) ep else ep).

(** [rxr_need_sas_ordering] *)
Definition rxr_need_sas_ordering (env : rxr_env) (ep : rxr_ep) : Z :=
  of_bool (negb (Z.land (ep_msg_order ep) FI_ORDER_SAS =? 0)
           && (Z.land (ep_core_msg_order ep) FI_ORDER_SAS =? 0)
           && negb (env_enable_sas_ordering env =? 0)).

(** [rxr_peer_timeout_expired].  The shift and the product are computed on
    [int]; [MIN] yields an [int], which the addition converts to
    [uint64_t]; the sum wraps at [2^64]. *)
Definition rxr_peer_timeout_expired (env : rxr_env) (ep : rxr_ep)
  (peer : rxr_peer) (ts : Z) : option bool :=
  pow ← int_shl 1 (rnr_timeout_exp peer);
  prod ← int_mul (timeout_interval peer) pow;
  Some (to_uint64 (rnr_ts peer + to_uint64 (MIN (env_max_timeout env) prod))
          <=? ts).

End Functions.

(** [efa_eq_write_error].  [struct util_eq] and [fi_eq_write] are not part
    of the sources at hand: the event queue is any type [util_eq] and
    [fi_eq_write eq event entry len flags] any function that yields the
    returned [ssize_t] and the queue after the call.  The two warnings the
    function logs are left out; they change nothing the function returns
    or writes to the queue. *)

(** The members of [struct fi_eq_err_entry] the function assigns; [memset]
    clears the others. *)
Record fi_eq_err_entry := {
  err : Z;
  prov_errno : Z
}.

(** [struct util_ep], restricted to its [eq] member ([None] for [NULL]). *)
Record util_ep (util_eq : Type) := {
  eq : option util_eq
}.
Arguments eq {util_eq} _.

(** How the call ends: by [return] or in [abort()]. *)
Inductive termination := Returned | Aborted.

Section EventQueue.

Context {defs : fabric_defs} {util_eq : Type}.
Variable fi_eq_write : util_eq -> Z -> fi_eq_err_entry -> Z -> Z -> Z * util_eq.

Definition efa_eq_write_error (ep : util_ep util_eq) (err prov_errno : Z)
  : termination * util_ep util_eq :=
  match eq ep with
  | Some q =>
      let err_entry := {| err := err; prov_errno := prov_errno |} in
      let '(r, q) :=
        fi_eq_write q FI_NOTIFY err_entry sizeof_fi_eq_err_entry UTIL_FLAG_ERROR in
      (* int ret = <ssize_t>;  ret == sizeof(err_entry) compares as size_t *)
      let ret := to_int r in
      if to_size_t ret =? sizeof_fi_eq_err_entry
      then (Returned, {| eq := Some q |})
      else (Aborted, {| eq := Some q |})
  | None => (Aborted, ep)
  end.

End EventQueue.

End Rxr.

(** ** rxr_domain.c: memory registration *)

Module RxrDomain.

Import Rxr.

(** [enum fi_hmem_iface] is declared in [rdma/fi_domain.h], outside the
    sources at hand: the two enumerators the file names, and the others. *)
Inductive fi_hmem_iface :=
  | FI_HMEM_SYSTEM
  | FI_HMEM_CUDA
  | FI_HMEM_OTHER (v : Z).

Definition is_system (i : fi_hmem_iface) : bool :=
  match i with FI_HMEM_SYSTEM => true | _ => false end.

Definition is_cuda (i : fi_hmem_iface) : bool :=
  match i with FI_HMEM_CUDA => true | _ => false end.

Record iovec := {
  iov_base : Z;
  iov_len : Z
}.

(** [struct fi_mr_attr], restricted to the members the file names.  An
    attribute that lives in an automatic variable holds, in a member that was
    never assigned, an indeterminate value: [None].  Reading it has no
    defined result. *)
Record fi_mr_attr := {
  mr_iov : option (list iovec);
  iov_count : option Z;
  access : option Z;
  offset : option Z;
  requested_key : option Z;
  context : option Z;
  iface : option fi_hmem_iface;
  device_cuda : option Z
}.

Definition set_access (v : Z) (a : fi_mr_attr) : fi_mr_attr :=
  {| mr_iov := mr_iov a; iov_count := iov_count a; access := Some v;
     offset := offset a; requested_key := requested_key a;
     context := context a; iface := iface a; device_cuda := device_cuda a |}.

Definition set_requested_key (v : Z) (a : fi_mr_attr) : fi_mr_attr :=
  {| mr_iov := mr_iov a; iov_count := iov_count a; access := access a;
     offset := offset a; requested_key := Some v;
     context := context a; iface := iface a; device_cuda := device_cuda a |}.

(** [struct rxr_mr] of [rxr.h]; a lower registration ([struct fid_mr *]) is
    its handle. *)
Record rxr_mr := {
  mr_fid_context : Z;
  mr_fid_mem_desc : Z;
  mr_fid_key : Z;
  msg_mr : Z;
  shm_msg_mr : option Z;
  peer_iface : fi_hmem_iface;
  peer_device_cuda : Z
}.

Definition set_shm_msg_mr (v : Z) (m : rxr_mr) : rxr_mr :=
  {| mr_fid_context := mr_fid_context m; mr_fid_mem_desc := mr_fid_mem_desc m;
     mr_fid_key := mr_fid_key m; msg_mr := msg_mr m; shm_msg_mr := Some v;
     peer_iface := peer_iface m; peer_device_cuda := peer_device_cuda m |}.

(** The two lower domains of [struct rxr_domain]. *)
Inductive lower_domain := rdm_domain | shm_domain.

Section Registration.

Context {defs : fabric_defs}.

(** The allocator, the lower providers and the registration map of the
    utility domain are not part of the sources at hand.  [world] is the state
    they act on; each call yields its result and the state after it:
    [fi_mr_regattr] the returned [int] and the registration it stores
    through its last argument, [ofi_mr_map_insert] the returned [int] and
    the key it stores through its [key] argument. *)
Context {world : Type}.
Variable calloc : world -> bool * world.
Variable fi_mr_regattr :
  lower_domain -> fi_mr_attr -> Z -> world -> Z * Z * world.
Variable fi_mr_key : Z -> Z.
Variable ofi_mr_map_insert : fi_mr_attr -> Z -> world -> Z * Z * world.
Variable ofi_mr_map_remove : Z -> world -> Z * world.
Variable fi_close : Z -> world -> Z * world.
Variable FI_KEY_NOTAVAIL : Z.
Variable efa_mr_cache_enable : Z.

(** [rxr_mr_regattr].  The result is the returned [int], the registration
    left to the caller on success, and the state after the call.  The
    warnings the function logs are left out. *)
Definition rxr_mr_regattr (env : rxr_env) (attr : fi_mr_attr) (flags : Z)
  (w : world) : option (Z * option rxr_mr * world) :=
  let '(allocated, w) := calloc w in
  if negb allocated then Some (- FI_ENOMEM, None, w) else
  user_attr_access ← access attr;
  let core_attr_access := Z.lor FI_SEND FI_RECV in
  let attr := set_access core_attr_access attr in
  let '(ret, lower_mr, w) := fi_mr_regattr rdm_domain attr flags w in
  if negb (ret =? 0) then Some (ret, None, w) else
  ctx ← context attr;
  ifc ← iface attr;
  cuda ← (if is_cuda ifc then device_cuda attr else Some 0);
  let key := fi_mr_key lower_mr in
  (* assert(rxr_mr->mr_fid.key != FI_KEY_NOTAVAIL) *)
  if key =? FI_KEY_NOTAVAIL then None else
  let attr := set_access core_attr_access (set_requested_key key attr) in
  let '(ret, key, w) := ofi_mr_map_insert attr key w in
  let rxr_mr :=
    {| mr_fid_context := ctx; mr_fid_mem_desc := lower_mr; mr_fid_key := key;
       msg_mr := lower_mr; shm_msg_mr := None;
       peer_iface := ifc; peer_device_cuda := cuda |} in
  if negb (ret =? 0) && negb (negb (efa_mr_cache_enable =? 0) && (ret =? - FI_ENOKEY))
  then Some (ret, None, w) else
  let key_exists := negb (ret =? 0) in
  if negb (env_enable_shm_transfer env =? 0) && negb key_exists && is_system ifc
  then
    let attr := set_requested_key key (set_access user_attr_access attr) in
    let '(ret, shm_mr, w) := fi_mr_regattr shm_domain attr flags w in
    if negb (ret =? 0) then
      let '(_, w) := fi_close lower_mr w in
      let '(_, w) := ofi_mr_map_remove key w in
      Some (ret, None, w)
    else Some (0, Some (set_shm_msg_mr shm_mr rxr_mr), w)
  else Some (0, Some rxr_mr, w).

(** The attribute [rxr_mr_regv] builds in its automatic variable [attr]. *)
Definition rxr_mr_regv_attr (iov : list iovec) (count access offset
  requested_key context : Z) : fi_mr_attr :=
  {| mr_iov := Some iov;
     iov_count := Some count;
     access := Some access;
     offset := Some offset;
     requested_key := Some requested_key;
     context := Some context;
     iface := Some FI_HMEM_SYSTEM;
     device_cuda := None |}.

Definition rxr_mr_regv (env : rxr_env) (iov : list iovec) (count access offset
  requested_key flags context : Z) (w : world)
  : option (Z * option rxr_mr * world) :=
  rxr_mr_regattr env
    (rxr_mr_regv_attr iov count access offset requested_key context) flags w.

Definition rxr_mr_reg (env : rxr_env) (buf len access offset requested_key
  flags context : Z) (w : world) : option (Z * option rxr_mr * world) :=
  let iov := {| iov_base := buf; iov_len := len |} in
  rxr_mr_regv env [iov] 1 access offset requested_key flags context w.

End Registration.

End RxrDomain.

(** ** smr_ep.c: cancellation of a posted receive *)

Module Smr.

(** [struct smr_rx_entry] is declared in [smr.h], outside the sources at
    hand: the members the file reads. *)
Record smr_rx_entry := {
  context : Z;
  flags : Z;
  addr : Z;
  tag : Z;
  ignore : Z
}.

(** The arguments of [smr_complete_rx], in the order of the call. *)
Record rx_completion := {
  comp_context : Z;
  comp_op : Z;
  comp_flags : Z;
  comp_len : Z;
  comp_buf : Z;
  comp_addr : Z;
  comp_tag : Z;
  comp_data : Z;
  comp_err : Z
}.

Definition NULL : Z := 0.

(** Modelled from the spec: [dlist_remove_first_match] is declared outside
    the sources at hand.  The spec says that cancellation "removes it from
    the posted list" and that matching is in FIFO order, first match wins:
    the first member that satisfies [match_func] is unlinked and returned,
    [None] standing for [NULL]. *)
Fixpoint dlist_remove_first_match {A} (match_func : A -> bool) (l : list A)
  : option A * list A :=
  match l with
  | [] => (None, [])
  | x :: l' =>
      if match_func x then (Some x, l')
      else let '(r, l'') := dlist_remove_first_match match_func l' in
           (r, x :: l'')
  end.

(** Modelled from the spec: [freestack_push] is declared outside the
    sources at hand; the released entry becomes the top of the free
    stack. *)
Definition freestack_push {A} (fs : list A) (x : A) : list A := x :: fs.

(** The posted-receive queue a [struct smr_queue *] points to. *)
Inductive queue_ref := trecv_queue_ref | recv_queue_ref.

Section Cancel.

Context {defs : fabric_defs}.

(** [smr_complete_rx] is defined in another file of the provider.  [cq] is
    the state it acts on (the receive completion queue and the counters of
    the endpoint); a call yields the returned [int] and the state after
    it.  The lock of the completion queue, which [smr_ep_cancel_recv] holds
    around its body, is left out. *)
Context {cq : Type}.
Variable smr_complete_rx : cq -> rx_completion -> Z * cq.

(** [struct smr_ep], restricted to the members the two functions use. *)
Record smr_ep := {
  trecv_queue : list smr_rx_entry;
  recv_queue : list smr_rx_entry;
  recv_fs : list smr_rx_entry;
  rx_cq : cq
}.

Definition queue_of (ep : smr_ep) (q : queue_ref) : list smr_rx_entry :=
  match q with
  | trecv_queue_ref => trecv_queue ep
  | recv_queue_ref => recv_queue ep
  end.

Definition set_queue (q : queue_ref) (l : list smr_rx_entry) (ep : smr_ep)
  : smr_ep :=
  match q with
  | trecv_queue_ref =>
      {| trecv_queue := l; recv_queue := recv_queue ep;
         recv_fs := recv_fs ep; rx_cq := rx_cq ep |}
  | recv_queue_ref =>
      {| trecv_queue := trecv_queue ep; recv_queue := l;
         recv_fs := recv_fs ep; rx_cq := rx_cq ep |}
  end.

Definition smr_match_recv_ctx (item : smr_rx_entry) (args : Z) : bool :=
  context item =? args.

Definition smr_ep_cancel_recv (ep : smr_ep) (queue : queue_ref) (context : Z)
  : Z * smr_ep :=
  match dlist_remove_first_match (fun item => smr_match_recv_ctx item context)
          (queue_of ep queue) with
  | (Some recv_entry, l) =>
      let ep := set_queue queue l ep in
      let '(ret, q) :=
        smr_complete_rx (rx_cq ep)
          {| comp_context := Smr.context recv_entry; comp_op := ofi_op_msg;
             comp_flags := flags recv_entry; comp_len := 0; comp_buf := NULL;
             comp_addr := addr recv_entry; comp_tag := tag recv_entry;
             comp_data := 0; comp_err := FI_ECANCELED |} in
      let ep :=
        {| trecv_queue := trecv_queue ep; recv_queue := recv_queue ep;
           recv_fs := freestack_push (recv_fs ep) recv_entry; rx_cq := q |} in
      (if negb (ret =? 0) then ret else 1, ep)
  | (None, _) => (0, ep)
  end.

Definition smr_ep_cancel (ep : smr_ep) (context : Z) : Z * smr_ep :=
  let '(ret, ep) := smr_ep_cancel_recv ep trecv_queue_ref context in
  if negb (ret =? 0) then (if ret <? 0 then ret else 0, ep) else
  let '(ret, ep) := smr_ep_cancel_recv ep recv_queue_ref context in
  (if ret <? 0 then ret else 0, ep).

End Cancel.

End Smr.

(** * Sample inputs and the vocabulary of the statements *)

Import Rxr.

(** One choice of the constants, used to evaluate the functions on concrete
    inputs; the theorems hold for every choice. *)
Definition sample_defs : fabric_defs :=
  {| FI_ORDER_SAS := 2 ^ 8;
     FI_ADDR_UNSPEC := 2 ^ 64 - 1;
     FI_ECANCELED := 125;
     FI_ENOMEM := 12;
     FI_ENOKEY := 126;
     FI_SEND := 2 ^ 10;
     FI_RECV := 2 ^ 11;
     FI_NOTIFY := 0;
     UTIL_FLAG_ERROR := 2 ^ 60;
     ofi_op_msg := 0;
     rxr_poison_value := 0xdeadbeef;
     sizeof_fi_eq_err_entry := 48;
     tx_entry_state_word := 20;
     rx_entry_state_word := 22 |}.

(** Three builds: plain, with [ENABLE_DEBUG], with [ENABLE_EFA_POISONING]. *)
Definition release_build : build :=
  {| ENABLE_DEBUG := false; ENABLE_EFA_POISONING := false |}.

Definition debug_build : build :=
  {| ENABLE_DEBUG := true; ENABLE_EFA_POISONING := false |}.

Definition poisoning_build : build :=
  {| ENABLE_DEBUG := false; ENABLE_EFA_POISONING := true |}.

(** The tunables with the given [enable_sas_ordering]; the defaults named
    by the [RXR_DEF_*] macros and the spec (shm transfer enabled) for the
    tunables that have one there, zero for the others. *)
Definition env_with_sas_ordering (enable_sas_ordering : Z) : rxr_env :=
  {| env_rx_window_size := RXR_DEF_MAX_RX_WINDOW;
     env_tx_min_credits := RXR_DEF_MIN_TX_CREDITS;
     env_tx_max_credits := RXR_DEF_MAX_TX_CREDITS;
     env_tx_queue_size := 0;
     env_enable_sas_ordering := enable_sas_ordering;
     env_enable_shm_transfer := 1;
     env_shm_av_size := 0;
     env_shm_max_medium_size := 0;
     env_recvwin_size := RXR_RECVWIN_SIZE;
     env_cq_size := RXR_DEF_CQ_SIZE;
     env_max_memcpy_size := 0;
     env_mtu_size := 0;
     env_tx_size := 0;
     env_rx_size := 0;
     env_tx_iov_limit := 0;
     env_rx_iov_limit := 0;
     env_rx_copy_unexp := 0;
     env_rx_copy_ooo := 0;
     env_max_timeout := RXR_DEF_RNR_MAX_TIMEOUT;
     env_timeout_interval := 0;
     env_efa_cq_read_size := 0;
     env_shm_cq_read_size := 0;
     env_efa_max_emulated_read_size := 0;
     env_efa_max_emulated_write_size := 0;
     env_efa_read_segment_size := 0 |}.

Definition default_env : rxr_env := env_with_sas_ordering 1.

(** The default tunables with the given [rx_window_size] and
    [tx_max_credits]. *)
Definition env_with_credits (rx_window_size tx_max_credits : Z) : rxr_env :=
  {| env_rx_window_size := rx_window_size;
     env_tx_min_credits := RXR_DEF_MIN_TX_CREDITS;
     env_tx_max_credits := tx_max_credits;
     env_tx_queue_size := 0;
     env_enable_sas_ordering := 1;
     env_enable_shm_transfer := 1;
     env_shm_av_size := 0;
     env_shm_max_medium_size := 0;
     env_recvwin_size := RXR_RECVWIN_SIZE;
     env_cq_size := RXR_DEF_CQ_SIZE;
     env_max_memcpy_size := 0;
     env_mtu_size := 0;
     env_tx_size := 0;
     env_rx_size := 0;
     env_tx_iov_limit := 0;
     env_rx_iov_limit := 0;
     env_rx_copy_unexp := 0;
     env_rx_copy_ooo := 0;
     env_max_timeout := RXR_DEF_RNR_MAX_TIMEOUT;
     env_timeout_interval := 0;
     env_efa_cq_read_size := 0;
     env_shm_cq_read_size := 0;
     env_efa_max_emulated_read_size := 0;
     env_efa_max_emulated_write_size := 0;
     env_efa_read_segment_size := 0 |}.

Definition empty_pool {A} : ofi_bufpool A := {| bp_bufs := []; bp_free := [] |}.

(** A peer that was never used. *)
Definition fresh_peer : rxr_peer :=
  {| tx_init := false; rx_init := false; is_local := false; shm_fiaddr := 0;
     robuf := None; next_msg_id := 0; state := RXR_PEER_FREE; rnr_state := 0;
     tx_pending := 0; tx_credits := 0; rx_credits := 0; rnr_ts := 0;
     rnr_queued_pkt_cnt := 0; timeout_interval := 0; rnr_timeout_exp := 0 |}.

(** An endpoint with the given peers and nothing in flight. *)
Definition idle_ep (peers : list rxr_peer) (fs : list rxr_robuf) : rxr_ep :=
  {| ep_peer := peers; ep_robuf_fs := fs; ep_rm_full := 0;
     ep_msg_order := 0; ep_core_msg_order := 0;
     ep_tx_entry_pool := empty_pool; ep_rx_entry_pool := empty_pool;
     ep_peer_backoff_list := []; ep_peer_list := [];
     ep_rx_entry_list := []; ep_tx_entry_list := [];
     ep_sends := 0; ep_send_comps := 0; ep_failed_send_comps := 0;
     ep_recv_comps := 0; ep_tx_pending := 0 |}.

(** An idle endpoint with the given ordering requirement of the
    application and ordering support of the core provider. *)
Definition ordering_ep (msg_order core_msg_order : Z) : rxr_ep :=
  {| ep_peer := []; ep_robuf_fs := []; ep_rm_full := 0;
     ep_msg_order := msg_order; ep_core_msg_order := core_msg_order;
     ep_tx_entry_pool := empty_pool; ep_rx_entry_pool := empty_pool;
     ep_peer_backoff_list := []; ep_peer_list := [];
     ep_rx_entry_list := []; ep_tx_entry_list := [];
     ep_sends := 0; ep_send_comps := 0; ep_failed_send_comps := 0;
     ep_recv_comps := 0; ep_tx_pending := 0 |}.

(** A peer in backoff since [ts], with the given initial interval and
    exponent. *)
Definition backoff_peer (ts interval exp : Z) : rxr_peer :=
  {| tx_init := true; rx_init := false; is_local := false; shm_fiaddr := 0;
     robuf := None; next_msg_id := 1; state := RXR_PEER_CONNREQ;
     rnr_state := 1; tx_pending := 1; tx_credits := 63; rx_credits := 0;
     rnr_ts := ts; rnr_queued_pkt_cnt := 1; timeout_interval := interval;
     rnr_timeout_exp := exp |}.

(** ** Sequences of calls of the two [tx_pending] functions *)

(** A call of one of the two counter functions, and a sequence of calls run
    from an endpoint state. *)
Inductive tx_pending_call :=
  | inc_call (peer : nat)
  | dec_call (peer : nat) (failed : Z).

Definition run_call (bld : build) (ep : rxr_ep) (c : tx_pending_call)
  : option rxr_ep :=
  match c with
  | inc_call peer => rxr_ep_inc_tx_pending bld ep peer
  | dec_call peer failed => rxr_ep_dec_tx_pending bld ep peer failed
  end.

Fixpoint run_calls (bld : build) (ep : rxr_ep) (cs : list tx_pending_call)
  : option rxr_ep :=
  match cs with
  | [] => Some ep
  | c :: cs' =>
      match run_call bld ep c with
      | Some ep' => run_calls bld ep' cs'
      | None => None
      end
  end.

Definition call_peer (c : tx_pending_call) : nat :=
  match c with
  | inc_call peer => peer
  | dec_call peer _ => peer
  end.

(** The change of the counter of peer [i] that a call asks for, and the
    changes a sequence of calls asks for: for one peer, and for all. *)
Definition call_delta (c : tx_pending_call) : Z :=
  match c with
  | inc_call _ => 1
  | dec_call _ _ => -1
  end.

Definition call_delta_at (i : nat) (c : tx_pending_call) : Z :=
  if decide (call_peer c = i) then call_delta c else 0.

Definition net_at (i : nat) (cs : list tx_pending_call) : Z :=
  foldr (fun c acc => call_delta_at i c + acc) 0 cs.

Definition net (cs : list tx_pending_call) : Z :=
  foldr (fun c acc => call_delta c + acc) 0 cs.

(** The number of increments in a sequence of calls, and the number of
    decrements that report a failure. *)
Definition increments (cs : list tx_pending_call) : Z :=
  foldr (fun c acc => match c with inc_call _ => 1 + acc | _ => acc end) 0 cs.

Definition failed_decrements (cs : list tx_pending_call) : Z :=
  foldr (fun c acc =>
           match c with
           | dec_call _ failed => if failed =? 0 then acc else 1 + acc
           | _ => acc
           end) 0 cs.

(** The calls are paired when every decrement answers an earlier increment
    for the same peer that no decrement answered before: [out i] counts the
    increments for peer [i] still unanswered. *)
Fixpoint paired_from (out : nat -> Z) (cs : list tx_pending_call) : Prop :=
  match cs with
  | [] => True
  | c :: cs' =>
      0 <= out (call_peer c) + call_delta c /\
      paired_from
        (fun i => out i + call_delta_at i c) cs'
  end.

Definition paired (cs : list tx_pending_call) : Prop :=
  paired_from (fun _ => 0) cs.

(** The sum of the per-peer counters, and the consistency of the
    endpoint-wide counter with it. *)
Definition peers_tx_pending (peers : list rxr_peer) : Z :=
  foldr (fun p acc => tx_pending p + acc) 0 peers.

Definition tx_pending_consistent (ep : rxr_ep) : Prop :=
  ep_tx_pending ep = peers_tx_pending (ep_peer ep).

(** The endpoint without the counters the two functions may write: the
    pending counts and the two [ENABLE_DEBUG] statistics. *)
Definition without_tx_counters (ep : rxr_ep) : rxr_ep :=
  set_ep_tx_pending (fun _ => 0)
    (set_ep_sends (fun _ => 0)
      (set_ep_failed_send_comps (fun _ => 0)
        (set_ep_peer (fun _ => []) ep))).

(** An endpoint with the given counters. *)
Definition counting_ep (pending : Z) (peer_pending : list Z) : rxr_ep :=
  set_ep_tx_pending (fun _ => pending)
    (idle_ep (map (fun n => set_tx_pending (fun _ => n) fresh_peer) peer_pending)
       []).


(** An endpoint with one tx record and an empty rx pool, and one with one
    rx record and an empty tx pool. *)
Definition tx_entry_ep : rxr_ep :=
  set_ep_tx_entry_pool
    (fun _ => {| bp_bufs := [{| tx_mem := replicate 64 7;
                                tx_queued_pkts := Some [] |}];
                 bp_free := [] |})
    (idle_ep [] []).

Definition rx_entry_ep : rxr_ep :=
  set_ep_rx_entry_pool
    (fun _ => {| bp_bufs := [{| rx_mem := replicate 64 9;
                                rx_queued_pkts := Some [] |}];
                 bp_free := [] |})
    (idle_ep [] []).

(** ** Event queue and completion queue *)

Section EventQueueVocabulary.

Context {defs : fabric_defs} {util_eq : Type}.
Variable fi_eq_write : util_eq -> Z -> fi_eq_err_entry -> Z -> Z -> Z * util_eq.

(** The call of [fi_eq_write] that [efa_eq_write_error] makes on the queue
    [q]. *)
Definition eq_error_write (q : util_eq) (err prov_errno : Z) : Z * util_eq :=
  fi_eq_write q FI_NOTIFY {| err := err; prov_errno := prov_errno |}
    sizeof_fi_eq_err_entry UTIL_FLAG_ERROR.

End EventQueueVocabulary.

(** An event queue that records what is written to it and accepts every
    write in full. *)
Definition recording_eq_write (q : list fi_eq_err_entry) (event : Z)
  (entry : fi_eq_err_entry) (len flags : Z) : Z * list fi_eq_err_entry :=
  (len, q ++ [entry]).

Section CancelVocabulary.

Import Smr.

Context {defs : fabric_defs} {cq : Type}.
Variable smr_complete_rx : cq -> rx_completion -> Z * cq.

(** The completion [smr_ep_cancel_recv] asks for on behalf of a cancelled
    entry. *)
Definition cancel_completion (e : smr_rx_entry) : rx_completion :=
  {| comp_context := Smr.context e; comp_op := ofi_op_msg;
     comp_flags := flags e; comp_len := 0; comp_buf := NULL;
     comp_addr := addr e; comp_tag := tag e; comp_data := 0;
     comp_err := FI_ECANCELED |}.

(** The endpoint after the entry [e] was taken out of a queue, leaving the
    queues [tq] and [rq], and handed to [smr_complete_rx] and to the free
    stack; and the value [smr_ep_cancel] returns then. *)
Definition cancelled (ep : smr_ep) (tq rq : list smr_rx_entry)
  (e : smr_rx_entry) : smr_ep :=
  {| trecv_queue := tq; recv_queue := rq; recv_fs := e :: recv_fs ep;
     rx_cq := snd (smr_complete_rx (rx_cq ep) (cancel_completion e)) |}.

Definition cancel_status (ep : smr_ep (cq := cq)) (e : smr_rx_entry) : Z :=
  let ret := fst (smr_complete_rx (rx_cq ep) (cancel_completion e)) in
  if ret <? 0 then ret else 0.

End CancelVocabulary.

(** A completion queue that records the completions written to it, with a
    writer that always succeeds and one that cannot allocate the error
    entry. *)
Definition recording_complete_rx (q : list Smr.rx_completion)
  (c : Smr.rx_completion) : Z * list Smr.rx_completion :=
  (0, q ++ [c]).

Definition failing_complete_rx (q : list Smr.rx_completion)
  (c : Smr.rx_completion) : Z * list Smr.rx_completion :=
  (- FI_ENOMEM (fabric_defs := sample_defs), q).

(** A posted receive, and an endpoint with three tagged and one untagged
    receive posted. *)
Definition posted_recv (context tag : Z) : Smr.smr_rx_entry :=
  {| Smr.context := context; Smr.flags := 0; Smr.addr := 2 ^ 64 - 1;
     Smr.tag := tag; Smr.ignore := 0 |}.

Definition posted_ep : Smr.smr_ep (cq := list Smr.rx_completion) :=
  {| Smr.trecv_queue := [posted_recv 5 1; posted_recv 7 2; posted_recv 7 3];
     Smr.recv_queue := [posted_recv 7 0];
     Smr.recv_fs := [];
     Smr.rx_cq := [] |}.

(** * Further functions of the three files *)

(** ** rxr.h: resource-management flags *)

Module RxrRm.

Import Rxr.

Definition RXR_RM_TX_CQ_FULL : Z := BIT_ULL 0.
Definition RXR_RM_RX_CQ_FULL : Z := BIT_ULL 1.

Definition set_ep_rm_full (f : Z -> Z) (x : rxr_ep) : rxr_ep :=
  {| ep_peer := ep_peer x; ep_robuf_fs := ep_robuf_fs x;
     ep_rm_full := f (ep_rm_full x); ep_msg_order := ep_msg_order x;
     ep_core_msg_order := ep_core_msg_order x;
     ep_tx_entry_pool := ep_tx_entry_pool x;
     ep_rx_entry_pool := ep_rx_entry_pool x;
     ep_peer_backoff_list := ep_peer_backoff_list x;
     ep_peer_list := ep_peer_list x; ep_rx_entry_list := ep_rx_entry_list x;
     ep_tx_entry_list := ep_tx_entry_list x; ep_sends := ep_sends x;
     ep_send_comps := ep_send_comps x;
     ep_failed_send_comps := ep_failed_send_comps x;
     ep_recv_comps := ep_recv_comps x; ep_tx_pending := ep_tx_pending x |}.

(** [is_tx_res_full] and [is_rx_res_full]: the masked flag word, a
    [uint64_t]. *)
Definition is_tx_res_full (ep : rxr_ep) : Z :=
  Z.land (ep_rm_full ep) RXR_RM_TX_CQ_FULL.

Definition is_rx_res_full (ep : rxr_ep) : Z :=
  Z.land (ep_rm_full ep) RXR_RM_RX_CQ_FULL.

Section Checks.

(** [struct util_cq] and [ofi_cirque_isfull] are not part of the sources at
    hand: a completion queue is any type, and [ofi_cirque_isfull cq] tells
    whether the circular queue [cq->cirq] is full.  The lock the two
    functions hold is left out. *)
Context {util_cq : Type}.
Variable ofi_cirque_isfull : util_cq -> bool.

(** [ep->rm_full |= flag] and [ep->rm_full &= ~flag] on [uint64_t]. *)
Definition rxr_rm_rx_cq_check (ep : rxr_ep) (rx_cq : util_cq) : rxr_ep :=
  if ofi_cirque_isfull rx_cq
  then set_ep_rm_full (fun m => Z.lor m RXR_RM_RX_CQ_FULL) ep
  else set_ep_rm_full
         (fun m => Z.land m (to_uint64 (Z.lnot RXR_RM_RX_CQ_FULL))) ep.

Definition rxr_rm_tx_cq_check (ep : rxr_ep) (tx_cq : util_cq) : rxr_ep :=
  if ofi_cirque_isfull tx_cq
  then set_ep_rm_full (fun m => Z.lor m RXR_RM_TX_CQ_FULL) ep
  else set_ep_rm_full
         (fun m => Z.land m (to_uint64 (Z.lnot RXR_RM_TX_CQ_FULL))) ep.

End Checks.

End RxrRm.

(** ** Vocabulary of the further statements on rxr.h *)

(** The record [rxr_ep_peer_init] leaves for a peer [p] to which it gives the
    window [rb]. *)
Definition initialised_peer (env : Rxr.rxr_env) (rb : Rxr.rxr_robuf)
  (p : Rxr.rxr_peer) : Rxr.rxr_peer :=
  let p :=
    Rxr.set_rx_init (fun _ => true)
      (Rxr.set_rx_credits (fun _ => to_uint16 (Rxr.env_rx_window_size env))
         (Rxr.set_robuf
            (fun _ => Some (Rxr.ofi_recvwin_buf_alloc rb
                              (Rxr.env_recvwin_size env))) p)) in
  if negb (Rxr.tx_init p)
  then Rxr.set_tx_init (fun _ => true)
         (Rxr.set_tx_credits
            (fun _ => to_uint16 (Rxr.env_tx_max_credits env)) p)
  else p.

(** The endpoint counter agrees with the sum of the per-peer counters
    modulo [2^64]. *)
Definition tx_pending_congruent (ep : Rxr.rxr_ep) : Prop :=
  to_size_t (Rxr.ep_tx_pending ep) =
  to_size_t (peers_tx_pending (Rxr.ep_peer ep)).


(** ** C strings *)

Module CString.

(** A [char] buffer is the list of its bytes.  The string it holds ends
    before its first NUL; a buffer without a NUL holds no string, and the
    functions of [string.h] and [stdio.h] have no defined result on it. *)
Definition is_nul (b : Byte.byte) : bool :=
  match b with Byte.x00 => true | _ => false end.

Fixpoint c_str (buf : list Byte.byte) : option (list Byte.byte) :=
  match buf with
  | [] => None
  | b :: buf' =>
      if is_nul b then Some [] else
      match c_str buf' with
      | Some s => Some (b :: s)
      | None => None
      end
  end.

(** [strlen]. *)
Definition strlen (s : list Byte.byte) : option Z :=
  str ← c_str s; Some (Z.of_nat (length str)).

(** [strdup]: the copy, in a buffer of its own, of the string [s] holds;
    [NULL], here the inner [None], when the allocation fails
    ([allocated = false]). *)
Definition strdup (allocated : bool) (s : list Byte.byte)
  : option (option (list Byte.byte)) :=
  str ← c_str s;
  Some (if allocated then Some (str ++ [Byte.x00]) else None).

(** [snprintf(buf, n, "%s", s)] for [n > 0]: the first [n - 1] bytes of the
    string, or all of it if it is shorter, are stored in [buf] and
    terminated by a NUL; the result is the length of the whole string, which
    has to be an [int].  Writing behind the end of [buf] has no defined
    result. *)
Definition snprintf_s (buf : list Byte.byte) (n : Z) (s : list Byte.byte)
  : option (Z * list Byte.byte) :=
  str ← c_str s;
  let len := Z.of_nat (length str) in
  if INT_MAX <? len then None else
  let k := Z.to_nat (Z.min len (n - 1)) in
  if bool_decide (k < length buf)%nat
  then Some (len, take k str ++ Byte.x00 :: drop (S k) buf)
  else None.

End CString.

(** ** [smr_ep.c]: the name and the options of an endpoint *)

Module SmrCtl.

Import CString.

(** The constants of [rdma/fabric.h], [rdma/fi_errno.h] and
    [rdma/fi_endpoint.h] that the four functions name; the headers are not
    part of the sources at hand. *)
Class smr_defs := {
  FI_SUCCESS : Z;
  FI_ENOPROTOOPT : Z;
  FI_EADDRNOTAVAIL : Z;
  FI_ETOOSMALL : Z;
  FI_OPT_ENDPOINT : Z;
  FI_OPT_MIN_MULTI_RECV : Z
}.

(** [sizeof(size_t)], for the 64-bit [size_t] of [to_size_t]. *)
Definition sizeof_size_t : Z := 8.

(** [struct smr_ep], restricted to the members the four functions use:
    [name] is [NULL] ([None]) or the buffer that holds the name. *)
Record smr_ep := {
  name : option (list Byte.byte);
  min_multi_recv_size : Z
}.

Section Functions.

Context {defs : fabric_defs} {sdefs : smr_defs}.

(** [smr_setname].  [addr] is the buffer the argument points to;
    [allocated] tells whether [strdup] gets its memory.  The result is the
    returned [int] and the endpoint after the call; the old name is
    freed. *)
Definition smr_setname (ep : smr_ep) (addr : list Byte.byte) (addrlen : Z)
  (allocated : bool) : option (Z * smr_ep) :=
  name ← strdup allocated addr;
  match name with
  | None => Some (- FI_ENOMEM, ep)
  | Some name =>
      Some (0, {| name := Some name;
                  min_multi_recv_size := min_multi_recv_size ep |})
  end.

(** [smr_getname].  [addr] is [NULL] ([None]) or the buffer the argument
    points to, [addrlen] the value [*addrlen] holds at the call.  The
    result is the returned [int], the buffer and [*addrlen] after the
    call. *)
Definition smr_getname (ep : smr_ep) (addr : option (list Byte.byte))
  (addrlen : Z) : option (Z * option (list Byte.byte) * Z) :=
  match name ep with
  | None => Some (- FI_EADDRNOTAVAIL, addr, addrlen)
  | Some ep_name =>
      '(ret, addr) ←
        match addr with
        | None => Some (- FI_ETOOSMALL, None)
        | Some buf =>
            if addrlen =? 0 then Some (- FI_ETOOSMALL, Some buf) else
            '(n, buf) ← snprintf_s buf addrlen ep_name;
            Some (if addrlen <=? to_size_t n then - FI_ETOOSMALL else 0,
                  Some buf)
        end;
      len ← strlen ep_name;
      let addrlen := to_size_t (len + 1) in
      if ret =? 0 then
        buf ← addr;
        let i := Z.to_nat (to_size_t (addrlen - 1)) in
        if bool_decide (i < length buf)%nat
        then Some (ret, Some (<[i := Byte.x00]> buf), addrlen)
        else None
      else Some (ret, addr, addrlen)
  end.

(** [smr_getopt].  [optval] and [optlen] are the [size_t] values stored
    where the two pointers point to, at the call; the result is the
    returned [int] and the two values after the call. *)
Definition smr_getopt (ep : smr_ep) (level optname optval optlen : Z)
  : Z * Z * Z :=
  if negb (level =? FI_OPT_ENDPOINT) || negb (optname =? FI_OPT_MIN_MULTI_RECV)
  then (- FI_ENOPROTOOPT, optval, optlen)
  else (FI_SUCCESS, min_multi_recv_size ep, sizeof_size_t).

(** [smr_setopt].  [optval] is the [size_t] value stored where the pointer
    points to; [optlen] is not looked at. *)
Definition smr_setopt (ep : smr_ep) (level optname optval optlen : Z)
  : Z * smr_ep :=
  if negb (level =? FI_OPT_ENDPOINT) || negb (optname =? FI_OPT_MIN_MULTI_RECV)
  then (- FI_ENOPROTOOPT, ep)
  else (FI_SUCCESS,
        {| name := name ep; min_multi_recv_size := optval |}).

End Functions.

End SmrCtl.

(** ** Vocabulary of the statements on the name and the options *)

(** One choice of the constants of [SmrCtl.smr_defs]. *)
Definition sample_smr_defs : SmrCtl.smr_defs :=
  {| SmrCtl.FI_SUCCESS := 0;
     SmrCtl.FI_ENOPROTOOPT := 92;
     SmrCtl.FI_EADDRNOTAVAIL := 99;
     SmrCtl.FI_ETOOSMALL := 257;
     SmrCtl.FI_OPT_ENDPOINT := 0;
     SmrCtl.FI_OPT_MIN_MULTI_RECV := 0 |}.

(** A buffer that holds the string [s], followed by [rest]. *)
Definition holds_string (s rest : list Byte.byte) : list Byte.byte :=
  s ++ Byte.x00 :: rest.

(** The bytes of a string: none of them is NUL. *)
Definition string_bytes (s : list Byte.byte) : Prop :=
  Forall (fun b => b <> Byte.x00) s.

(** An endpoint without a name, and the bytes of ["ep0"]. *)
Definition unnamed_ep : SmrCtl.smr_ep :=
  {| SmrCtl.name := None; SmrCtl.min_multi_recv_size := 4096 |}.

Definition ep0_bytes : list Byte.byte := [Byte.x65; Byte.x70; Byte.x30].

(** ** [rxr_domain.c]: closing and opening *)

Module RxrDomainOps.

Import Rxr RxrDomain CString.

(** [struct rxr_domain] of [rxr.h].  The two lower domains are named by
    their handles, 0 for [NULL]; of the utility domain, which the utility
    functions act on, the record has the [mode] of its registration map. *)
Record rxr_domain := {
  mr_map_mode : Z;
  rdm_domain : Z;
  shm_domain : Z;
  addrlen : Z;
  mr_local : Z;
  rdm_mode : Z;
  do_progress : Z;
  cq_size : Z;
  resource_mgmt : Z
}.

(** [struct rxr_fabric] of [rxr.h], with the [api_version] of its fabric
    descriptor. *)
Record rxr_fabric := {
  api_version : Z;
  lower_fabric : Z;
  shm_fabric : Z
}.

(** [struct fi_info] is declared in [rdma/fabric.h], outside the sources at
    hand: the members [rxr_domain_open] reads or writes, those of the
    attribute records under the name of the attribute. *)
Record fi_info := {
  addr_format : Z;
  src_addr : Z;
  src_addrlen : Z;
  dest_addrlen : Z;
  mode : Z;
  ep_attr_type : Z;
  tx_attr_size : Z;
  rx_attr_size : Z;
  rx_attr_op_flags : Z;
  domain_attr_resource_mgmt : Z;
  fabric_attr_name : list Byte.byte
}.

Definition set_addr_format (v : Z) (i : fi_info) : fi_info :=
  {| addr_format := v; src_addr := src_addr i; src_addrlen := src_addrlen i;
     dest_addrlen := dest_addrlen i; mode := mode i;
     ep_attr_type := ep_attr_type i; tx_attr_size := tx_attr_size i;
     rx_attr_size := rx_attr_size i; rx_attr_op_flags := rx_attr_op_flags i;
     domain_attr_resource_mgmt := domain_attr_resource_mgmt i;
     fabric_attr_name := fabric_attr_name i |}.

Definition set_tx_attr_size (v : Z) (i : fi_info) : fi_info :=
  {| addr_format := addr_format i; src_addr := src_addr i;
     src_addrlen := src_addrlen i; dest_addrlen := dest_addrlen i;
     mode := mode i; ep_attr_type := ep_attr_type i; tx_attr_size := v;
     rx_attr_size := rx_attr_size i; rx_attr_op_flags := rx_attr_op_flags i;
     domain_attr_resource_mgmt := domain_attr_resource_mgmt i;
     fabric_attr_name := fabric_attr_name i |}.

Definition set_rx_attr_size (v : Z) (i : fi_info) : fi_info :=
  {| addr_format := addr_format i; src_addr := src_addr i;
     src_addrlen := src_addrlen i; dest_addrlen := dest_addrlen i;
     mode := mode i; ep_attr_type := ep_attr_type i;
     tx_attr_size := tx_attr_size i; rx_attr_size := v;
     rx_attr_op_flags := rx_attr_op_flags i;
     domain_attr_resource_mgmt := domain_attr_resource_mgmt i;
     fabric_attr_name := fabric_attr_name i |}.

Definition set_rx_attr_op_flags (v : Z) (i : fi_info) : fi_info :=
  {| addr_format := addr_format i; src_addr := src_addr i;
     src_addrlen := src_addrlen i; dest_addrlen := dest_addrlen i;
     mode := mode i; ep_attr_type := ep_attr_type i;
     tx_attr_size := tx_attr_size i; rx_attr_size := rx_attr_size i;
     rx_attr_op_flags := v;
     domain_attr_resource_mgmt := domain_attr_resource_mgmt i;
     fabric_attr_name := fabric_attr_name i |}.

(** What [*domain] holds after [rxr_domain_open]: the domain of the lower
    provider, for a datagram endpoint, or the domain of this provider. *)
Inductive fid_domain :=
  | lower_fid (fid : Z)
  | rxr_fid (d : rxr_domain).

Definition to_uint8 (z : Z) : Z := z mod 2 ^ 8.

(** [!strcmp(a, b)]: the two buffers hold the same string. *)
Definition byte_eqb (a b : Byte.byte) : bool :=
  bool_decide (Byte.to_bits a = Byte.to_bits b).

Fixpoint bytes_eqb (a b : list Byte.byte) : bool :=
  match a, b with
  | [], [] => true
  | x :: a', y :: b' => byte_eqb x y && bytes_eqb a' b'
  | _, _ => false
  end.

Definition strcmp_eq (a b : list Byte.byte) : option bool :=
  sa ← c_str a; sb ← c_str b; Some (bytes_eqb sa sb).

(** The string literal ["shm"]. *)
Definition shm_literal : list Byte.byte :=
  [Byte.x73; Byte.x68; Byte.x6d; Byte.x00].

Section Functions.

Context {defs : fabric_defs}.

(** The lower providers, the utility layer and the allocator are not part
    of the sources at hand.  [world] is the state they act on; each call
    yields its result and the state after it, [fi_domain] and
    [rxr_get_lower_rdm_info] also what they store through their last
    argument, [ofi_domain_init] the [mode] it leaves in the registration map
    of the utility domain.  [use_cnt] reads the use count of the cache entry
    of a registration of the core provider; [shm_mr_map_remove] is
    [ofi_mr_map_remove] on the registration map of the shm provider's
    domain.  [rxr_util_prov] refers to [rxr_info], which is passed where it
    is. *)
Context {world : Type}.
Variable calloc : world -> bool * world.
Variable fi_close : Z -> world -> Z * world.
Variable ofi_domain_close : world -> Z * world.
Variable ofi_mr_map_remove : Z -> world -> Z * world.
Variable shm_mr_map_remove : Z -> world -> Z * world.
Variable ofi_atomic_dec32 : world -> world.
Variable use_cnt : Z -> world -> Z.
Variable efa_mr_cache_enable : Z.
Variable rxr_get_lower_rdm_info :
  Z -> fi_info -> fi_info -> world -> Z * fi_info * world.
Variable fi_domain : Z -> fi_info -> Z -> world -> Z * Z * world.
Variable ofi_domain_init :
  rxr_fabric -> fi_info -> fi_info -> Z -> world -> Z * Z * world.
Variable ofi_mr_local : fi_info -> Z.
Variable fi_freeinfo : fi_info -> world -> world.
Variable MAX : Z -> Z -> Z.
Variable FI_EP_DGRAM : Z.
Variable FI_MULTI_RECV : Z.
Variable FI_MR_PROV_KEY : Z.

(** [rxr_domain_close].  The result is the returned [int], the domain if
    it was not freed, and the state after the call. *)
Definition rxr_domain_close (env : rxr_env) (rxr_domain : rxr_domain)
  (w : world) : Z * option RxrDomainOps.rxr_domain * world :=
  let '(ret, w) := fi_close (rdm_domain rxr_domain) w in
  if negb (ret =? 0) then (ret, Some rxr_domain, w) else
  let '(ret, w) := ofi_domain_close w in
  if negb (ret =? 0) then (ret, Some rxr_domain, w) else
  if negb (env_enable_shm_transfer env =? 0) then
    let '(ret, w) := fi_close (shm_domain rxr_domain) w in
    if negb (ret =? 0) then (ret, Some rxr_domain, w) else (0, None, w)
  else (0, None, w).

(** [rxr_mr_close].  The registration is freed on every path; the result
    is the returned [int] and the state after the call.  Closing a shm
    registration that is [NULL] has no defined result.  The warnings and
    the lock of the shm utility domain, held around the removal of the key,
    are left out. *)
Definition rxr_mr_close (env : rxr_env) (rxr_mr : rxr_mr) (w : world)
  : option (Z * world) :=
  let '(ret, w) := ofi_mr_map_remove (mr_fid_key rxr_mr) w in
  let '(ret, w) := fi_close (msg_mr rxr_mr) w in
  if negb (env_enable_shm_transfer env =? 0) && is_system (peer_iface rxr_mr)
  then
    let cache := negb (efa_mr_cache_enable =? 0) in
    let unused := use_cnt (msg_mr rxr_mr) w =? 0 in
    if negb cache
       || (cache && unused && bool_decide (is_Some (shm_msg_mr rxr_mr)))
    then
      shm_mr ← shm_msg_mr rxr_mr;
      let '(ret, w) := fi_close shm_mr w in
      Some (ret, w)
    else if cache && unused then
      let '(ret, w) := shm_mr_map_remove (mr_fid_key rxr_mr) w in
      let w := ofi_atomic_dec32 w in
      Some (ret, w)
    else Some (ret, w)
  else Some (ret, w).

(** [rxr_domain_open].  [rxr_info] and [shm_info] are the two globals; the
    result is the returned [int], what [*domain] holds, [rxr_info] and the
    state after the call.  The assignments of the operation tables are left
    out. *)
Definition rxr_domain_open (env : rxr_env) (fabric : rxr_fabric)
  (info : fi_info) (context : Z) (rxr_info shm_info : fi_info) (w : world)
  : option (Z * option fid_domain * fi_info * world) :=
  if ep_attr_type info =? FI_EP_DGRAM then
    let '(ret, domain, w) := fi_domain (lower_fabric fabric) info context w in
    Some (ret, Some (lower_fid domain), rxr_info, w)
  else
  let rxr_info := set_addr_format (addr_format info) rxr_info in
  let rxr_info := set_tx_attr_size (tx_attr_size info) rxr_info in
  let rxr_info := set_rx_attr_size (rx_attr_size info) rxr_info in
  let rxr_info :=
    set_rx_attr_op_flags
      (Z.lor (rx_attr_op_flags rxr_info)
             (Z.land (rx_attr_op_flags info) FI_MULTI_RECV)) rxr_info in
  let '(allocated, w) := calloc w in
  if negb allocated then Some (- FI_ENOMEM, None, rxr_info, w) else
  let '(ret, rdm_info, w) :=
    rxr_get_lower_rdm_info (api_version fabric) rxr_info info w in
  (* err_free_domain *)
  if negb (ret =? 0) then Some (ret, None, rxr_info, w) else
  let '(ret, rdm, w) := fi_domain (lower_fabric fabric) rdm_info context w in
  (* err_free_core_info *)
  if negb (ret =? 0) then Some (ret, None, rxr_info, fi_freeinfo rdm_info w)
  else
  '(ret, shm, w) ←
    (if negb (env_enable_shm_transfer env =? 0) then
       (* assert(!strcmp(shm_info->fabric_attr->name, "shm")) *)
       is_shm ← strcmp_eq (fabric_attr_name shm_info) shm_literal;
       if negb is_shm then None else
       Some (fi_domain (shm_fabric fabric) shm_info context w)
     else (* calloc has left shm_domain NULL *) Some (ret, 0, w));
  (* err_close_core_domain *)
  if negb (ret =? 0) then
    let '(_, w) := fi_close rdm w in
    Some (ret, None, rxr_info, fi_freeinfo rdm_info w)
  else
  let '(ret, map_mode, w) := ofi_domain_init fabric rxr_info info context w in
  if negb (ret =? 0) then
    (* err_close_shm_domain *)
    let w :=
      if negb (env_enable_shm_transfer env =? 0)
      then snd (fi_close shm w) else w in
    let '(_, w) := fi_close rdm w in
    Some (ret, None, rxr_info, fi_freeinfo rdm_info w)
  else
  let rxr_domain :=
    {| mr_map_mode := Z.land map_mode (Z.lnot FI_MR_PROV_KEY);
       rdm_domain := rdm;
       shm_domain := shm;
       addrlen := if negb (src_addr info =? 0)
                  then src_addrlen info else dest_addrlen info;
       mr_local := to_uint8 (ofi_mr_local rdm_info);
       rdm_mode := mode rdm_info;
       do_progress := 0;
       cq_size := MAX (to_size_t (rx_attr_size info + tx_attr_size info))
                      (to_size_t (env_cq_size env));
       resource_mgmt := domain_attr_resource_mgmt rdm_info |} in
  Some (0, Some (rxr_fid rxr_domain), rxr_info, fi_freeinfo rdm_info w).

End Functions.

End RxrDomainOps.

(** ** Lower layers that record their calls *)

(** The calls [rxr_domain.c] makes to the lower providers, the utility
    layer and the allocator; a call of [fi_domain] is named with the handle
    it stores. *)
Inductive lower_call :=
  | call_calloc
  | call_fi_close (fid : Z)
  | call_ofi_domain_close
  | call_ofi_mr_map_remove (key : Z)
  | call_shm_mr_map_remove (key : Z)
  | call_ofi_atomic_dec32
  | call_rxr_get_lower_rdm_info
  | call_fi_domain (fabric domain : Z)
  | call_ofi_domain_init
  | call_fi_freeinfo.

(** The state of the recording layers is the list of the calls made so
    far, each with the value it returned. *)
Definition trace := list (lower_call * Z).

(** The handles of the domains a trace opens with success, the handles it
    closes, and the number of calls of a kind. *)
Definition opened (t : trace) : list Z :=
  flat_map (fun c => match c with
                     | (call_fi_domain _ domain, 0) => [domain]
                     | _ => []
                     end) t.

Definition closed (t : trace) : list Z :=
  flat_map (fun c => match c with
                     | (call_fi_close fid, _) => [fid]
                     | _ => []
                     end) t.

Definition infos_obtained (t : trace) : nat :=
  length (flat_map (fun c => match c with
                             | (call_rxr_get_lower_rdm_info, 0) => [c]
                             | _ => []
                             end) t).

Definition infos_freed (t : trace) : nat :=
  length (flat_map (fun c => match c with
                             | (call_fi_freeinfo, _) => [c]
                             | _ => []
                             end) t).

(** The value of the last call of a trace that returns one to
    [rxr_mr_close]. *)
Definition last_status (t : trace) : option Z :=
  last (flat_map (fun c => match c with
                           | (call_ofi_atomic_dec32, _) => []
                           | (_, r) => [r]
                           end) t).

Section Recorder.

(** The lower layers are any functions of the calls made so far: [answer]
    gives the value a call returns, [handle] the domain [fi_domain] stores,
    [lower_info] the info [rxr_get_lower_rdm_info] stores, [map_mode] the
    mode [ofi_domain_init] leaves in the registration map, [count] the use
    count of a cache entry. *)
Variable answer : trace -> lower_call -> Z.
Variable handle : trace -> Z.
Variable lower_info : trace -> RxrDomainOps.fi_info.
Variable map_mode : trace -> Z.
Variable count : trace -> Z -> Z.

Definition record (c : lower_call) (t : trace) : Z * trace :=
  (answer t c, t ++ [(c, answer t c)]).

Definition rec_calloc (t : trace) : bool * trace :=
  (negb (answer t call_calloc =? 0), snd (record call_calloc t)).

Definition rec_fi_close (fid : Z) : trace -> Z * trace :=
  record (call_fi_close fid).

Definition rec_ofi_domain_close : trace -> Z * trace :=
  record call_ofi_domain_close.

Definition rec_ofi_mr_map_remove (key : Z) : trace -> Z * trace :=
  record (call_ofi_mr_map_remove key).

Definition rec_shm_mr_map_remove (key : Z) : trace -> Z * trace :=
  record (call_shm_mr_map_remove key).

Definition rec_ofi_atomic_dec32 (t : trace) : trace :=
  snd (record call_ofi_atomic_dec32 t).

Definition rec_use_cnt (mr : Z) (t : trace) : Z := count t mr.

Definition rec_rxr_get_lower_rdm_info (version : Z)
  (rxr_info info : RxrDomainOps.fi_info) (t : trace)
  : Z * RxrDomainOps.fi_info * trace :=
  (answer t call_rxr_get_lower_rdm_info, lower_info t,
   snd (record call_rxr_get_lower_rdm_info t)).

Definition rec_fi_domain (fabric : Z) (info : RxrDomainOps.fi_info)
  (context : Z) (t : trace) : Z * Z * trace :=
  (answer t (call_fi_domain fabric (handle t)), handle t,
   snd (record (call_fi_domain fabric (handle t)) t)).

Definition rec_ofi_domain_init (fabric : RxrDomainOps.rxr_fabric)
  (rxr_info info : RxrDomainOps.fi_info) (context : Z) (t : trace)
  : Z * Z * trace :=
  (answer t call_ofi_domain_init, map_mode t,
   snd (record call_ofi_domain_init t)).

Definition rec_fi_freeinfo (info : RxrDomainOps.fi_info) (t : trace)
  : trace :=
  snd (record call_fi_freeinfo t).

(** The three functions on the recording layers. *)
Definition recorded_domain_close :=
  RxrDomainOps.rxr_domain_close rec_fi_close rec_ofi_domain_close.

Definition recorded_mr_close (efa_mr_cache_enable : Z) :=
  RxrDomainOps.rxr_mr_close rec_fi_close rec_ofi_mr_map_remove
    rec_shm_mr_map_remove rec_ofi_atomic_dec32 rec_use_cnt
    efa_mr_cache_enable.

Definition recorded_domain_open {defs : fabric_defs}
  (ofi_mr_local : RxrDomainOps.fi_info -> Z) (MAX : Z -> Z -> Z)
  (FI_EP_DGRAM FI_MULTI_RECV FI_MR_PROV_KEY : Z) :=
  RxrDomainOps.rxr_domain_open rec_calloc rec_fi_close
    rec_rxr_get_lower_rdm_info rec_fi_domain rec_ofi_domain_init
    ofi_mr_local rec_fi_freeinfo MAX FI_EP_DGRAM FI_MULTI_RECV
    FI_MR_PROV_KEY.

End Recorder.

(** Lower layers that accept every call, with handles numbered by the
    length of the trace; the info of an RDM endpoint and of the shm
    fabric. *)
Definition accepting (t : trace) (c : lower_call) : Z :=
  match c with
  | call_calloc => 1
  | _ => 0
  end.

Definition numbered_handle (t : trace) : Z := 100 + Z.of_nat (length t).

Definition rdm_endpoint_info : RxrDomainOps.fi_info :=
  {| RxrDomainOps.addr_format := 0; RxrDomainOps.src_addr := 0;
     RxrDomainOps.src_addrlen := 0; RxrDomainOps.dest_addrlen := 32;
     RxrDomainOps.mode := 0; RxrDomainOps.ep_attr_type := 1;
     RxrDomainOps.tx_attr_size := 256; RxrDomainOps.rx_attr_size := 256;
     RxrDomainOps.rx_attr_op_flags := 0;
     RxrDomainOps.domain_attr_resource_mgmt := 1;
     RxrDomainOps.fabric_attr_name :=
       [Byte.x65; Byte.x66; Byte.x61; Byte.x00] |}.

Definition shm_fabric_info : RxrDomainOps.fi_info :=
  {| RxrDomainOps.addr_format := 0; RxrDomainOps.src_addr := 0;
     RxrDomainOps.src_addrlen := 0; RxrDomainOps.dest_addrlen := 0;
     RxrDomainOps.mode := 0; RxrDomainOps.ep_attr_type := 1;
     RxrDomainOps.tx_attr_size := 64; RxrDomainOps.rx_attr_size := 64;
     RxrDomainOps.rx_attr_op_flags := 0;
     RxrDomainOps.domain_attr_resource_mgmt := 1;
     RxrDomainOps.fabric_attr_name := RxrDomainOps.shm_literal |}.

Definition two_fabrics : RxrDomainOps.rxr_fabric :=
  {| RxrDomainOps.api_version := 0; RxrDomainOps.lower_fabric := 1;
     RxrDomainOps.shm_fabric := 2 |}.

(** [rxr_domain_open] on the accepting layers, for endpoints other than
    those of type 3. *)
Definition accepted_domain_open :=
  recorded_domain_open (defs := sample_defs) accepting numbered_handle
    (fun _ => rdm_endpoint_info) (fun _ => 0) (fun _ => 1) Z.max 3 (2 ^ 16)
    (2 ^ 7) default_env two_fabrics rdm_endpoint_info 0 rdm_endpoint_info
    shm_fabric_info [].
(** ** Vocabulary of the statements on the memory registration *)

(** A provider that is handed [core_access] as the [access] of every
    attribute for the core domain and [shm_access] for the shm domain,
    whatever [access] the attribute carries; and a registration map that is
    handed [core_access]. *)
Definition given_access {world : Type} (core_access shm_access : Z)
  (fi_mr_regattr :
     RxrDomain.lower_domain -> RxrDomain.fi_mr_attr -> Z -> world ->
     Z * Z * world)
  (domain : RxrDomain.lower_domain) (attr : RxrDomain.fi_mr_attr) (flags : Z)
  (w : world) : Z * Z * world :=
  fi_mr_regattr domain
    (RxrDomain.set_access
       (match domain with
        | RxrDomain.rdm_domain => core_access
        | RxrDomain.shm_domain => shm_access
        end) attr) flags w.

Definition map_given_access {world : Type} (core_access : Z)
  (ofi_mr_map_insert : RxrDomain.fi_mr_attr -> Z -> world -> Z * Z * world)
  (attr : RxrDomain.fi_mr_attr) (key : Z) (w : world) : Z * Z * world :=
  ofi_mr_map_insert (RxrDomain.set_access core_access attr) key w.

(** * Lemmas and theorems *)

(** ** Integer facts *)

Lemma of_bool_nonzero b : of_bool b <> 0 <-> b = true.
Proof. destruct b; simpl; split; intros; congruence || lia. Qed.

Lemma MIN_min a b : MIN a b = Z.min a b.
Proof. unfold MIN. destruct (Z.ltb_spec a b); lia. Qed.

Lemma int_shl_one n : 0 <= n <= 30 -> int_shl 1 n = Some (2 ^ n).
Proof.
  intros Hn. unfold int_shl, is_int, INT_MIN, INT_MAX.
  assert (0 < 2 ^ n) by (apply Z.pow_pos_nonneg; lia).
  assert (2 ^ n <= 2 ^ 30) by (apply Z.pow_le_mono_r; lia).
  rewrite Z.mul_1_l.
  repeat match goal with
         | |- context [?a <=? ?b] => destruct (Z.leb_spec a b); try lia
         | |- context [?a <? ?b] => destruct (Z.ltb_spec a b); try lia
         end.
  reflexivity.
Qed.

Lemma int_mul_exact a b :
  INT_MIN <= a * b <= INT_MAX -> int_mul a b = Some (a * b).
Proof.
  intros H. unfold int_mul, is_int.
  destruct (Z.leb_spec INT_MIN (a * b)), (Z.leb_spec (a * b) INT_MAX);
    simpl; try lia; reflexivity.
Qed.

Lemma to_uint64_add_r a b : to_uint64 (a + to_uint64 b) = to_uint64 (a + b).
Proof. unfold to_uint64. apply Zplus_mod_idemp_r. Qed.

Lemma to_uint64_small a : 0 <= a < 2 ^ 64 -> to_uint64 a = a.
Proof. intros H. unfold to_uint64. apply Z.mod_small; exact H. Qed.

(** The bitwise or of two 64-bit values is a 64-bit value: [rxr_match_tag]
    needs no truncation. *)
Lemma lor_uint64 a b :
  0 <= a < 2 ^ 64 -> 0 <= b < 2 ^ 64 -> to_uint64 (Z.lor a b) = Z.lor a b.
Proof.
  intros Ha Hb. apply to_uint64_small. split.
  - apply Z.lor_nonneg. lia.
  - destruct (Z.eq_dec (Z.lor a b) 0) as [->|Hnz]; [lia|].
    assert (0 <= Z.lor a b) by (apply Z.lor_nonneg; lia).
    apply Z.log2_lt_pow2; [lia|].
    rewrite Z.log2_lor by lia.
    destruct (Z.eq_dec a 0) as [->|Hna], (Z.eq_dec b 0) as [->|Hnb];
      simpl; try lia.
    + apply Z.max_lub_lt; [lia|]. apply Z.log2_lt_pow2; lia.
    + apply Z.max_lub_lt; [|simpl; lia]. apply Z.log2_lt_pow2; lia.
    + apply Z.max_lub_lt; apply Z.log2_lt_pow2; lia.
Qed.

(** ** Protocol constants *)

(** C9: the maximum source address length is 32 bytes, the scatter-gather
    limit per operation is 4, the protocol version is 4 with major version 2
    and minor version 0, and the MTU bound [RXR_MTU_MAX_LIMIT] is [2^15]. *)
Theorem rxr_protocol_limits :
  RXR_MAX_NAME_LENGTH = 32 /\
  RXR_IOV_LIMIT = 4 /\
  RXR_PROTOCOL_VERSION = 4 /\
  RXR_MAJOR_VERSION = 2 /\
  RXR_MINOR_VERSION = 0 /\
  RXR_MTU_MAX_LIMIT = 2 ^ 15.
Proof. repeat split; reflexivity. Qed.

Section RxrProperties.

Context {defs : fabric_defs}.

(** ** Matching *)

(** C4: [rxr_match_tag] is true exactly when [(tag | ignore) ==
    (match_tag | ignore)], and [rxr_match_addr] is true exactly when [addr]
    is the wildcard [FI_ADDR_UNSPEC] or equals [match_addr]. *)
Theorem rxr_match_tag_addr_spec (tag ignore match_tag addr match_addr : Z) :
  (rxr_match_tag tag ignore match_tag <> 0 <->
     Z.lor tag ignore = Z.lor match_tag ignore) /\
  (rxr_match_addr addr match_addr <> 0 <->
     addr = FI_ADDR_UNSPEC \/ addr = match_addr).
Proof.
  unfold rxr_match_tag, rxr_match_addr. rewrite !of_bool_nonzero. split.
  - apply Z.eqb_eq.
  - rewrite orb_true_iff, !Z.eqb_eq. reflexivity.
Qed.

Example rxr_match_tag_masks_ignored_bits :
  rxr_match_tag 0x12 0x0f 0x1a = 1 /\ rxr_match_tag 0x12 0x0f 0x2a = 0.
Proof. split; reflexivity. Qed.

Example rxr_match_addr_wildcard :
  rxr_match_addr (defs := sample_defs) (2 ^ 64 - 1) 3 = 1 /\
  rxr_match_addr (defs := sample_defs) 3 3 = 1 /\
  rxr_match_addr (defs := sample_defs) 4 3 = 0.
Proof. repeat split; reflexivity. Qed.

(** ** Send-after-send ordering *)

(** SAS requested and not native: the reorder buffer is needed with the
    option on and not needed with the option off; it is not needed when the
    core provider orders natively or when SAS was not requested. *)
Example rxr_need_sas_ordering_cases :
  rxr_need_sas_ordering (defs := sample_defs) (env_with_sas_ordering 1)
    (ordering_ep (2 ^ 8) 0) = 1 /\
  rxr_need_sas_ordering (defs := sample_defs) (env_with_sas_ordering 0)
    (ordering_ep (2 ^ 8) 0) = 0 /\
  rxr_need_sas_ordering (defs := sample_defs) (env_with_sas_ordering 1)
    (ordering_ep (2 ^ 8) (2 ^ 8)) = 0 /\
  rxr_need_sas_ordering (defs := sample_defs) (env_with_sas_ordering 1)
    (ordering_ep 0 0) = 0.
Proof. repeat split; reflexivity. Qed.

(** C1: [rxr_need_sas_ordering] is true exactly when the application
    requested [FI_ORDER_SAS], the core provider does not supply it and, the
    third conjunct of the code, [rxr_env.enable_sas_ordering] is set; so
    with that option on (the default) it is true exactly when SAS was
    requested and is not natively provided, and it is never true
    otherwise. *)
Theorem rxr_need_sas_ordering_spec (env : rxr_env) (ep : rxr_ep) :
  let requested := Z.land (ep_msg_order ep) FI_ORDER_SAS <> 0 in
  let native := Z.land (ep_core_msg_order ep) FI_ORDER_SAS <> 0 in
  let enabled := env_enable_sas_ordering env <> 0 in
  (rxr_need_sas_ordering env ep <> 0 <-> requested /\ ~ native /\ enabled) /\
  (enabled ->
   (rxr_need_sas_ordering env ep <> 0 <-> requested /\ ~ native)) /\
  (~ enabled -> rxr_need_sas_ordering env ep = 0).
Proof.
  cbv zeta. unfold rxr_need_sas_ordering.
  destruct (Z.eqb_spec (Z.land (ep_msg_order ep) FI_ORDER_SAS) 0) as [Hm|Hm],
           (Z.eqb_spec (Z.land (ep_core_msg_order ep) FI_ORDER_SAS) 0) as [Hc|Hc],
           (Z.eqb_spec (env_enable_sas_ordering env) 0) as [He|He];
    simpl; rewrite ?Hm, ?Hc, ?He; repeat split; intros; try tauto; try lia.
Qed.

(** ** RNR backoff *)

(** C2, as amended: when the shift count is in [0, 30], the product
    [timeout_interval * 2^rnr_timeout_exp] fits an [int] and the deadline
    [rnr_ts + min(max_timeout, product)] fits a [uint64_t],
    [rxr_peer_timeout_expired] returns true exactly when
    [ts >= rnr_ts + min(max_timeout, timeout_interval * 2^rnr_timeout_exp)]. *)
Theorem rxr_peer_timeout_expired_exact (env : rxr_env) (ep : rxr_ep)
  (peer : rxr_peer) (ts : Z) :
  let backoff :=
    Z.min (env_max_timeout env)
          (timeout_interval peer * 2 ^ rnr_timeout_exp peer) in
  0 <= rnr_timeout_exp peer <= 30 ->
  INT_MIN <= timeout_interval peer * 2 ^ rnr_timeout_exp peer <= INT_MAX ->
  0 <= rnr_ts peer + backoff < 2 ^ 64 ->
  exists b, rxr_peer_timeout_expired env ep peer ts = Some b /\
            (b = true <-> ts >= rnr_ts peer + backoff).
Proof.
  intros backoff Hexp Hprod Hsum. unfold rxr_peer_timeout_expired.
  rewrite int_shl_one by exact Hexp. simpl.
  rewrite int_mul_exact by exact Hprod. simpl.
  eexists; split; [reflexivity|].
  rewrite to_uint64_add_r, MIN_min, to_uint64_small by exact Hsum.
  fold backoff. rewrite Z.leb_le. lia.
Qed.

End RxrProperties.

Lemma rxr_peer_timeout_expired_exact_witness :
  exists b,
    rxr_peer_timeout_expired default_env (idle_ep [] [])
      {| tx_init := true; rx_init := false; is_local := false; shm_fiaddr := 0;
         robuf := None; next_msg_id := 3; state := RXR_PEER_ACKED;
         rnr_state := 1; tx_pending := 2; tx_credits := 60; rx_credits := 0;
         rnr_ts := 5000; rnr_queued_pkt_cnt := 1; timeout_interval := 100;
         rnr_timeout_exp := 1 |} 5200 = Some b /\
    (b = true <-> 5200 >= 5000 + Z.min 1000000 (100 * 2 ^ 1)).
Proof.
  apply (rxr_peer_timeout_expired_exact default_env
           (idle_ep [] [])
           {| tx_init := true; rx_init := false; is_local := false;
              shm_fiaddr := 0; robuf := None; next_msg_id := 3;
              state := RXR_PEER_ACKED; rnr_state := 1; tx_pending := 2;
              tx_credits := 60; rx_credits := 0; rnr_ts := 5000;
              rnr_queued_pkt_cnt := 1; timeout_interval := 100;
              rnr_timeout_exp := 1 |} 5200);
    cbn; unfold INT_MIN, INT_MAX, RXR_DEF_RNR_MAX_TIMEOUT; lia.
Defined.

(** C2 fails as stated.  With [rnr_ts = 2^64 - 1], an interval of 40 and
    exponent 0 the deadline wraps to 39: the function returns true at
    [ts = 39], far below [rnr_ts + 40].  With an interval of 120 and
    exponent 25 the product exceeds [INT_MAX], and with exponent 31 the
    shift [1 << 31] does: the call has no defined result, where exact
    arithmetic says the timeout has expired. *)
Lemma rxr_peer_timeout_expired_not_exact :
  (rxr_peer_timeout_expired default_env (idle_ep [] [])
     (backoff_peer (2 ^ 64 - 1) 40 0) 39 = Some true /\
   ~ (39 >= (2 ^ 64 - 1) + Z.min 1000000 (40 * 2 ^ 0))) /\
  (rxr_peer_timeout_expired default_env (idle_ep [] [])
     (backoff_peer 5000 120 25) 1005000 = None /\
   1005000 >= 5000 + Z.min 1000000 (120 * 2 ^ 25)) /\
  (rxr_peer_timeout_expired default_env (idle_ep [] [])
     (backoff_peer 5000 0 31) 5000 = None /\
   5000 >= 5000 + Z.min 1000000 (0 * 2 ^ 31)).
Proof.
  repeat split; try (vm_compute; reflexivity); lia.
Qed.

(** ** Peer initialisation *)

Lemma to_uint16_small a : 0 <= a < 2 ^ 16 -> to_uint16 a = a.
Proof. intros H. unfold to_uint16. apply Z.mod_small; exact H. Qed.

(** C3, as amended: for a peer whose [rx_init] is false,
    [rxr_ep_peer_init] takes a window from the free stack and allocates it
    with [recvwin_size] slots, assigns [rx_window_size] to the [uint16_t]
    member [rx_credits], which leaves [rx_window_size mod 2^16] there, and
    sets [rx_init]; it assigns [tx_max_credits] to [tx_credits], which
    leaves [tx_max_credits mod 2^16] there, and sets [tx_init] only when
    [tx_init] was false, so an already initialised tx state keeps its
    [tx_credits].  The values left are those of the configuration exactly
    when these fit 16 bits. *)
Theorem rxr_ep_peer_init_spec (env : rxr_env) (ep : rxr_ep) (peer : nat)
  (p : rxr_peer) (rb : rxr_robuf) (fs : list rxr_robuf) :
  ep_peer ep !! peer = Some p ->
  rx_init p = false ->
  ep_robuf_fs ep = rb :: fs ->
  exists ep' p' w,
    rxr_ep_peer_init env ep peer = Some ep' /\
    ep_peer ep' !! peer = Some p' /\
    ep_robuf_fs ep' = fs /\
    robuf p' = Some w /\
    win_size w = env_recvwin_size env /\
    pending w = replicate (Z.to_nat (env_recvwin_size env)) None /\
    rx_credits p' = to_uint16 (env_rx_window_size env) /\
    (0 <= env_rx_window_size env < 2 ^ 16 ->
     rx_credits p' = env_rx_window_size env) /\
    rx_init p' = true /\
    tx_init p' = true /\
    (tx_init p = false ->
     tx_credits p' = to_uint16 (env_tx_max_credits env) /\
     (0 <= env_tx_max_credits env < 2 ^ 16 ->
      tx_credits p' = env_tx_max_credits env)) /\
    (tx_init p = true -> tx_credits p' = tx_credits p).
Proof.
  intros Hp Hrx Hfs. unfold rxr_ep_peer_init.
  rewrite Hp. simpl. rewrite Hrx, Hfs. simpl.
  pose proof (lookup_lt_Some _ _ _ Hp) as Hlt.
  eexists _, _, _. split; [reflexivity|]. simpl.
  split; [apply list_lookup_insert_eq; exact Hlt|].
  destruct (tx_init p) eqn:Htx; simpl; rewrite ?Htx;
    repeat split; try reflexivity; try discriminate;
    intros; rewrite ?to_uint16_small by assumption; reflexivity.
Qed.

Lemma rxr_ep_peer_init_spec_witness :
  (exists ep' p' w,
     rxr_ep_peer_init default_env
       (idle_ep [fresh_peer]
          [{| exp_msg_id := 7; win_size := 0; pending := [] |}])
       0%nat = Some ep' /\
     ep_peer ep' !! 0%nat = Some p' /\
     ep_robuf_fs ep' = [] /\
     robuf p' = Some w /\
     win_size w = 16384 /\
     pending w = replicate (Z.to_nat 16384) None /\
     rx_credits p' = 128 /\
     rx_init p' = true /\
     tx_init p' = true /\
     tx_credits p' = 64) /\
  (exists ep' p',
     rxr_ep_peer_init default_env
       (idle_ep [fresh_peer; backoff_peer 5000 100 1]
          [{| exp_msg_id := 7; win_size := 0; pending := [] |}])
       1%nat = Some ep' /\
     ep_peer ep' !! 1%nat = Some p' /\
     rx_credits p' = 128 /\
     rx_init p' = true /\
     tx_init p' = true /\
     tx_credits p' = 63).
Proof.
  split.
  - destruct (rxr_ep_peer_init_spec default_env
                (idle_ep [fresh_peer]
                   [{| exp_msg_id := 7; win_size := 0; pending := [] |}])
                0%nat fresh_peer
                {| exp_msg_id := 7; win_size := 0; pending := [] |} []
                eq_refl eq_refl eq_refl)
      as (ep' & p' & w & H1 & H2 & H3 & H4 & H5 & H6 & _ & H7 & H8 & H9
          & H10 & _).
    exists ep', p', w. repeat split; try assumption.
    + apply H7. vm_compute. split; [discriminate | reflexivity].
    + apply (H10 eq_refl). vm_compute. split; [discriminate | reflexivity].
  - destruct (rxr_ep_peer_init_spec default_env
                (idle_ep [fresh_peer; backoff_peer 5000 100 1]
                   [{| exp_msg_id := 7; win_size := 0; pending := [] |}])
                1%nat (backoff_peer 5000 100 1)
                {| exp_msg_id := 7; win_size := 0; pending := [] |} []
                eq_refl eq_refl eq_refl)
      as (ep' & p' & w & H1 & H2 & _ & _ & _ & _ & _ & H7 & H8 & H9 & _
          & H11).
    exists ep', p'. repeat split; try assumption.
    + apply H7. vm_compute. split; [discriminate | reflexivity].
    + apply (H11 eq_refl).
Defined.

(** C3 fails as stated: the two tunables are [int]s and the two credit
    members are [uint16_t].  With [rx_window_size = 65541] and
    [tx_max_credits = 65600] the initialised peer has 5 receive credits and
    64 transmit credits, not the configured values. *)
Lemma rxr_ep_peer_init_truncates_credits :
  let ep' :=
    rxr_ep_peer_init (env_with_credits 65541 65600)
      (idle_ep [fresh_peer]
         [{| exp_msg_id := 7; win_size := 0; pending := [] |}]) 0%nat in
  let p' := ep' ≫= fun ep' => ep_peer ep' !! 0%nat in
  rx_init fresh_peer = false /\
  tx_init fresh_peer = false /\
  rx_credits <$> p' = Some 5 /\
  rx_credits <$> p' <> Some (env_rx_window_size (env_with_credits 65541 65600)) /\
  tx_credits <$> p' = Some 64 /\
  tx_credits <$> p' <> Some (env_tx_max_credits (env_with_credits 65541 65600)) /\
  rx_init <$> p' = Some true /\
  tx_init <$> p' = Some true.
Proof. cbv zeta. repeat split; vm_compute; discriminate. Qed.

(** ** Outstanding-send counters *)

Lemma peers_tx_pending_insert (peers : list rxr_peer) (i : nat) (p : rxr_peer)
  (v : Z) :
  peers !! i = Some p ->
  peers_tx_pending (<[i := set_tx_pending (fun _ => v) p]> peers) =
  peers_tx_pending peers - tx_pending p + v.
Proof.
  revert i. induction peers as [|q peers IH]; intros [|i] Hi; simpl in *;
    try discriminate.
  - injection Hi as ->. unfold peers_tx_pending. simpl. lia.
  - unfold peers_tx_pending in *. simpl. rewrite (IH i Hi). lia.
Qed.

Lemma peers_tx_pending_lookup_le (peers : list rxr_peer) (i : nat)
  (p : rxr_peer) :
  Forall (fun q => 0 <= tx_pending q) peers ->
  peers !! i = Some p ->
  tx_pending p <= peers_tx_pending peers.
Proof.
  intros Hall. revert i.
  induction Hall as [|q peers Hq Hall IH]; intros [|i] Hi; simpl in *;
    try discriminate.
  - injection Hi as ->. unfold peers_tx_pending. simpl.
    assert (0 <= foldr (fun p acc => tx_pending p + acc) 0 peers).
    { clear -Hall. induction Hall; simpl; lia. }
    lia.
  - specialize (IH i Hi). unfold peers_tx_pending in *. simpl. lia.
Qed.

Lemma to_size_t_small a : 0 <= a < 2 ^ 64 -> to_size_t a = a.
Proof. intros H. unfold to_size_t. apply Z.mod_small; exact H. Qed.

Lemma to_size_t_idemp a : to_size_t (to_size_t a) = to_size_t a.
Proof. unfold to_size_t. apply Z.mod_mod. lia. Qed.

Lemma to_size_t_add_cong a b k :
  to_size_t a = to_size_t b -> to_size_t (a + k) = to_size_t (b + k).
Proof.
  unfold to_size_t. intros H.
  rewrite <- (Zplus_mod_idemp_l a), H, Zplus_mod_idemp_l. reflexivity.
Qed.

(** One call that does not wrap: the state it leaves. *)
Lemma run_call_exact (bld : build) (ep : rxr_ep) (c : tx_pending_call)
  (p : rxr_peer) :
  ep_peer ep !! call_peer c = Some p ->
  0 <= tx_pending p + call_delta c < 2 ^ 64 ->
  0 <= ep_tx_pending ep + call_delta c < 2 ^ 64 ->
  exists ep',
    run_call bld ep c = Some ep' /\
    ep_tx_pending ep' = ep_tx_pending ep + call_delta c /\
    ep_peer ep' =
      <[call_peer c := set_tx_pending (fun _ => tx_pending p + call_delta c) p]>
        (ep_peer ep) /\
    without_tx_counters ep' = without_tx_counters ep /\
    (ENABLE_DEBUG bld = false ->
     ep_sends ep' = ep_sends ep /\
     ep_failed_send_comps ep' = ep_failed_send_comps ep) /\
    (ENABLE_DEBUG bld = true ->
     to_size_t (ep_sends ep') = to_size_t (ep_sends ep + increments [c]) /\
     to_size_t (ep_failed_send_comps ep') =
       to_size_t (ep_failed_send_comps ep + failed_decrements [c])).
Proof.
  intros Hp Hpeer Hep.
  destruct c as [peer|peer failed]; simpl in *;
    unfold rxr_ep_inc_tx_pending, rxr_ep_dec_tx_pending; rewrite Hp; simpl.
  - replace (tx_pending p + 1) with (to_size_t (tx_pending p + 1))
      by (apply to_size_t_small; lia).
    destruct (ENABLE_DEBUG bld); eexists; (split; [reflexivity|]); simpl;
      rewrite to_size_t_small by lia; repeat split; intros;
      try discriminate; rewrite ?Z.add_0_r, ?to_size_t_idemp; reflexivity.
  - replace (tx_pending p + -1) with (to_size_t (tx_pending p - 1))
      by (apply to_size_t_small; lia).
    destruct (ENABLE_DEBUG bld), (failed =? 0); simpl;
      eexists; (split; [reflexivity|]); simpl;
      rewrite to_size_t_small by lia; repeat split; intros;
      try discriminate; try lia;
      rewrite ?Z.add_0_r, ?to_size_t_idemp; reflexivity.
Qed.

Lemma set_tx_pending_const (p : rxr_peer) (v w : Z) :
  v = w -> set_tx_pending (fun _ => v) p = set_tx_pending (fun _ => w) p.
Proof. intros ->. reflexivity. Qed.

Lemma increments_nonneg (cs : list tx_pending_call) : 0 <= increments cs.
Proof. induction cs as [|[?|? ?] cs IH]; simpl; lia. Qed.

Lemma run_calls_paired_from (bld : build) (cs : list tx_pending_call) :
  forall (out : nat -> Z) (ep : rxr_ep),
  Forall (fun q => 0 <= tx_pending q) (ep_peer ep) ->
  tx_pending_consistent ep ->
  Forall (fun c => (call_peer c < length (ep_peer ep))%nat) cs ->
  paired_from out cs ->
  (forall i p, ep_peer ep !! i = Some p -> out i <= tx_pending p) ->
  ep_tx_pending ep + increments cs < 2 ^ 64 ->
  exists ep',
    run_calls bld ep cs = Some ep' /\
    ep_tx_pending ep' = ep_tx_pending ep + net cs /\
    length (ep_peer ep') = length (ep_peer ep) /\
    (forall i p, ep_peer ep !! i = Some p ->
       ep_peer ep' !! i =
       Some (set_tx_pending (fun _ => tx_pending p + net_at i cs) p)) /\
    tx_pending_consistent ep' /\
    without_tx_counters ep' = without_tx_counters ep /\
    (ENABLE_DEBUG bld = false ->
     ep_sends ep' = ep_sends ep /\
     ep_failed_send_comps ep' = ep_failed_send_comps ep) /\
    (ENABLE_DEBUG bld = true ->
     to_size_t (ep_sends ep') = to_size_t (ep_sends ep + increments cs) /\
     to_size_t (ep_failed_send_comps ep') =
       to_size_t (ep_failed_send_comps ep + failed_decrements cs)).
Proof.
  induction cs as [|c cs IH]; intros out ep Hnn Hcons Hvalid Hpaired Hout Hwrap.
  - exists ep. simpl. rewrite !Z.add_0_r.
    repeat split; try reflexivity; try assumption.
    intros i p Hi. rewrite Hi. f_equal. destruct p; unfold set_tx_pending; simpl.
    rewrite Z.add_0_r. reflexivity.
  - simpl in Hpaired. destruct Hpaired as [Hlow Hpaired].
    inversion Hvalid as [|? ? Hc Hvalid']; subst.
    destruct (lookup_lt_is_Some_2 _ _ Hc) as [p Hp].
    pose proof (peers_tx_pending_lookup_le _ _ _ Hnn Hp) as Hle.
    pose proof (Hout _ _ Hp) as Houtp.
    pose proof (increments_nonneg cs) as Hinc.
    red in Hcons.
    assert (Hd : call_delta c = 1 /\ increments (c :: cs) = 1 + increments cs \/
                 call_delta c = -1 /\ increments (c :: cs) = increments cs).
    { destruct c; simpl; auto. }
    destruct (run_call_exact bld ep c p Hp)
      as (ep1 & Hrun & Hep1 & Hpeers1 & Hfr1 & Hdbg1 & Hcnt1);
      [destruct Hd as [[Hd Hi]|[Hd Hi]]; lia
      |destruct Hd as [[Hd Hi]|[Hd Hi]]; lia|].
    destruct (IH (fun i => out i + call_delta_at i c) ep1) as
      (ep' & Hrun' & Hep' & Hlen' & Hpeers' & Hcons' & Hfr' & Hdbg' & Hcnt').
    + rewrite Hpeers1. apply Forall_insert; [exact Hnn|]. simpl. lia.
    + red. rewrite Hep1, Hpeers1, (peers_tx_pending_insert _ _ _ _ Hp). lia.
    + rewrite Hpeers1, length_insert. exact Hvalid'.
    + exact Hpaired.
    + intros i q. rewrite Hpeers1. unfold call_delta_at.
      destruct (decide (call_peer c = i)) as [<-|Hne].
      * rewrite list_lookup_insert_eq by exact Hc. intros [= <-]. simpl. lia.
      * rewrite list_lookup_insert_ne by exact Hne. intros Hq.
        specialize (Hout _ _ Hq). lia.
    + rewrite Hep1. destruct Hd as [[Hd Hi]|[Hd Hi]]; lia.
    + exists ep'. simpl. rewrite Hrun.
      split; [exact Hrun'|]. split; [lia|].
      split; [rewrite Hlen', Hpeers1, length_insert; reflexivity|].
      split; [|split; [exact Hcons'|split; [congruence|split]]].
      * intros i q Hq. unfold call_delta_at.
        destruct (decide (call_peer c = i)) as [<-|Hne].
        -- rewrite Hq in Hp. injection Hp as ->.
           rewrite (Hpeers' (call_peer c)
                      (set_tx_pending (fun _ => tx_pending p + call_delta c) p)).
           ++ f_equal. simpl. unfold set_tx_pending. simpl. f_equal. lia.
           ++ rewrite Hpeers1. apply list_lookup_insert_eq. exact Hc.
        -- rewrite (Hpeers' i q).
           ++ reflexivity.
           ++ rewrite Hpeers1, list_lookup_insert_ne by exact Hne. exact Hq.
      * intros Hb. destruct (Hdbg1 Hb), (Hdbg' Hb). split; congruence.
      * intros Hb. destruct (Hcnt1 Hb) as [Hs1 Hf1], (Hcnt' Hb) as [Hs' Hf'].
        rewrite Hs', Hf'.
        rewrite (to_size_t_add_cong _ _ (increments cs) Hs1).
        rewrite (to_size_t_add_cong _ _ (failed_decrements cs) Hf1).
        split; f_equal; destruct c as [?|? failed]; simpl;
          try destruct (failed =? 0); lia.
Qed.

(** C10, as amended: from a state in which [ep.tx_pending] is the sum of
    the per-peer counters, every sequence of paired calls on peers of the
    endpoint for which [ep.tx_pending] plus the number of increments stays
    below [2^64] (the counters are [size_t]) runs to a state in which it is
    again their sum: each increment has added exactly one to
    [ep.tx_pending] and to the [tx_pending] of its peer, each decrement has
    subtracted exactly one from both.  No other member of a peer is
    modified, and the only other members of the endpoint that can differ
    afterwards are the statistics [sends] and [failed_send_comps]: a build
    without [ENABLE_DEBUG] leaves them as they were, a build with it counts
    the increments in [sends] and the decrements that report a failure in
    [failed_send_comps], modulo [2^64]. *)
Theorem tx_pending_calls_consistent (bld : build) (ep : rxr_ep)
  (cs : list tx_pending_call) :
  Forall (fun q => 0 <= tx_pending q) (ep_peer ep) ->
  tx_pending_consistent ep ->
  Forall (fun c => (call_peer c < length (ep_peer ep))%nat) cs ->
  paired cs ->
  ep_tx_pending ep + increments cs < 2 ^ 64 ->
  exists ep',
    run_calls bld ep cs = Some ep' /\
    ep_tx_pending ep' = ep_tx_pending ep + net cs /\
    length (ep_peer ep') = length (ep_peer ep) /\
    (forall i p, ep_peer ep !! i = Some p ->
       ep_peer ep' !! i =
       Some (set_tx_pending (fun _ => tx_pending p + net_at i cs) p)) /\
    tx_pending_consistent ep' /\
    without_tx_counters ep' = without_tx_counters ep /\
    (ENABLE_DEBUG bld = false ->
     ep_sends ep' = ep_sends ep /\
     ep_failed_send_comps ep' = ep_failed_send_comps ep) /\
    (ENABLE_DEBUG bld = true ->
     to_size_t (ep_sends ep') = to_size_t (ep_sends ep + increments cs) /\
     to_size_t (ep_failed_send_comps ep') =
       to_size_t (ep_failed_send_comps ep + failed_decrements cs)).
Proof.
  intros Hnn Hcons Hvalid Hpaired Hwrap.
  apply (run_calls_paired_from bld cs (fun _ => 0)); try assumption.
  intros i p Hp.
  exact (proj1 (Forall_lookup (fun q => 0 <= tx_pending q) (ep_peer ep))
           Hnn i p Hp).
Qed.

Lemma tx_pending_calls_consistent_witness :
  exists ep',
    run_calls debug_build (counting_ep 3 [1; 2])
      [inc_call 0; inc_call 1; dec_call 0 1; dec_call 1 0] = Some ep' /\
    ep_tx_pending ep' = 3 + net [inc_call 0; inc_call 1; dec_call 0 1; dec_call 1 0] /\
    length (ep_peer ep') = length (ep_peer (counting_ep 3 [1; 2])) /\
    (forall i p, ep_peer (counting_ep 3 [1; 2]) !! i = Some p ->
       ep_peer ep' !! i =
       Some (set_tx_pending
               (fun _ => tx_pending p +
                         net_at i [inc_call 0; inc_call 1; dec_call 0 1; dec_call 1 0])
               p)) /\
    tx_pending_consistent ep' /\
    without_tx_counters ep' = without_tx_counters (counting_ep 3 [1; 2]) /\
    (ENABLE_DEBUG debug_build = false ->
     ep_sends ep' = ep_sends (counting_ep 3 [1; 2]) /\
     ep_failed_send_comps ep' = ep_failed_send_comps (counting_ep 3 [1; 2])) /\
    (ENABLE_DEBUG debug_build = true ->
     to_size_t (ep_sends ep') =
       to_size_t (ep_sends (counting_ep 3 [1; 2]) +
                  increments [inc_call 0; inc_call 1; dec_call 0 1; dec_call 1 0]) /\
     to_size_t (ep_failed_send_comps ep') =
       to_size_t (ep_failed_send_comps (counting_ep 3 [1; 2]) +
                  failed_decrements
                    [inc_call 0; inc_call 1; dec_call 0 1; dec_call 1 0])).
Proof.
  apply (tx_pending_calls_consistent debug_build (counting_ep 3 [1; 2])
           [inc_call 0; inc_call 1; dec_call 0 1; dec_call 1 0]).
  - repeat constructor; simpl; lia.
  - reflexivity.
  - repeat constructor; simpl; lia.
  - vm_compute. intuition discriminate.
  - vm_compute. reflexivity.
Defined.

(** C10 fails as stated.  In an [ENABLE_DEBUG] build an increment also
    writes [ep->sends].  And the counters wrap: from a consistent state with
    [ep.tx_pending = 2^64 - 1], the increment of the paired calls "increment,
    then decrement, for peer 1" leaves [ep.tx_pending = 0] while the
    per-peer counters add up to [2^64]. *)
Lemma tx_pending_calls_not_consistent :
  (exists ep',
     rxr_ep_inc_tx_pending debug_build (counting_ep 0 [0]) 0 = Some ep' /\
     ep_sends ep' <> ep_sends (counting_ep 0 [0])) /\
  (tx_pending_consistent (counting_ep (2 ^ 64 - 1) [2 ^ 64 - 2; 1]) /\
   paired [inc_call 1; dec_call 1 0] /\
   exists ep',
     rxr_ep_inc_tx_pending release_build
       (counting_ep (2 ^ 64 - 1) [2 ^ 64 - 2; 1]) 1 = Some ep' /\
     ep_tx_pending ep' = 0 /\
     peers_tx_pending (ep_peer ep') = 2 ^ 64 /\
     ~ tx_pending_consistent ep').
Proof.
  split.
  - eexists. split; [reflexivity|]. vm_compute. discriminate.
  - split; [reflexivity|]. split.
    + vm_compute. intuition discriminate.
    + eexists. split; [reflexivity|].
      split; [vm_compute; reflexivity|].
      split; [vm_compute; reflexivity|].
      unfold tx_pending_consistent. vm_compute. discriminate.
Qed.

(** ** Release of operation-tracking records *)

Section ReleaseProperties.

Context {defs : fabric_defs}.

Lemma rxr_poison_loop_app (n : nat) :
  forall pre ptr : list Z,
  (n <= length ptr)%nat ->
  rxr_poison_loop n (Z.of_nat (length pre)) (pre ++ ptr) =
  pre ++ replicate n rxr_poison_value ++ drop n ptr.
Proof.
  induction n as [|n IH]; intros pre ptr Hn; simpl.
  - rewrite drop_0. reflexivity.
  - destruct ptr as [|x ptr]; simpl in Hn; [lia|].
    rewrite Nat2Z.id, insert_app_r_alt, Nat.sub_diag by lia. simpl.
    replace (Z.of_nat (length pre) + 1) with (Z.of_nat (length (pre ++ [Z0])))
      by (rewrite length_app; simpl; lia).
    replace (pre ++ rxr_poison_value :: ptr)
      with ((pre ++ [rxr_poison_value]) ++ ptr)
      by (rewrite <- app_assoc; reflexivity).
    replace (length (pre ++ [Z0])) with (length (pre ++ [rxr_poison_value]))
      by (rewrite !length_app; reflexivity).
    rewrite IH by lia. rewrite <- app_assoc. reflexivity.
Qed.

(** Poisoning a whole region of [4 * length ptr] bytes leaves the sentinel
    in every word. *)
Lemma rxr_poison_mem_region_whole (ptr : list Z) :
  Z.of_nat (length ptr) <= INT_MAX ->
  rxr_poison_mem_region ptr (sizeof_uint32 * Z.of_nat (length ptr)) =
  Some (replicate (length ptr) rxr_poison_value).
Proof.
  intros Hmax. unfold rxr_poison_mem_region, sizeof_uint32.
  rewrite Z.mul_comm, Z.div_mul by lia.
  destruct (Z.leb_spec 0 (Z.of_nat (length ptr) * 4)); [|lia].
  destruct (Z.leb_spec (Z.of_nat (length ptr)) INT_MAX); [|lia].
  rewrite Z.leb_refl. simpl. rewrite Nat2Z.id.
  change 0 with (Z.of_nat (length (@nil Z))).
  rewrite <- (app_nil_l ptr) at 2.
  rewrite rxr_poison_loop_app by lia.
  rewrite drop_all, app_nil_r. reflexivity.
Qed.

(** C7: for every tx entry whose [queued_pkts] list is empty,
    [rxr_release_tx_entry] leaves [RXR_TX_FREE] in its [state] member and
    returns it to its pool; with [ENABLE_EFA_POISONING] every word of the
    record, the head of [queued_pkts] included, was overwritten with
    [rxr_poison_value] before the state was assigned; without it the other
    words and the list are as they were.  The same holds of
    [rxr_release_rx_entry], every rx entry and [RXR_RX_FREE]; neither
    function needs anything of the other pool. *)
Theorem rxr_release_entry_spec (bld : build) (ep : rxr_ep) :
  (forall (tx_entry : nat) (te : rxr_tx_entry),
     bp_bufs (ep_tx_entry_pool ep) !! tx_entry = Some te ->
     tx_queued_pkts te = Some [] ->
     (tx_entry_state_word < length (tx_mem te))%nat ->
     (ENABLE_EFA_POISONING bld = true ->
      Z.of_nat (length (tx_mem te)) <= INT_MAX) ->
     exists ep' te',
       rxr_release_tx_entry bld ep tx_entry = Some ep' /\
       bp_bufs (ep_tx_entry_pool ep') !! tx_entry = Some te' /\
       tx_entry_state te' = Some (tx_comm_value RXR_TX_FREE) /\
       bp_free (ep_tx_entry_pool ep') =
         tx_entry :: bp_free (ep_tx_entry_pool ep) /\
       (ENABLE_EFA_POISONING bld = true ->
        rxr_poison_mem_region (tx_mem te) (sizeof_rxr_tx_entry te) =
          Some (replicate (length (tx_mem te)) rxr_poison_value) /\
        tx_mem te' =
          <[tx_entry_state_word := tx_comm_value RXR_TX_FREE]>
            (replicate (length (tx_mem te)) rxr_poison_value) /\
        tx_queued_pkts te' = None) /\
       (ENABLE_EFA_POISONING bld = false ->
        tx_mem te' =
          <[tx_entry_state_word := tx_comm_value RXR_TX_FREE]> (tx_mem te) /\
        tx_queued_pkts te' = Some [])) /\
  (forall (rx_entry : nat) (re : rxr_rx_entry),
     bp_bufs (ep_rx_entry_pool ep) !! rx_entry = Some re ->
     rx_queued_pkts re = Some [] ->
     (rx_entry_state_word < length (rx_mem re))%nat ->
     (ENABLE_EFA_POISONING bld = true ->
      Z.of_nat (length (rx_mem re)) <= INT_MAX) ->
     exists ep' re',
       rxr_release_rx_entry bld ep rx_entry = Some ep' /\
       bp_bufs (ep_rx_entry_pool ep') !! rx_entry = Some re' /\
       rx_entry_state re' = Some (rx_comm_value RXR_RX_FREE) /\
       bp_free (ep_rx_entry_pool ep') =
         rx_entry :: bp_free (ep_rx_entry_pool ep) /\
       (ENABLE_EFA_POISONING bld = true ->
        rxr_poison_mem_region (rx_mem re) (sizeof_rxr_rx_entry re) =
          Some (replicate (length (rx_mem re)) rxr_poison_value) /\
        rx_mem re' =
          <[rx_entry_state_word := rx_comm_value RXR_RX_FREE]>
            (replicate (length (rx_mem re)) rxr_poison_value) /\
        rx_queued_pkts re' = None) /\
       (ENABLE_EFA_POISONING bld = false ->
        rx_mem re' =
          <[rx_entry_state_word := rx_comm_value RXR_RX_FREE]> (rx_mem re) /\
        rx_queued_pkts re' = Some [])).
Proof.
  split.
  - intros tx_entry te Hte Htq Htw Htmax.
    pose proof (lookup_lt_Some _ _ _ Hte) as Htlt.
    unfold rxr_release_tx_entry. rewrite Hte. simpl. rewrite Htq. simpl.
    unfold sizeof_rxr_tx_entry in *.
    destruct (ENABLE_EFA_POISONING bld) eqn:Hpoison; simpl.
    + pose proof (rxr_poison_mem_region_whole (tx_mem te) (Htmax eq_refl))
        as Htp.
      rewrite Htp. simpl.
      rewrite bool_decide_eq_true_2 by (rewrite length_replicate; exact Htw).
      simpl. eexists _, _. split; [reflexivity|].
      destruct (ENABLE_DEBUG bld); simpl;
        (split; [apply list_lookup_insert_eq; exact Htlt|]);
        (split; [unfold tx_entry_state; simpl; apply list_lookup_insert_eq;
                 rewrite length_replicate; exact Htw|]);
        (split; [reflexivity|]);
        (split; [intros _; split; [reflexivity | split; reflexivity]
                |intros; discriminate]).
    + rewrite bool_decide_eq_true_2 by exact Htw.
      simpl. eexists _, _. split; [reflexivity|].
      destruct (ENABLE_DEBUG bld); simpl;
        (split; [apply list_lookup_insert_eq; exact Htlt|]);
        (split; [unfold tx_entry_state; simpl; apply list_lookup_insert_eq;
                 exact Htw|]);
        (split; [reflexivity|]);
        (split; [intros; discriminate
                |intros _; split; reflexivity]).
  - intros rx_entry re Hre Hrq Hrw Hrmax.
    pose proof (lookup_lt_Some _ _ _ Hre) as Hrlt.
    unfold rxr_release_rx_entry. rewrite Hre. simpl. rewrite Hrq. simpl.
    unfold sizeof_rxr_rx_entry in *.
    destruct (ENABLE_EFA_POISONING bld) eqn:Hpoison; simpl.
    + pose proof (rxr_poison_mem_region_whole (rx_mem re) (Hrmax eq_refl))
        as Hrp.
      rewrite Hrp. simpl.
      rewrite bool_decide_eq_true_2 by (rewrite length_replicate; exact Hrw).
      simpl. eexists _, _. split; [reflexivity|].
      destruct (ENABLE_DEBUG bld); simpl;
        (split; [apply list_lookup_insert_eq; exact Hrlt|]);
        (split; [unfold rx_entry_state; simpl; apply list_lookup_insert_eq;
                 rewrite length_replicate; exact Hrw|]);
        (split; [reflexivity|]);
        (split; [intros _; split; [reflexivity | split; reflexivity]
                |intros; discriminate]).
    + rewrite bool_decide_eq_true_2 by exact Hrw.
      simpl. eexists _, _. split; [reflexivity|].
      destruct (ENABLE_DEBUG bld); simpl;
        (split; [apply list_lookup_insert_eq; exact Hrlt|]);
        (split; [unfold rx_entry_state; simpl; apply list_lookup_insert_eq;
                 exact Hrw|]);
        (split; [reflexivity|]);
        (split; [intros; discriminate
                |intros _; split; reflexivity]).
Qed.

End ReleaseProperties.

Lemma rxr_release_entry_spec_witness :
  (exists ep' te',
     rxr_release_tx_entry (defs := sample_defs) poisoning_build tx_entry_ep 0
       = Some ep' /\
     bp_bufs (ep_tx_entry_pool ep') !! 0%nat = Some te' /\
     tx_entry_state (defs := sample_defs) te' = Some 0 /\
     bp_free (ep_tx_entry_pool ep') = [0%nat] /\
     tx_mem te' = <[20%nat := 0]> (replicate 64 0xdeadbeef) /\
     tx_queued_pkts te' = None) /\
  (exists ep' re',
     rxr_release_rx_entry (defs := sample_defs) release_build rx_entry_ep 0
       = Some ep' /\
     bp_bufs (ep_rx_entry_pool ep') !! 0%nat = Some re' /\
     rx_entry_state (defs := sample_defs) re' = Some 0 /\
     bp_free (ep_rx_entry_pool ep') = [0%nat] /\
     rx_mem re' = <[22%nat := 0]> (replicate 64 9) /\
     rx_queued_pkts re' = Some []).
Proof.
  split.
  - destruct (proj1 (rxr_release_entry_spec (defs := sample_defs)
                       poisoning_build tx_entry_ep)
                0%nat {| tx_mem := replicate 64 7; tx_queued_pkts := Some [] |})
      as (ep1 & te' & H1 & H2 & H3 & H4 & H5 & _);
      try reflexivity; try (simpl; lia);
      try (intros _; vm_compute; discriminate).
    destruct (H5 eq_refl) as (_ & H6 & H7).
    exists ep1, te'. repeat split; assumption.
  - destruct (proj2 (rxr_release_entry_spec (defs := sample_defs)
                       release_build rx_entry_ep)
                0%nat {| rx_mem := replicate 64 9; rx_queued_pkts := Some [] |})
      as (ep2 & re' & K1 & K2 & K3 & K4 & _ & K5);
      try reflexivity; try (simpl; lia);
      try (intros; discriminate).
    destruct (K5 eq_refl) as (K6 & K7).
    exists ep2, re'. repeat split; assumption.
Defined.

(** ** Event-queue error reports *)

Lemma to_int_small r : INT_MIN <= r <= INT_MAX -> to_int r = r.
Proof.
  unfold INT_MIN, INT_MAX, to_int. intros H.
  rewrite Z.mod_small by lia. lia.
Qed.

Lemma int_eq_size_t r s :
  INT_MIN <= r <= INT_MAX -> 0 <= s <= INT_MAX ->
  (to_size_t r =? s) = (r =? s).
Proof.
  unfold INT_MIN, INT_MAX, to_size_t. intros Hr Hs.
  destruct (Z.eqb_spec r s) as [->|Hne].
  - rewrite Z.mod_small by lia. apply Z.eqb_refl.
  - apply Z.eqb_neq. destruct (Z_lt_le_dec r 0) as [Hneg|Hpos].
    + rewrite <- (Z.mod_add r 1 (2 ^ 64)) by lia.
      rewrite Z.mod_small by lia. lia.
    + rewrite Z.mod_small by lia. exact Hne.
Qed.

Section EventQueueProperties.

Context {defs : fabric_defs} {util_eq : Type}.
Variable fi_eq_write : util_eq -> Z -> fi_eq_err_entry -> Z -> Z -> Z * util_eq.

(** C6: [efa_eq_write_error] first writes the error entry to the event
    queue of the endpoint, if one is bound, and ends in [abort()] exactly
    when that write did not succeed: no queue is bound, or [fi_eq_write]
    did not return the size of the entry.  When the write succeeds it
    returns.  ([fi_eq_write] returns a byte count or a negative errno, which
    the [int] it is stored in holds.) *)
Theorem efa_eq_write_error_aborts_iff (ep : util_ep util_eq)
  (err prov_errno : Z) :
  0 <= sizeof_fi_eq_err_entry <= INT_MAX ->
  (forall q, eq ep = Some q ->
     INT_MIN <= fst (eq_error_write fi_eq_write q err prov_errno) <= INT_MAX) ->
  (fst (efa_eq_write_error fi_eq_write ep err prov_errno) = Aborted <->
   eq ep = None \/
   exists q, eq ep = Some q /\
             fst (eq_error_write fi_eq_write q err prov_errno) <> sizeof_fi_eq_err_entry) /\
  (forall q, eq ep = Some q ->
     eq (snd (efa_eq_write_error fi_eq_write ep err prov_errno)) =
       Some (snd (eq_error_write fi_eq_write q err prov_errno)) /\
     (fst (eq_error_write fi_eq_write q err prov_errno) = sizeof_fi_eq_err_entry ->
      fst (efa_eq_write_error fi_eq_write ep err prov_errno) = Returned)).
Proof.
  intros Hsize Hret. unfold efa_eq_write_error.
  destruct (eq ep) as [q|] eqn:Heq.
  - specialize (Hret q eq_refl). unfold eq_error_write in *.
    destruct (fi_eq_write q FI_NOTIFY _ sizeof_fi_eq_err_entry UTIL_FLAG_ERROR)
      as [r q'] eqn:Hw.
    simpl in *. rewrite to_int_small, int_eq_size_t by assumption.
    destruct (Z.eqb_spec r sizeof_fi_eq_err_entry) as [Hr|Hr]; simpl.
    + split.
      * split; [discriminate|].
        intros [Hnone|(q0 & Hq0 & Hne)]; [discriminate|].
        injection Hq0 as <-. rewrite Hw in Hne. simpl in Hne. contradiction.
      * intros q0 [= <-]. rewrite Hw. simpl. split; reflexivity.
    + split.
      * split; [|reflexivity]. intros _. right. exists q.
        rewrite Hw. split; [reflexivity|exact Hr].
      * intros q0 [= <-]. rewrite Hw. simpl. split; [reflexivity|].
        intros Hr'. contradiction.
  - simpl. split.
    + split; [intros _; left; reflexivity|reflexivity].
    + intros q0 Hq0. discriminate.
Qed.

End EventQueueProperties.

Lemma efa_eq_write_error_aborts_iff_witness :
  fst (efa_eq_write_error (defs := sample_defs) recording_eq_write
         {| eq := Some [] |} 5 7) = Returned /\
  eq (snd (efa_eq_write_error (defs := sample_defs) recording_eq_write
             {| eq := Some [] |} 5 7)) =
    Some [{| err := 5; prov_errno := 7 |}].
Proof.
  destruct (efa_eq_write_error_aborts_iff (defs := sample_defs)
              recording_eq_write {| eq := Some [] |} 5 7) as [_ H].
  - vm_compute. split; discriminate.
  - intros q [= <-]. vm_compute. split; discriminate.
  - destruct (H [] eq_refl) as [H1 H2]. split.
    + apply H2. reflexivity.
    + exact H1.
Defined.

(** ** Memory registration *)

Section RegistrationProperties.

Import RxrDomain.

Context {defs : fabric_defs} {world : Type}.
Variable calloc : world -> bool * world.
Variable fi_mr_regattr :
  lower_domain -> fi_mr_attr -> Z -> world -> Z * Z * world.
Variable fi_mr_key : Z -> Z.
Variable ofi_mr_map_insert : fi_mr_attr -> Z -> world -> Z * Z * world.
Variable ofi_mr_map_remove : Z -> world -> Z * world.
Variable fi_close : Z -> world -> Z * world.
Variable FI_KEY_NOTAVAIL : Z.
Variable efa_mr_cache_enable : Z.

Abbreviation regattr :=
  (rxr_mr_regattr calloc fi_mr_regattr fi_mr_key ofi_mr_map_insert
     ofi_mr_map_remove fi_close FI_KEY_NOTAVAIL efa_mr_cache_enable).
Abbreviation regv :=
  (rxr_mr_regv calloc fi_mr_regattr fi_mr_key ofi_mr_map_insert
     ofi_mr_map_remove fi_close FI_KEY_NOTAVAIL efa_mr_cache_enable).
Abbreviation reg :=
  (rxr_mr_reg calloc fi_mr_regattr fi_mr_key ofi_mr_map_insert
     ofi_mr_map_remove fi_close FI_KEY_NOTAVAIL efa_mr_cache_enable).

(** A registration that [rxr_mr_regattr] hands out records the interface
    of the attribute it was given. *)
Lemma rxr_mr_regattr_iface (env : rxr_env) (attr : fi_mr_attr) (flags : Z)
  (w w' : world) (ret : Z) (mr : rxr_mr) :
  regattr env attr flags w = Some (ret, Some mr, w') ->
  iface attr = Some (peer_iface mr).
Proof.
  unfold rxr_mr_regattr. intros H.
  destruct attr as [iov cnt [acc|] off key [ctx|] [ifc|] [dev|]]; simpl in *;
    repeat case_match; simplify_eq/=; reflexivity.
Qed.

(** C8, as amended: [rxr_mr_regv] assigns [FI_HMEM_SYSTEM] to the [iface]
    member of the attribute it builds, so for every call through
    [rxr_mr_regv] or [rxr_mr_reg] the attribute passed to [rxr_mr_regattr]
    carries [iface = FI_HMEM_SYSTEM], and so does every registration such a
    call hands out. *)
Theorem rxr_mr_reg_regv_iface (env : rxr_env) (iov : list iovec)
  (count buf len access offset requested_key flags context : Z) (w : world) :
  let attr_v := rxr_mr_regv_attr iov count access offset requested_key context in
  let attr_r :=
    rxr_mr_regv_attr [{| iov_base := buf; iov_len := len |}] 1 access offset
      requested_key context in
  (regv env iov count access offset requested_key flags context w =
     regattr env attr_v flags w /\
   iface attr_v = Some FI_HMEM_SYSTEM) /\
  (reg env buf len access offset requested_key flags context w =
     regattr env attr_r flags w /\
   iface attr_r = Some FI_HMEM_SYSTEM) /\
  (forall ret mr w',
     regv env iov count access offset requested_key flags context w =
       Some (ret, Some mr, w') ->
     peer_iface mr = FI_HMEM_SYSTEM) /\
  (forall ret mr w',
     reg env buf len access offset requested_key flags context w =
       Some (ret, Some mr, w') ->
     peer_iface mr = FI_HMEM_SYSTEM).
Proof.
  cbv zeta. repeat split.
  - intros ret mr w' H. apply rxr_mr_regattr_iface in H. simpl in H.
    congruence.
  - intros ret mr w' H. apply rxr_mr_regattr_iface in H. simpl in H.
    congruence.
Qed.

End RegistrationProperties.

(** C8 fails as stated: [rxr_mr_regv] does not omit the initialisation of
    [iface]; in the attribute it builds [iface] holds [FI_HMEM_SYSTEM].  The
    member it leaves unassigned is [device]. *)
Lemma rxr_mr_regv_initialises_iface :
  RxrDomain.iface (RxrDomain.rxr_mr_regv_attr [] 0 0 0 0 0) <> None /\
  RxrDomain.iface (RxrDomain.rxr_mr_regv_attr [] 0 0 0 0 0) =
    Some RxrDomain.FI_HMEM_SYSTEM /\
  RxrDomain.device_cuda (RxrDomain.rxr_mr_regv_attr [] 0 0 0 0 0) = None.
Proof. repeat split. discriminate. Qed.

(** A run of [rxr_mr_reg] against lower providers that accept every
    registration: the state is the list of the keys in the registration
    map. *)
Example rxr_mr_reg_runs :
  exists mr w',
    RxrDomain.rxr_mr_reg (defs := sample_defs)
      (fun w => (true, w))
      (fun _ _ _ w => (0, 100 + Z.of_nat (length w), w))
      (fun lower_mr => lower_mr)
      (fun _ key w => (0, key, key :: w))
      (fun key w => (0, filter (fun k => k <> key) w))
      (fun _ w => (0, w))
      (2 ^ 64 - 1) 0
      default_env 4096 64 0 0 0 0 17 [] = Some (0, Some mr, w') /\
    RxrDomain.peer_iface mr = RxrDomain.FI_HMEM_SYSTEM /\
    RxrDomain.mr_fid_context mr = 17 /\
    w' = [100].
Proof. eexists _, _. split; [vm_compute; reflexivity|]. repeat split. Qed.

(** ** Cancellation of a posted receive (shm provider) *)

Section CancelProperties.

Import Smr.

Context {defs : fabric_defs} {cq : Type}.
Variable smr_complete_rx : cq -> rx_completion -> Z * cq.

Lemma dlist_remove_first_match_found {A} (f : A -> bool) (pre post : list A)
  (e : A) :
  Forall (fun x => f x = false) pre -> f e = true ->
  dlist_remove_first_match f (pre ++ e :: post) = (Some e, pre ++ post).
Proof.
  intros Hpre He. induction Hpre as [|x pre Hx Hpre IH]; simpl.
  - rewrite He. reflexivity.
  - rewrite Hx, IH. reflexivity.
Qed.

Lemma dlist_remove_first_match_none {A} (f : A -> bool) (l : list A) :
  Forall (fun x => f x = false) l ->
  dlist_remove_first_match f l = (None, l).
Proof.
  intros Hl. induction Hl as [|x l Hx Hl IH]; simpl.
  - reflexivity.
  - rewrite Hx, IH. reflexivity.
Qed.

Lemma smr_ep_cancel_recv_found (ep : smr_ep) (q : queue_ref) (ctx : Z)
  (pre post : list smr_rx_entry) (e : smr_rx_entry) :
  queue_of ep q = pre ++ e :: post ->
  Forall (fun x => Smr.context x <> ctx) pre ->
  Smr.context e = ctx ->
  smr_ep_cancel_recv smr_complete_rx ep q ctx =
  (let ret := fst (smr_complete_rx (rx_cq ep) (cancel_completion e)) in
   if negb (ret =? 0) then ret else 1,
   match q with
   | trecv_queue_ref => cancelled smr_complete_rx ep (pre ++ post) (recv_queue ep) e
   | recv_queue_ref => cancelled smr_complete_rx ep (trecv_queue ep) (pre ++ post) e
   end).
Proof.
  intros Hq Hpre He. unfold smr_ep_cancel_recv. rewrite Hq.
  rewrite dlist_remove_first_match_found.
  - unfold cancelled, cancel_completion.
    destruct q; simpl;
      destruct (smr_complete_rx (rx_cq ep) _) as [ret cq']; reflexivity.
  - eapply Forall_impl; [exact Hpre|]. intros x Hx.
    unfold smr_match_recv_ctx. apply Z.eqb_neq. exact Hx.
  - unfold smr_match_recv_ctx. apply Z.eqb_eq. exact He.
Qed.

Lemma smr_ep_cancel_recv_none (ep : smr_ep) (q : queue_ref) (ctx : Z) :
  Forall (fun x => Smr.context x <> ctx) (queue_of ep q) ->
  smr_ep_cancel_recv smr_complete_rx ep q ctx = (0, ep).
Proof.
  intros Hq. unfold smr_ep_cancel_recv.
  rewrite dlist_remove_first_match_none; [reflexivity|].
  eapply Forall_impl; [exact Hq|]. intros x Hx.
  unfold smr_match_recv_ctx. apply Z.eqb_neq. exact Hx.
Qed.

(** C5, as amended: if the tagged queue holds an entry with the context,
    [smr_ep_cancel] unlinks the first such entry from it; otherwise, if the
    untagged queue holds one, it unlinks the first such entry from that
    queue.  It then asks [smr_complete_rx] for a completion with error
    [FI_ECANCELED] for that entry and pushes the entry on the free stack; it
    returns 0 unless [smr_complete_rx] returned a negative value, which it
    then returns.  If no entry matches, it returns 0, no queue is modified
    and no completion is written. *)
Theorem smr_ep_cancel_spec (ep : smr_ep) (ctx : Z) :
  (forall pre e post,
     trecv_queue ep = pre ++ e :: post ->
     Forall (fun x => Smr.context x <> ctx) pre ->
     Smr.context e = ctx ->
     smr_ep_cancel smr_complete_rx ep ctx =
       (cancel_status smr_complete_rx ep e, cancelled smr_complete_rx ep (pre ++ post) (recv_queue ep) e)) /\
  (forall pre e post,
     Forall (fun x => Smr.context x <> ctx) (trecv_queue ep) ->
     recv_queue ep = pre ++ e :: post ->
     Forall (fun x => Smr.context x <> ctx) pre ->
     Smr.context e = ctx ->
     smr_ep_cancel smr_complete_rx ep ctx =
       (cancel_status smr_complete_rx ep e, cancelled smr_complete_rx ep (trecv_queue ep) (pre ++ post) e)) /\
  (Forall (fun x => Smr.context x <> ctx) (trecv_queue ep) ->
   Forall (fun x => Smr.context x <> ctx) (recv_queue ep) ->
   smr_ep_cancel smr_complete_rx ep ctx = (0, ep)) /\
  (forall e,
     0 <= fst (smr_complete_rx (rx_cq ep) (cancel_completion e)) ->
     cancel_status smr_complete_rx ep e = 0).
Proof.
  repeat split.
  - intros pre e post Hq Hpre He. unfold smr_ep_cancel, cancel_status.
    rewrite (smr_ep_cancel_recv_found ep trecv_queue_ref ctx pre post e Hq Hpre He).
    cbv zeta.
    destruct (fst (smr_complete_rx (rx_cq ep) (cancel_completion e))) as [|r|r];
      reflexivity.
  - intros pre e post Ht Hq Hpre He. unfold smr_ep_cancel, cancel_status.
    rewrite (smr_ep_cancel_recv_none ep trecv_queue_ref ctx Ht). simpl.
    rewrite (smr_ep_cancel_recv_found ep recv_queue_ref ctx pre post e Hq Hpre He).
    cbv zeta.
    destruct (fst (smr_complete_rx (rx_cq ep) (cancel_completion e))) as [|r|r];
      reflexivity.
  - intros Ht Hr. unfold smr_ep_cancel.
    rewrite (smr_ep_cancel_recv_none ep trecv_queue_ref ctx Ht). simpl.
    rewrite (smr_ep_cancel_recv_none ep recv_queue_ref ctx Hr). reflexivity.
  - intros e He. unfold cancel_status. cbv zeta.
    destruct (Z.ltb_spec (fst (smr_complete_rx (rx_cq ep) (cancel_completion e))) 0);
      [lia|reflexivity].
Qed.

End CancelProperties.

Lemma smr_ep_cancel_spec_witness :
  Smr.smr_ep_cancel (defs := sample_defs) recording_complete_rx posted_ep 7 =
  (0,
   {| Smr.trecv_queue := [posted_recv 5 1; posted_recv 7 3];
      Smr.recv_queue := [posted_recv 7 0];
      Smr.recv_fs := [posted_recv 7 2];
      Smr.rx_cq :=
        [{| Smr.comp_context := 7; Smr.comp_op := 0; Smr.comp_flags := 0;
            Smr.comp_len := 0; Smr.comp_buf := 0;
            Smr.comp_addr := 2 ^ 64 - 1; Smr.comp_tag := 2;
            Smr.comp_data := 0; Smr.comp_err := 125 |}] |}).
Proof.
  destruct (smr_ep_cancel_spec (defs := sample_defs) recording_complete_rx
              posted_ep 7) as [H _].
  rewrite (H [posted_recv 5 1] (posted_recv 7 2) [posted_recv 7 3]).
  - reflexivity.
  - reflexivity.
  - repeat constructor. simpl. lia.
  - reflexivity.
Defined.

(** C5 fails as stated: when the completion cannot be written,
    [smr_ep_cancel] has unlinked and freed the entry all the same, no
    completion is in the queue, and the call returns the error instead of
    0. *)
Lemma smr_ep_cancel_reports_failure :
  fst (Smr.smr_ep_cancel (defs := sample_defs) failing_complete_rx posted_ep 7)
    = -12 /\
  fst (Smr.smr_ep_cancel (defs := sample_defs) failing_complete_rx posted_ep 7)
    <> 0 /\
  Smr.rx_cq
    (snd (Smr.smr_ep_cancel (defs := sample_defs) failing_complete_rx posted_ep 7))
    = [] /\
  Smr.trecv_queue
    (snd (Smr.smr_ep_cancel (defs := sample_defs) failing_complete_rx posted_ep 7))
    = [posted_recv 5 1; posted_recv 7 3] /\
  Smr.recv_fs
    (snd (Smr.smr_ep_cancel (defs := sample_defs) failing_complete_rx posted_ep 7))
    = [posted_recv 7 2].
Proof. repeat split. vm_compute. discriminate. Qed.

(** * Further properties *)

(** ** Tag matching, bit by bit *)

(** X1: [rxr_match_tag] is true exactly when the two tags agree on every
    bit that is not set in [ignore]. *)
Theorem rxr_match_tag_bits (tag ignore match_tag : Z) :
  rxr_match_tag tag ignore match_tag <> 0 <->
  forall n, 0 <= n -> Z.testbit ignore n = false ->
            Z.testbit tag n = Z.testbit match_tag n.
Proof.
  unfold rxr_match_tag. rewrite of_bool_nonzero, Z.eqb_eq. split.
  - intros H n Hn Hi.
    apply (f_equal (fun x => Z.testbit x n)) in H.
    rewrite !Z.lor_spec, Hi, !orb_false_r in H. exact H.
  - intros H. apply Z.bits_inj'. intros n Hn. rewrite !Z.lor_spec.
    destruct (Z.testbit ignore n) eqn:Hi.
    + rewrite !orb_true_r. reflexivity.
    + rewrite (H n Hn Hi). reflexivity.
Qed.

(** X2: for a fixed mask, matching is reflexive, symmetric and transitive;
    setting more bits in the mask never turns a match into a mismatch; with
    no bit ignored only equal tags match, and with all 64 bits ignored every
    pair of 64-bit tags matches. *)
Theorem rxr_match_tag_mask_laws (t u v ignore more : Z) :
  rxr_match_tag t ignore t <> 0 /\
  (rxr_match_tag t ignore u <> 0 -> rxr_match_tag u ignore t <> 0) /\
  (rxr_match_tag t ignore u <> 0 -> rxr_match_tag u ignore v <> 0 ->
   rxr_match_tag t ignore v <> 0) /\
  (rxr_match_tag t ignore u <> 0 ->
   rxr_match_tag t (Z.lor ignore more) u <> 0) /\
  (rxr_match_tag t 0 u <> 0 <-> t = u) /\
  (0 <= t < 2 ^ 64 -> 0 <= u < 2 ^ 64 ->
   rxr_match_tag t (2 ^ 64 - 1) u <> 0).
Proof.
  unfold rxr_match_tag. rewrite !of_bool_nonzero, !Z.eqb_eq.
  repeat split.
  - congruence.
  - congruence.
  - intros H. rewrite !Z.lor_assoc, H. reflexivity.
  - rewrite !Z.lor_0_r. trivial.
  - rewrite !Z.lor_0_r. trivial.
  - intros Ht Hu. apply Z.bits_inj'. intros n Hn. rewrite !Z.lor_spec.
    change (2 ^ 64 - 1) with (Z.ones 64).
    destruct (Z_lt_le_dec n 64) as [Hlt|Hge].
    + rewrite Z.ones_spec_low by lia. rewrite !orb_true_r. reflexivity.
    + rewrite Z.ones_spec_high by lia. rewrite !orb_false_r.
      rewrite !(Z.bits_above_log2) ; try lia; try reflexivity.
      * destruct (Z.eq_dec u 0) as [->|]; [simpl; lia|].
        apply Z.lt_le_trans with 64; [|lia]. apply Z.log2_lt_pow2; lia.
      * destruct (Z.eq_dec t 0) as [->|]; [simpl; lia|].
        apply Z.lt_le_trans with 64; [|lia]. apply Z.log2_lt_pow2; lia.
Qed.

Lemma rxr_match_tag_mask_laws_witness :
  rxr_match_tag 0x1a 0x0f 0x12 <> 0 /\
  rxr_match_tag 0x12 (Z.lor 0x0f 0xf0) 0x1a <> 0.
Proof.
  destruct (rxr_match_tag_mask_laws 0x12 0x1a 0 0x0f 0xf0)
    as (_ & Hsym & _ & Hmore & _).
  split; [apply Hsym|apply Hmore]; vm_compute; discriminate.
Defined.

(** ** Resource-management flags *)

Lemma testbit_clear_bit (m k n : Z) :
  0 <= k < 64 -> 0 <= n ->
  Z.testbit (Z.land m (to_uint64 (Z.lnot (2 ^ k)))) n =
  Z.testbit m n && ((n <? 64) && negb (n =? k)).
Proof.
  intros Hk Hn. rewrite Z.land_spec. f_equal. unfold to_uint64.
  destruct (Z.ltb_spec n 64) as [Hlt|Hge].
  - rewrite Z.mod_pow2_bits_low by lia.
    rewrite Z.lnot_spec, Z.pow2_bits_eqb by lia.
    rewrite (Z.eqb_sym k n). reflexivity.
  - rewrite Z.mod_pow2_bits_high by lia. reflexivity.
Qed.

Lemma land_pow2_nonzero (m k : Z) :
  0 <= k -> (Z.land m (2 ^ k) <> 0 <-> Z.testbit m k = true).
Proof.
  intros Hk. split.
  - intros H. destruct (Z.testbit m k) eqn:Hb; [reflexivity|].
    exfalso. apply H. apply Z.bits_inj'. intros n Hn.
    rewrite Z.land_spec, Z.pow2_bits_eqb, Z.bits_0 by lia.
    destruct (Z.eqb_spec k n) as [<-|]; [rewrite Hb|]; apply andb_false_r ||
      reflexivity.
  - intros Hb H. apply (f_equal (fun x => Z.testbit x k)) in H.
    rewrite Z.land_spec, Z.pow2_bits_eqb, Z.bits_0, Hb, Z.eqb_refl in H by lia.
    discriminate.
Qed.

Lemma land_uint64 (m c : Z) :
  0 <= m < 2 ^ 64 -> 0 <= c -> 0 <= Z.land m c < 2 ^ 64.
Proof.
  intros Hm Hc. assert (0 <= Z.land m c) by (apply Z.land_nonneg; lia).
  split; [assumption|].
  destruct (Z.eq_dec (Z.land m c) 0) as [->|Hnz]; [lia|].
  destruct (Z.eq_dec m 0) as [->|Hmz]; [rewrite Z.land_0_l in Hnz; lia|].
  apply Z.log2_lt_pow2; [lia|].
  pose proof (Z.log2_land m c ltac:(lia) Hc).
  assert (Z.log2 m < 64) by (apply Z.log2_lt_pow2; lia). lia.
Qed.

Section RmProperties.

Import RxrRm.

Context {util_cq : Type}.
Variable ofi_cirque_isfull : util_cq -> bool.

(** X3: after [rxr_rm_rx_cq_check] the endpoint reports its receive
    resources full exactly when the completion queue is full, and what it
    reports for its transmit resources is unchanged; likewise for
    [rxr_rm_tx_cq_check] with the roles exchanged.  A flag word that fits
    64 bits still does afterwards. *)
Theorem rxr_rm_cq_check_flags (ep : rxr_ep) (cq : util_cq) :
  (is_rx_res_full (rxr_rm_rx_cq_check ofi_cirque_isfull ep cq) <> 0 <->
   ofi_cirque_isfull cq = true) /\
  is_tx_res_full (rxr_rm_rx_cq_check ofi_cirque_isfull ep cq) =
    is_tx_res_full ep /\
  (is_tx_res_full (rxr_rm_tx_cq_check ofi_cirque_isfull ep cq) <> 0 <->
   ofi_cirque_isfull cq = true) /\
  is_rx_res_full (rxr_rm_tx_cq_check ofi_cirque_isfull ep cq) =
    is_rx_res_full ep /\
  (0 <= ep_rm_full ep < 2 ^ 64 ->
   0 <= ep_rm_full (rxr_rm_rx_cq_check ofi_cirque_isfull ep cq) < 2 ^ 64 /\
   0 <= ep_rm_full (rxr_rm_tx_cq_check ofi_cirque_isfull ep cq) < 2 ^ 64).
Proof.
  unfold is_rx_res_full, is_tx_res_full, rxr_rm_rx_cq_check,
    rxr_rm_tx_cq_check.
  change RXR_RM_RX_CQ_FULL with (2 ^ 1).
  change RXR_RM_TX_CQ_FULL with (2 ^ 0).
  rewrite !land_pow2_nonzero by lia.
  destruct (ofi_cirque_isfull cq); simpl ep_rm_full.
  - repeat split; intros; try reflexivity.
    + rewrite Z.lor_spec, Z.pow2_bits_eqb by lia. apply orb_true_r.
    + apply Z.bits_inj'. intros n Hn.
      rewrite !Z.land_spec, Z.lor_spec, !Z.pow2_bits_eqb by lia.
      destruct (Z.eqb_spec 1 n), (Z.eqb_spec 0 n); try lia;
        rewrite ?orb_false_r, ?andb_false_r; reflexivity.
    + rewrite Z.lor_spec, Z.pow2_bits_eqb by lia. apply orb_true_r.
    + apply Z.bits_inj'. intros n Hn.
      rewrite !Z.land_spec, Z.lor_spec, !Z.pow2_bits_eqb by lia.
      destruct (Z.eqb_spec 1 n), (Z.eqb_spec 0 n); try lia;
        rewrite ?orb_false_r, ?andb_false_r; reflexivity.
    + rewrite <- (lor_uint64 (ep_rm_full ep) (2 ^ 1)) by lia.
      unfold to_uint64. apply Z.mod_pos_bound. lia.
    + rewrite <- (lor_uint64 (ep_rm_full ep) (2 ^ 1)) by lia.
      unfold to_uint64. apply Z.mod_pos_bound. lia.
    + rewrite <- (lor_uint64 (ep_rm_full ep) (2 ^ 0)) by lia.
      unfold to_uint64. apply Z.mod_pos_bound. lia.
    + rewrite <- (lor_uint64 (ep_rm_full ep) (2 ^ 0)) by lia.
      unfold to_uint64. apply Z.mod_pos_bound. lia.
  - repeat split; intros; try discriminate.
    + rewrite testbit_clear_bit in H by lia.
      rewrite Z.eqb_refl, !andb_false_r in H. discriminate.
    + apply Z.bits_inj'. intros n Hn.
      rewrite Z.land_spec, testbit_clear_bit, Z.land_spec, !Z.pow2_bits_eqb by lia.
      destruct (Z.eqb_spec 0 n) as [<-|]; rewrite ?andb_false_r; try reflexivity.
      simpl. rewrite !andb_true_r. reflexivity.
    + rewrite testbit_clear_bit in H by lia.
      rewrite Z.eqb_refl, !andb_false_r in H. discriminate.
    + apply Z.bits_inj'. intros n Hn.
      rewrite Z.land_spec, testbit_clear_bit, Z.land_spec, !Z.pow2_bits_eqb by lia.
      destruct (Z.eqb_spec 1 n) as [<-|]; rewrite ?andb_false_r; try reflexivity.
      simpl. rewrite !andb_true_r. reflexivity.
    + apply land_uint64; [lia|]. unfold to_uint64. apply Z.mod_pos_bound. lia.
    + apply land_uint64; [lia|]. unfold to_uint64. apply Z.mod_pos_bound. lia.
    + apply land_uint64; [lia|]. unfold to_uint64. apply Z.mod_pos_bound. lia.
    + apply land_uint64; [lia|]. unfold to_uint64. apply Z.mod_pos_bound. lia.
Qed.

End RmProperties.

(** ** RNR backoff: cap and monotonicity *)

Lemma timeout_deadline (env : rxr_env) (ep : rxr_ep) (peer : rxr_peer)
  (ts : Z) :
  0 <= rnr_timeout_exp peer <= 30 ->
  0 <= timeout_interval peer ->
  timeout_interval peer * 2 ^ rnr_timeout_exp peer <= INT_MAX ->
  rxr_peer_timeout_expired env ep peer ts =
  Some (to_uint64
          (rnr_ts peer +
           Z.min (env_max_timeout env)
                 (timeout_interval peer * 2 ^ rnr_timeout_exp peer)) <=? ts).
Proof.
  intros Hexp Hint Hprod. unfold rxr_peer_timeout_expired.
  rewrite int_shl_one by exact Hexp. simpl.
  assert (0 <= timeout_interval peer * 2 ^ rnr_timeout_exp peer)
    by (apply Z.mul_nonneg_nonneg; [lia|apply Z.pow_nonneg; lia]).
  rewrite int_mul_exact by (unfold INT_MIN; lia). simpl.
  rewrite to_uint64_add_r, MIN_min. reflexivity.
Qed.

(** X4: the backoff never lasts longer than [max_timeout]: for a
    non-negative [max_timeout], a non-negative interval and an exponent
    between 0 and 30 whose power of two times the interval fits an [int],
    and for [0 <= rnr_ts] with [rnr_ts + max_timeout < 2^64], the timeout
    has expired at every [ts >= rnr_ts + max_timeout]. *)
Theorem rxr_peer_timeout_capped (env : rxr_env) (ep : rxr_ep)
  (peer : rxr_peer) (ts : Z) :
  0 <= rnr_timeout_exp peer <= 30 ->
  0 <= timeout_interval peer ->
  timeout_interval peer * 2 ^ rnr_timeout_exp peer <= INT_MAX ->
  0 <= env_max_timeout env ->
  0 <= rnr_ts peer ->
  rnr_ts peer + env_max_timeout env < 2 ^ 64 ->
  rnr_ts peer + env_max_timeout env <= ts ->
  rxr_peer_timeout_expired env ep peer ts = Some true.
Proof.
  intros Hexp Hint Hprod Hmax Hts Hsum Hle.
  rewrite timeout_deadline by assumption. f_equal.
  assert (0 <= timeout_interval peer * 2 ^ rnr_timeout_exp peer)
    by (apply Z.mul_nonneg_nonneg; [lia|apply Z.pow_nonneg; lia]).
  rewrite to_uint64_small by lia. apply Z.leb_le. lia.
Qed.

Lemma rxr_peer_timeout_capped_witness :
  rxr_peer_timeout_expired default_env (idle_ep [] [])
    (backoff_peer 5000 120 24) 1005000 = Some true.
Proof.
  apply rxr_peer_timeout_capped;
    cbn; unfold INT_MAX, RXR_DEF_RNR_MAX_TIMEOUT; lia.
Defined.

(** X5: a peer that has backed off less is never held longer.  For a
    non-negative [max_timeout], two peers with the same [rnr_ts], where
    [0 <= rnr_ts] and [rnr_ts + max_timeout < 2^64], the same non-negative
    interval and exponents [0 <= e_p <= e_q <= 30] such that the interval
    times [2^e_q] fits an [int]: if the timeout of the peer with [e_q] has
    expired at [ts], then the timeout of the peer with [e_p] has expired at
    every [ts' >= ts]. *)
Theorem rxr_peer_timeout_expired_monotone (env : rxr_env) (ep : rxr_ep)
  (p q : rxr_peer) (ts ts' : Z) :
  rnr_ts p = rnr_ts q ->
  timeout_interval p = timeout_interval q ->
  0 <= rnr_timeout_exp p <= rnr_timeout_exp q ->
  rnr_timeout_exp q <= 30 ->
  0 <= timeout_interval q ->
  timeout_interval q * 2 ^ rnr_timeout_exp q <= INT_MAX ->
  0 <= env_max_timeout env ->
  0 <= rnr_ts q ->
  rnr_ts q + env_max_timeout env < 2 ^ 64 ->
  ts <= ts' ->
  rxr_peer_timeout_expired env ep q ts = Some true ->
  rxr_peer_timeout_expired env ep p ts' = Some true.
Proof.
  intros Hts Hint Hexp Hq30 Hi Hprod Hmax Hrnr Hsum Hle.
  assert (Hpow : 2 ^ rnr_timeout_exp p <= 2 ^ rnr_timeout_exp q)
    by (apply Z.pow_le_mono_r; lia).
  assert (Hpp : 0 < 2 ^ rnr_timeout_exp p) by (apply Z.pow_pos_nonneg; lia).
  assert (Hmono : timeout_interval q * 2 ^ rnr_timeout_exp p <=
                  timeout_interval q * 2 ^ rnr_timeout_exp q)
    by (apply Z.mul_le_mono_nonneg_l; lia).
  assert (0 <= timeout_interval q * 2 ^ rnr_timeout_exp p)
    by (apply Z.mul_nonneg_nonneg; lia).
  rewrite !timeout_deadline by (rewrite ?Hint; lia).
  rewrite Hts, Hint. intros [= Hq]. f_equal.
  rewrite to_uint64_small in Hq by lia. rewrite to_uint64_small by lia.
  apply Z.leb_le in Hq. apply Z.leb_le. lia.
Qed.

Lemma rxr_peer_timeout_expired_monotone_witness :
  rxr_peer_timeout_expired default_env (idle_ep [] [])
    (backoff_peer 5000 100 1) 5900 = Some true.
Proof.
  apply (rxr_peer_timeout_expired_monotone default_env (idle_ep [] [])
           (backoff_peer 5000 100 1) (backoff_peer 5000 100 3) 5800 5900);
    try reflexivity; cbn; unfold INT_MAX, RXR_DEF_RNR_MAX_TIMEOUT; lia.
Defined.

(** ** Poisoning of a region *)

Section PoisonProperties.

Context {defs : fabric_defs}.

(** X6: [rxr_poison_mem_region] overwrites exactly the first [size / 4]
    words of the region with [rxr_poison_value]: the words behind them,
    and so the last [size mod 4] bytes of a region whose size is no
    multiple of four, keep their contents, and the region keeps its length;
    a [size] of less than four bytes changes nothing.  A region shorter than
    [size / 4] words has no defined result. *)
Theorem rxr_poison_mem_region_prefix (ptr : list Z) (size : Z) :
  0 <= size ->
  size / 4 <= INT_MAX ->
  let n := Z.to_nat (size / 4) in
  ((n <= length ptr)%nat ->
   exists ptr',
     rxr_poison_mem_region ptr size = Some ptr' /\
     ptr' = replicate n rxr_poison_value ++ drop n ptr /\
     length ptr' = length ptr /\
     (forall i, (i < n)%nat -> ptr' !! i = Some rxr_poison_value) /\
     (forall i, (n <= i)%nat -> ptr' !! i = ptr !! i) /\
     (size < 4 -> ptr' = ptr)) /\
  ((length ptr < n)%nat -> rxr_poison_mem_region ptr size = None).
Proof.
  intros Hsize Hmax n. unfold rxr_poison_mem_region, sizeof_uint32.
  assert (Hn : 0 <= size / 4) by (apply Z.div_pos; lia).
  destruct (Z.leb_spec 0 size); [|lia].
  destruct (Z.leb_spec (size / 4) INT_MAX); [|lia]. simpl.
  split.
  - intros Hlen.
    destruct (Z.leb_spec (size / 4) (Z.of_nat (length ptr))); [|lia].
    assert (Hloop : rxr_poison_loop n 0 ptr =
                    replicate n rxr_poison_value ++ drop n ptr)
      by (apply (rxr_poison_loop_app n [] ptr Hlen)).
    fold n. rewrite Hloop.
    eexists. split; [reflexivity|].
    split; [reflexivity|]. split; [|split; [|split]].
    + rewrite length_app, length_replicate, length_drop. lia.
    + intros i Hi. rewrite lookup_app_l by (rewrite length_replicate; lia).
      apply lookup_replicate_2. exact Hi.
    + intros i Hi. rewrite lookup_app_r by (rewrite length_replicate; lia).
      rewrite length_replicate, lookup_drop. f_equal. lia.
    + intros Hsmall. assert (n = 0%nat) as ->.
      { unfold n. rewrite Z.div_small by lia. reflexivity. }
      reflexivity.
  - intros Hlen.
    destruct (Z.leb_spec (size / 4) (Z.of_nat (length ptr))); [lia|].
    reflexivity.
Qed.

End PoisonProperties.

Lemma rxr_poison_mem_region_prefix_witness :
  rxr_poison_mem_region (defs := sample_defs) [1; 2; 3; 4] 10 =
  Some [0xdeadbeef; 0xdeadbeef; 3; 4].
Proof.
  destruct (rxr_poison_mem_region_prefix (defs := sample_defs) [1; 2; 3; 4] 10)
    as [H _]; [lia|vm_compute; discriminate|].
  destruct H as (ptr' & Hrun & Hptr & _); [vm_compute; lia|].
  rewrite Hrun, Hptr. reflexivity.
Defined.

(** ** Peer initialisation: what it leaves alone *)

(** The endpoint a successful [rxr_ep_peer_init] leaves. *)
Lemma rxr_ep_peer_init_inv (env : rxr_env) (ep ep' : rxr_ep) (peer : nat) :
  rxr_ep_peer_init env ep peer = Some ep' ->
  exists p rb fs,
    ep_peer ep !! peer = Some p /\ rx_init p = false /\
    ep_robuf_fs ep = rb :: fs /\
    ep' = set_ep_peer (fun _ => <[peer := initialised_peer env rb p]> (ep_peer ep))
            (set_ep_peer_list (fun _ => ep_peer_list ep ++ [peer])
               (set_ep_robuf_fs (fun _ => fs) ep)).
Proof.
  unfold rxr_ep_peer_init. intros H.
  destruct (ep_peer ep !! peer) as [p|] eqn:Hp; [|discriminate]. simpl in H.
  destruct (rx_init p) eqn:Hrx; [discriminate|].
  destruct (ep_robuf_fs ep) as [|rb fs] eqn:Hfs; [discriminate|]. simpl in H.
  injection H as <-. exists p, rb, fs. repeat split. exact Hrx.
Qed.

Lemma initialised_peer_fields (env : rxr_env) (rb : rxr_robuf) (p : rxr_peer) :
  rx_init (initialised_peer env rb p) = true /\
  tx_pending (initialised_peer env rb p) = tx_pending p /\
  next_msg_id (initialised_peer env rb p) = next_msg_id p /\
  state (initialised_peer env rb p) = state p.
Proof. unfold initialised_peer. simpl. destruct (tx_init p); repeat split. Qed.

(** X8: a successful [rxr_ep_peer_init] takes one window from the free
    stack and appends the peer to [peer_list]; it leaves every other peer,
    the pending counts of this peer and of the endpoint, and the state of
    the connection handshake of this peer as they were, so it keeps
    [ep.tx_pending] equal to the sum of the per-peer counters if it was. *)
Theorem rxr_ep_peer_init_frame (env : rxr_env) (ep ep' : rxr_ep) (peer : nat) :
  rxr_ep_peer_init env ep peer = Some ep' ->
  length (ep_robuf_fs ep) = S (length (ep_robuf_fs ep')) /\
  ep_peer_list ep' = ep_peer_list ep ++ [peer] /\
  length (ep_peer ep') = length (ep_peer ep) /\
  (forall other, other <> peer ->
                 ep_peer ep' !! other = ep_peer ep !! other) /\
  (exists p p', ep_peer ep !! peer = Some p /\ ep_peer ep' !! peer = Some p' /\
                tx_pending p' = tx_pending p /\
                next_msg_id p' = next_msg_id p /\ state p' = state p) /\
  ep_tx_pending ep' = ep_tx_pending ep /\
  peers_tx_pending (ep_peer ep') = peers_tx_pending (ep_peer ep) /\
  (tx_pending_consistent ep -> tx_pending_consistent ep').
Proof.
  intros H. apply rxr_ep_peer_init_inv in H.
  destruct H as (p & rb & fs & Hp & Hrx & Hfs & ->).
  destruct (initialised_peer_fields env rb p) as (Hrx' & Htx & Hid & Hst).
  set (p' := initialised_peer env rb p) in *.
  pose proof (lookup_lt_Some _ _ _ Hp) as Hlt. simpl.
  assert (Hsum : peers_tx_pending (<[peer := p']> (ep_peer ep)) =
                 peers_tx_pending (ep_peer ep)).
  { clear -Hp Htx. revert peer Hp.
    induction (ep_peer ep) as [|q l IH]; intros [|i] Hi; simpl in *;
      try discriminate.
    - injection Hi as ->. unfold peers_tx_pending. simpl. lia.
    - unfold peers_tx_pending in *. simpl. rewrite (IH i Hi). reflexivity. }
  rewrite Hfs. repeat split.
  - apply length_insert.
  - intros other Hne. apply list_lookup_insert_ne. congruence.
  - exists p, p'. rewrite list_lookup_insert_eq by exact Hlt. auto.
  - exact Hsum.
  - unfold tx_pending_consistent. simpl. rewrite Hsum. trivial.
Qed.

Lemma rxr_ep_peer_init_frame_witness :
  exists ep',
    rxr_ep_peer_init default_env
      (idle_ep [fresh_peer; fresh_peer]
         [{| exp_msg_id := 0; win_size := 0; pending := [] |}]) 1 = Some ep' /\
    ep_peer_list ep' = [1%nat] /\
    ep_peer ep' !! 0%nat = Some fresh_peer.
Proof.
  eexists. split; [reflexivity|].
  match goal with
  | |- context [ep_peer_list ?e] =>
      destruct (rxr_ep_peer_init_frame default_env
                  (idle_ep [fresh_peer; fresh_peer]
                     [{| exp_msg_id := 0; win_size := 0; pending := [] |}])
                  e 1 eq_refl) as (_ & Hl & _ & Ho & _)
  end.
  split; [exact Hl|]. rewrite (Ho 0%nat) by lia. reflexivity.
Defined.

(** ** Outstanding-send counters: undoing and wrap-around *)

Lemma to_size_t_succ_pred (n : Z) :
  0 <= n < 2 ^ 64 ->
  to_size_t (to_size_t (n + 1) - 1) = n /\
  to_size_t (to_size_t (n - 1) + 1) = n.
Proof.
  intros Hn. unfold to_size_t. split.
  - rewrite Zminus_mod_idemp_l. replace (n + 1 - 1) with n by lia.
    apply Z.mod_small. exact Hn.
  - rewrite Zplus_mod_idemp_l. replace (n - 1 + 1) with n by lia.
    apply Z.mod_small. exact Hn.
Qed.

Lemma set_tx_pending_same (p : rxr_peer) :
  set_tx_pending (fun _ => tx_pending p) p = p.
Proof. destruct p. reflexivity. Qed.

(** X9: [rxr_ep_dec_tx_pending] undoes [rxr_ep_inc_tx_pending] and the
    other way round, also across the wrap at [2^64]: after the two calls
    for the same peer the endpoint counter and all peers are as before, and
    in a build without [ENABLE_DEBUG] so is the whole endpoint. *)
Theorem rxr_ep_inc_dec_tx_pending_undo (bld : build) (ep : rxr_ep)
  (peer : nat) (p : rxr_peer) (failed : Z) :
  ep_peer ep !! peer = Some p ->
  0 <= ep_tx_pending ep < 2 ^ 64 ->
  0 <= tx_pending p < 2 ^ 64 ->
  (exists ep1 ep2,
     rxr_ep_inc_tx_pending bld ep peer = Some ep1 /\
     rxr_ep_dec_tx_pending bld ep1 peer failed = Some ep2 /\
     ep_tx_pending ep2 = ep_tx_pending ep /\
     ep_peer ep2 = ep_peer ep /\
     (ENABLE_DEBUG bld = false -> ep2 = ep)) /\
  (exists ep1 ep2,
     rxr_ep_dec_tx_pending bld ep peer failed = Some ep1 /\
     rxr_ep_inc_tx_pending bld ep1 peer = Some ep2 /\
     ep_tx_pending ep2 = ep_tx_pending ep /\
     ep_peer ep2 = ep_peer ep /\
     (ENABLE_DEBUG bld = false -> ep2 = ep)).
Proof.
  intros Hp Hep Hpeer.
  pose proof (lookup_lt_Some _ _ _ Hp) as Hlt.
  destruct (to_size_t_succ_pred _ Hep) as [He1 He2].
  destruct (to_size_t_succ_pred _ Hpeer) as [Hp1 Hp2].
  assert (Hid : <[peer := p]> (ep_peer ep) = ep_peer ep)
    by (apply list_insert_id; exact Hp).
  assert (Hset : forall a b,
            set_tx_pending (fun n => to_size_t (n + b))
              (set_tx_pending (fun n => to_size_t (n + a)) p) =
            set_tx_pending
              (fun _ => to_size_t (to_size_t (tx_pending p + a) + b)) p)
    by reflexivity.
  destruct bld as [dbg poison]. simpl ENABLE_DEBUG.
  destruct ep as [pe ? ? ? ? ? ? ? ? ? ? sends ? fsc ? txp]; simpl in *.
  unfold rxr_ep_inc_tx_pending, rxr_ep_dec_tx_pending; simpl.
  rewrite Hp; simpl.
  split.
  - destruct dbg, (negb (failed =? 0)) eqn:Hf; simpl;
      (eexists _, _; split; [reflexivity|]); simpl;
      rewrite list_lookup_insert_eq by exact Hlt; simpl;
      (split; [reflexivity|]);
      cbv [set_ep_peer set_ep_tx_pending set_ep_sends
           set_ep_failed_send_comps set_tx_pending
           ep_peer ep_robuf_fs ep_rm_full ep_msg_order
           ep_core_msg_order ep_tx_entry_pool ep_rx_entry_pool
           ep_peer_backoff_list ep_peer_list ep_rx_entry_list
           ep_tx_entry_list ep_sends ep_send_comps ep_failed_send_comps
           ep_recv_comps ep_tx_pending
           tx_pending tx_init rx_init is_local shm_fiaddr robuf next_msg_id
           state rnr_state tx_credits rx_credits rnr_ts rnr_queued_pkt_cnt
           timeout_interval rnr_timeout_exp] in *;
      rewrite list_insert_insert_eq, He1;
      destruct p as [? ? ? ? ? ? ? ? txpp ? ? ? ? ? ?];
      rewrite Hp1, (list_insert_id _ _ _ Hp);
      repeat split; try discriminate; reflexivity.
  - destruct dbg, (negb (failed =? 0)) eqn:Hf; simpl;
      (eexists _, _; split; [reflexivity|]); simpl;
      rewrite list_lookup_insert_eq by exact Hlt; simpl;
      (split; [reflexivity|]);
      cbv [set_ep_peer set_ep_tx_pending set_ep_sends
           set_ep_failed_send_comps set_tx_pending
           ep_peer ep_robuf_fs ep_rm_full ep_msg_order
           ep_core_msg_order ep_tx_entry_pool ep_rx_entry_pool
           ep_peer_backoff_list ep_peer_list ep_rx_entry_list
           ep_tx_entry_list ep_sends ep_send_comps ep_failed_send_comps
           ep_recv_comps ep_tx_pending
           tx_pending tx_init rx_init is_local shm_fiaddr robuf next_msg_id
           state rnr_state tx_credits rx_credits rnr_ts rnr_queued_pkt_cnt
           timeout_interval rnr_timeout_exp] in *;
      rewrite list_insert_insert_eq, He2;
      destruct p as [? ? ? ? ? ? ? ? txpp ? ? ? ? ? ?];
      rewrite Hp2, (list_insert_id _ _ _ Hp);
      repeat split; try discriminate; reflexivity.
Qed.

Lemma rxr_ep_inc_dec_tx_pending_undo_witness :
  exists ep1 ep2,
    rxr_ep_dec_tx_pending debug_build (counting_ep 0 [0; 0]) 1%nat 0 = Some ep1 /\
    rxr_ep_inc_tx_pending debug_build ep1 1%nat = Some ep2 /\
    ep_tx_pending ep2 = 0 /\
    ep_peer ep2 = ep_peer (counting_ep 0 [0; 0]).
Proof.
  destruct (rxr_ep_inc_dec_tx_pending_undo debug_build (counting_ep 0 [0; 0])
              1%nat (set_tx_pending (fun _ => 0) fresh_peer) 0)
    as [_ (ep1 & ep2 & H1 & H2 & H3 & H4 & _)].
  - reflexivity.
  - cbn. lia.
  - cbn. lia.
  - exists ep1, ep2. repeat split; assumption.
Defined.

(** One call of either counter function: it runs exactly when its peer is
    in the table, it keeps the table's length and the two counters
    congruent, and the counters it writes are [size_t] values. *)
Lemma run_call_congruent (bld : build) (ep ep' : rxr_ep)
  (c : tx_pending_call) :
  run_call bld ep c = Some ep' ->
  length (ep_peer ep') = length (ep_peer ep) /\
  0 <= ep_tx_pending ep' < 2 ^ 64 /\
  (tx_pending_congruent ep -> tx_pending_congruent ep').
Proof.
  assert (Hcong : forall e s t d,
            to_size_t e = to_size_t s ->
            to_size_t (to_size_t (e + d)) =
            to_size_t (s - t + to_size_t (t + d))).
  { intros e s t d H. rewrite to_size_t_idemp.
    rewrite (to_size_t_add_cong _ _ d H). unfold to_size_t.
    rewrite Zplus_mod_idemp_r. f_equal. lia. }
  assert (Hrange : forall a, 0 <= to_size_t a < 2 ^ 64)
    by (intros a; unfold to_size_t; apply Z.mod_pos_bound; lia).
  unfold tx_pending_congruent.
  destruct bld as [dbg poison].
  destruct c as [peer|peer failed]; simpl;
    [unfold rxr_ep_inc_tx_pending | unfold rxr_ep_dec_tx_pending];
    destruct (ep_peer ep !! peer) as [p|] eqn:Hp; simpl; try discriminate;
    intros [= <-].
  - destruct dbg; simpl; rewrite length_insert;
      (split; [reflexivity|]); (split; [apply Hrange|]); intros H;
      change (set_tx_pending (fun n => to_size_t (n + 1)) p)
        with (set_tx_pending (fun _ => to_size_t (tx_pending p + 1)) p);
      rewrite (peers_tx_pending_insert _ _ _ _ Hp); apply Hcong; exact H.
  - destruct (dbg && negb (failed =? 0)); simpl; rewrite length_insert;
      (split; [reflexivity|]); (split; [apply Hrange|]); intros H;
      change (set_tx_pending (fun n => to_size_t (n - 1)) p)
        with (set_tx_pending (fun _ => to_size_t (tx_pending p + -1)) p);
      rewrite (peers_tx_pending_insert _ _ _ _ Hp);
      apply (Hcong _ _ _ (-1)); exact H.
Qed.

(** X10: any sequence of calls of [rxr_ep_inc_tx_pending] and
    [rxr_ep_dec_tx_pending], in any order and across wrap-arounds, runs
    exactly when every call names a peer of the table, and then the
    endpoint counter stays congruent modulo [2^64] to the sum of the
    per-peer counters if it was so before. *)
Theorem tx_pending_calls_congruent (bld : build) (cs : list tx_pending_call) :
  forall ep : rxr_ep,
    tx_pending_congruent ep ->
    (is_Some (run_calls bld ep cs) <->
     Forall (fun c => (call_peer c < length (ep_peer ep))%nat) cs) /\
    (forall ep', run_calls bld ep cs = Some ep' ->
       tx_pending_congruent ep' /\
       length (ep_peer ep') = length (ep_peer ep)).
Proof.
  induction cs as [|c cs IH]; intros ep Hep; simpl.
  - split.
    + split; [intros _; constructor | intros _; eexists; reflexivity].
    + intros ep' [= <-]. split; [exact Hep | reflexivity].
  - destruct (run_call bld ep c) as [ep1|] eqn:Hc.
    + destruct (run_call_congruent _ _ _ _ Hc) as (Hlen & _ & Hcong).
      destruct (IH ep1 (Hcong Hep)) as [Hsome Hrun].
      assert (Hpeer : (call_peer c < length (ep_peer ep))%nat).
      { destruct c as [peer|peer failed]; simpl in *;
          [unfold rxr_ep_inc_tx_pending in Hc
          |unfold rxr_ep_dec_tx_pending in Hc];
          destruct (ep_peer ep !! peer) eqn:Hp; try discriminate;
          eapply lookup_lt_Some; exact Hp. }
      split.
      * rewrite Hsome, Forall_cons, Hlen. tauto.
      * intros ep' Hrun'. destruct (Hrun ep' Hrun') as [H1 H2].
        split; [exact H1 | congruence].
    + split.
      * split; [intros [? ?]; discriminate|].
        intros Hall. apply Forall_cons in Hall as [Hpeer _].
        apply lookup_lt_is_Some_2 in Hpeer as [p Hp].
        destruct c as [peer|peer failed]; simpl in *;
          [unfold rxr_ep_inc_tx_pending in Hc
          |unfold rxr_ep_dec_tx_pending in Hc];
          rewrite Hp in Hc; discriminate.
      * intros ep' ?. discriminate.
Qed.

Lemma tx_pending_calls_congruent_witness :
  tx_pending_congruent (counting_ep 0 [0; 0]) /\
  forall ep',
    run_calls release_build (counting_ep 0 [0; 0])
      [dec_call 0 0; inc_call 1; inc_call 1] = Some ep' ->
    tx_pending_congruent ep' /\ length (ep_peer ep') = 2%nat.
Proof.
  assert (H : tx_pending_congruent (counting_ep 0 [0; 0])) by reflexivity.
  split; [exact H|].
  exact (proj2 (tx_pending_calls_congruent release_build
                  [dec_call 0 0; inc_call 1; inc_call 1] _ H)).
Defined.

Section ReleaseFrame.

Context {defs : fabric_defs}.




End ReleaseFrame.


(** ** Further properties of the memory registration *)

Section RegistrationOutcome.

Import RxrDomain.

Context {defs : fabric_defs} {world : Type}.
Variable calloc : world -> bool * world.
Variable fi_mr_regattr :
  lower_domain -> fi_mr_attr -> Z -> world -> Z * Z * world.
Variable fi_mr_key : Z -> Z.
Variable ofi_mr_map_insert : fi_mr_attr -> Z -> world -> Z * Z * world.
Variable ofi_mr_map_remove : Z -> world -> Z * world.
Variable fi_close : Z -> world -> Z * world.
Variable FI_KEY_NOTAVAIL : Z.
Variable efa_mr_cache_enable : Z.

Abbreviation mr_regattr :=
  (rxr_mr_regattr calloc fi_mr_regattr fi_mr_key ofi_mr_map_insert
     ofi_mr_map_remove fi_close FI_KEY_NOTAVAIL efa_mr_cache_enable).


(** X13: whatever access rights the caller asks for, [rxr_mr_regattr]
    hands the core provider and the registration map an attribute whose
    [access] is [FI_SEND | FI_RECV], and hands the shm provider the access
    the caller asked for: forcing these values on what the lower layers
    receive changes nothing, for any lower layers.  So when the shm
    provider is not called, with shm transfers disabled or for memory that
    is not system memory, the call behaves the same for every requested
    [access]. *)
Theorem rxr_mr_regattr_access (env : rxr_env) (attr : fi_mr_attr)
  (flags : Z) (w : world) (user_access access1 access2 : Z) :
  (access attr = Some user_access ->
   mr_regattr env attr flags w =
   rxr_mr_regattr calloc
     (given_access (Z.lor FI_SEND FI_RECV) user_access fi_mr_regattr)
     fi_mr_key
     (map_given_access (Z.lor FI_SEND FI_RECV) ofi_mr_map_insert)
     ofi_mr_map_remove fi_close FI_KEY_NOTAVAIL efa_mr_cache_enable
     env attr flags w) /\
  (env_enable_shm_transfer env = 0 \/ iface attr <> Some FI_HMEM_SYSTEM ->
   mr_regattr env (set_access access1 attr) flags w =
   mr_regattr env (set_access access2 attr) flags w).
Proof.
  split.
  - intros Hacc. unfold rxr_mr_regattr, given_access, map_given_access.
    destruct attr as [iov cnt acc off key [ctx|] [ifc|] [dev|]]; simpl in *;
      subst acc; simpl;
      destruct (calloc w) as [[|] w1]; simpl; try reflexivity.
    all: unfold set_access; simpl.
    all: destruct (fi_mr_regattr _ _ _ w1) as [[ret lower] w2]; simpl.
    all: destruct (negb (ret =? 0)); simpl; try reflexivity.
    all: destruct (is_cuda ifc); simpl; try reflexivity.
    all: destruct (fi_mr_key lower =? FI_KEY_NOTAVAIL); simpl;
      try reflexivity.
    all: unfold set_requested_key; simpl.
    all: destruct (ofi_mr_map_insert _ _ w2) as [[ret2 k] w3]; simpl.
    all: reflexivity.
  - intros Hshm. unfold rxr_mr_regattr.
    destruct attr as [iov cnt acc off key [ctx|] [ifc|] [dev|]]; simpl in *;
      destruct (calloc w) as [[|] w1]; simpl; try reflexivity.
    all: unfold set_access; simpl.
    all: destruct (fi_mr_regattr _ _ _ w1) as [[ret lower] w2]; simpl.
    all: destruct (negb (ret =? 0)); simpl; try reflexivity.
    all: destruct (is_cuda ifc); simpl; try reflexivity.
    all: destruct (fi_mr_key lower =? FI_KEY_NOTAVAIL); simpl;
      try reflexivity.
    all: unfold set_requested_key; simpl.
    all: destruct (ofi_mr_map_insert _ _ w2) as [[ret2 k] w3]; simpl.
    all: destruct (negb (ret2 =? 0) && _); simpl; try reflexivity.
    all: destruct Hshm as [-> | Hifc]; simpl; try reflexivity.
    all: destruct ifc; simpl; rewrite ?andb_false_r; try reflexivity.
    all: exfalso; apply Hifc; reflexivity.
Qed.

End RegistrationOutcome.


Lemma rxr_mr_regattr_access_witness :
  let logging :=
    fun (d : RxrDomain.lower_domain) (attr : RxrDomain.fi_mr_attr) (_ : Z)
        (w : list (RxrDomain.lower_domain * option Z)) =>
      (0, 100 + Z.of_nat (length w), (d, RxrDomain.access attr) :: w) in
  let insert :=
    fun (_ : RxrDomain.fi_mr_attr) (key : Z)
        (w : list (RxrDomain.lower_domain * option Z)) => (0, key, w) in
  let core_access :=
    Z.lor (FI_SEND (fabric_defs := sample_defs))
          (FI_RECV (fabric_defs := sample_defs)) in
  let system_attr := RxrDomain.rxr_mr_regv_attr [] 0 6 0 0 17 in
  let cuda_attr :=
    {| RxrDomain.mr_iov := Some []; RxrDomain.iov_count := Some 0;
       RxrDomain.access := None; RxrDomain.offset := Some 0;
       RxrDomain.requested_key := Some 0; RxrDomain.context := Some 17;
       RxrDomain.iface := Some RxrDomain.FI_HMEM_CUDA;
       RxrDomain.device_cuda := Some 1 |} in
  RxrDomain.rxr_mr_regattr (defs := sample_defs)
    (fun w => (true, w)) logging (fun lower_mr => lower_mr) insert
    (fun key w => (0, w)) (fun _ w => (0, w)) (2 ^ 64 - 1) 0
    default_env system_attr 0 [] =
  RxrDomain.rxr_mr_regattr (defs := sample_defs)
    (fun w => (true, w)) (given_access core_access 6 logging)
    (fun lower_mr => lower_mr) (map_given_access core_access insert)
    (fun key w => (0, w)) (fun _ w => (0, w)) (2 ^ 64 - 1) 0
    default_env system_attr 0 [] /\
  RxrDomain.rxr_mr_regattr (defs := sample_defs)
    (fun w => (true, w)) logging (fun lower_mr => lower_mr) insert
    (fun key w => (0, w)) (fun _ w => (0, w)) (2 ^ 64 - 1) 0
    default_env (RxrDomain.set_access 1 cuda_attr) 0 [] =
  RxrDomain.rxr_mr_regattr (defs := sample_defs)
    (fun w => (true, w)) logging (fun lower_mr => lower_mr) insert
    (fun key w => (0, w)) (fun _ w => (0, w)) (2 ^ 64 - 1) 0
    default_env (RxrDomain.set_access 3 cuda_attr) 0 [].
Proof.
  cbv zeta. split.
  - apply (proj1 (rxr_mr_regattr_access (defs := sample_defs)
                    _ _ _ _ _ _ _ _ _ _ _ _ 6 0 0)).
    reflexivity.
  - apply (proj2 (rxr_mr_regattr_access (defs := sample_defs)
                    _ _ _ _ _ _ _ _ _ _ _ _ 0 1 3)).
    right. simpl. discriminate.
Defined.

(** ** Further properties of the cancellation *)

Section CancelConservation.

Import Smr.

Context {defs : fabric_defs} {cq : Type}.
Variable smr_complete_rx : cq -> rx_completion -> Z * cq.

(** What [dlist_remove_first_match] returns, for every list. *)
Lemma dlist_remove_first_match_inv {A} (f : A -> bool) (l : list A) :
  match dlist_remove_first_match f l with
  | (Some e, l') =>
      exists pre post,
        l = pre ++ e :: post /\ l' = pre ++ post /\
        Forall (fun x => f x = false) pre /\ f e = true
  | (None, l') => l' = l /\ Forall (fun x => f x = false) l
  end.
Proof.
  induction l as [|x l IH]; simpl.
  - split; [reflexivity | constructor].
  - destruct (f x) eqn:Hx.
    + exists [], l. repeat split; [constructor | exact Hx].
    + destruct (dlist_remove_first_match f l) as [[e|] l'].
      * destruct IH as (pre & post & -> & -> & Hpre & He).
        exists (x :: pre), post. repeat split; [constructor; assumption | exact He].
      * destruct IH as [-> Hl]. split; [reflexivity | constructor; assumption].
Qed.

(** One queue: the value returned is never 0 when an entry was unlinked;
    the entry unlinked carries the context and went to the free stack. *)
Lemma smr_ep_cancel_recv_inv (ep : smr_ep) (q : queue_ref) (ctx : Z) :
  let '(ret, ep') := smr_ep_cancel_recv smr_complete_rx ep q ctx in
  (ret = 0 /\ ep' = ep /\
   Forall (fun x => Smr.context x <> ctx) (queue_of ep q)) \/
  (exists pre e post,
     queue_of ep q = pre ++ e :: post /\
     Forall (fun x => Smr.context x <> ctx) pre /\
     Smr.context e = ctx /\
     ret <> 0 /\
     (ret = 1 \/
      ret = fst (smr_complete_rx (rx_cq ep) (cancel_completion e))) /\
     ep' = match q with
           | trecv_queue_ref =>
               cancelled smr_complete_rx ep (pre ++ post) (recv_queue ep) e
           | recv_queue_ref =>
               cancelled smr_complete_rx ep (trecv_queue ep) (pre ++ post) e
           end).
Proof.
  unfold smr_ep_cancel_recv.
  pose proof (dlist_remove_first_match_inv
                (fun item => smr_match_recv_ctx item ctx) (queue_of ep q)) as H.
  destruct (dlist_remove_first_match _ (queue_of ep q)) as [[e|] l'].
  - destruct H as (pre & post & Hq & -> & Hpre & He).
    unfold smr_match_recv_ctx in He. apply Z.eqb_eq in He.
    assert (Hpre' : Forall (fun x => Smr.context x <> ctx) pre).
    { eapply Forall_impl; [exact Hpre|]. intros x Hx.
      unfold smr_match_recv_ctx in Hx. apply Z.eqb_neq. exact Hx. }
    unfold cancelled, cancel_completion.
    destruct q; simpl;
      destruct (smr_complete_rx (rx_cq ep) _) as [ret cq'] eqn:Hc; simpl;
      right; exists pre, e, post; rewrite Hc; simpl;
      (repeat split; try assumption; try reflexivity);
      destruct (Z.eqb_spec ret 0); simpl; try lia; auto.
  - destruct H as [-> Hl]. left. repeat split.
    eapply Forall_impl; [exact Hl|]. intros x Hx.
    unfold smr_match_recv_ctx in Hx. apply Z.eqb_neq. exact Hx.
Qed.

Lemma filter_other_context (ctx : Z) (pre post : list smr_rx_entry)
  (e : smr_rx_entry) :
  Smr.context e = ctx ->
  filter (fun x => Smr.context x <> ctx) (pre ++ e :: post) =
  filter (fun x => Smr.context x <> ctx) (pre ++ post).
Proof.
  intros He. rewrite !filter_app, filter_cons_False; [reflexivity|].
  intros H. apply H. exact He.
Qed.

(** X14: for every endpoint, context and behaviour of [smr_complete_rx],
    [smr_ep_cancel] never returns a positive value, loses and duplicates no
    receive entry (the two queues and the free stack together hold the same
    entries as before), keeps the entries posted with another context in
    their queue and in their order, and moves at most one entry, which
    carries the context, to the free stack; when it moves none, the
    endpoint is unchanged and the value returned is 0. *)
Theorem smr_ep_cancel_conserves (ep : smr_ep) (ctx : Z) :
  let '(ret, ep') := smr_ep_cancel smr_complete_rx ep ctx in
  ret <= 0 /\
  trecv_queue ep' ++ recv_queue ep' ++ recv_fs ep' ≡ₚ
    trecv_queue ep ++ recv_queue ep ++ recv_fs ep /\
  filter (fun x => Smr.context x <> ctx) (trecv_queue ep') =
    filter (fun x => Smr.context x <> ctx) (trecv_queue ep) /\
  filter (fun x => Smr.context x <> ctx) (recv_queue ep') =
    filter (fun x => Smr.context x <> ctx) (recv_queue ep) /\
  ((ret = 0 /\ ep' = ep /\
    Forall (fun x => Smr.context x <> ctx) (trecv_queue ep ++ recv_queue ep)) \/
   (exists e, Smr.context e = ctx /\
      recv_fs ep' = e :: recv_fs ep /\
      e ∈ trecv_queue ep ++ recv_queue ep /\
      (length (trecv_queue ep') + length (recv_queue ep') + 1 =
       length (trecv_queue ep) + length (recv_queue ep))%nat)).
Proof.
  unfold smr_ep_cancel.
  pose proof (smr_ep_cancel_recv_inv ep trecv_queue_ref ctx) as H1.
  destruct (smr_ep_cancel_recv smr_complete_rx ep trecv_queue_ref ctx)
    as [ret1 ep1].
  destruct H1 as [(-> & -> & Hnone1) | (pre & e & post & Hq & Hpre & He & Hret
                                        & _ & ->)].
  - simpl.
    pose proof (smr_ep_cancel_recv_inv ep recv_queue_ref ctx) as H2.
    destruct (smr_ep_cancel_recv smr_complete_rx ep recv_queue_ref ctx)
      as [ret2 ep2].
    destruct H2 as [(-> & -> & Hnone2) | (pre & e & post & Hq & Hpre & He
                                          & Hret & _ & ->)].
    + simpl. repeat split; try reflexivity.
      left. repeat split. apply Forall_app. split; assumption.
    + simpl in Hq. unfold cancelled; simpl. rewrite Hq.
      repeat split.
      * destruct (Z.ltb_spec ret2 0); lia.
      * apply Permutation_app_head. rewrite <- !app_assoc.
        apply Permutation_app_head. simpl. symmetry.
        apply Permutation_middle.
      * symmetry. apply filter_other_context. exact He.
      * right. exists e. repeat split; try assumption.
        -- apply elem_of_app. right. apply elem_of_app. right.
           constructor.
        -- rewrite !length_app. simpl. lia.
  - apply Z.eqb_neq in Hret. rewrite Hret. simpl in Hq |- *.
    unfold cancelled; simpl. rewrite Hq.
    repeat split.
    + destruct (Z.ltb_spec ret1 0); lia.
    + rewrite <- !app_assoc. apply Permutation_app_head. simpl.
      rewrite !(app_assoc post). symmetry. apply Permutation_middle.
    + symmetry. apply filter_other_context. exact He.
    + right. exists e. repeat split; try assumption.
      * apply elem_of_app. left. apply elem_of_app. right.
        constructor.
      * rewrite !length_app. simpl. lia.
Qed.

End CancelConservation.

(** ** The name and the options of an smr endpoint *)

Section SmrCtlProperties.

Import CString SmrCtl.

Context {defs : fabric_defs} {sdefs : smr_defs}.

Lemma is_nul_false (b : Byte.byte) : b <> Byte.x00 -> is_nul b = false.
Proof. intros Hb. destruct b; try reflexivity. exfalso. apply Hb. reflexivity. Qed.

Lemma c_str_holds_string (s rest : list Byte.byte) :
  string_bytes s -> c_str (holds_string s rest) = Some s.
Proof.
  unfold holds_string. intros Hs.
  induction Hs as [|b s Hb Hs IH]; simpl; [reflexivity|].
  rewrite (is_nul_false b Hb), IH. reflexivity.
Qed.

(** What [snprintf_s] stores for a string that fits an [int]. *)
Lemma snprintf_s_holds_string (buf s rest : list Byte.byte) (n : Z) :
  string_bytes s ->
  Z.of_nat (length s) <= INT_MAX ->
  0 < n <= Z.of_nat (length buf) ->
  snprintf_s buf n (holds_string s rest) =
  Some (Z.of_nat (length s),
        take (Z.to_nat (Z.min (Z.of_nat (length s)) (n - 1))) s
          ++ Byte.x00
          :: drop (S (Z.to_nat (Z.min (Z.of_nat (length s)) (n - 1)))) buf).
Proof.
  intros Hs Hlen Hn. unfold snprintf_s.
  rewrite (c_str_holds_string s rest Hs). simpl.
  destruct (Z.ltb_spec INT_MAX (Z.of_nat (length s))); [lia|].
  rewrite bool_decide_eq_true_2 by lia. reflexivity.
Qed.

(** X15: [smr_setopt] accepts exactly the option
    [FI_OPT_MIN_MULTI_RECV] of level [FI_OPT_ENDPOINT], whatever [optlen]
    is, and [smr_getopt] then reads back the value it was given, with
    length [sizeof(size_t)]; for every other level or option both return
    [-FI_ENOPROTOOPT], the endpoint is as before and nothing is stored
    through the pointers of [smr_getopt].  Neither touches the name. *)
Theorem smr_setopt_getopt (ep : smr_ep)
  (level optname optval optlen optval0 optlen0 : Z) :
  let '(ret, ep') := smr_setopt ep level optname optval optlen in
  name ep' = name ep /\
  (level = FI_OPT_ENDPOINT /\ optname = FI_OPT_MIN_MULTI_RECV ->
   ret = FI_SUCCESS /\
   smr_getopt ep' level optname optval0 optlen0 =
     (FI_SUCCESS, optval, sizeof_size_t)) /\
  (~ (level = FI_OPT_ENDPOINT /\ optname = FI_OPT_MIN_MULTI_RECV) ->
   ret = - FI_ENOPROTOOPT /\ ep' = ep /\
   smr_getopt ep level optname optval0 optlen0 =
     (- FI_ENOPROTOOPT, optval0, optlen0)).
Proof.
  unfold smr_setopt, smr_getopt.
  destruct (Z.eqb_spec level FI_OPT_ENDPOINT) as [Hl|Hl];
    destruct (Z.eqb_spec optname FI_OPT_MIN_MULTI_RECV) as [Ho|Ho]; simpl.
  all: repeat split; try tauto; try (intros [? ?]; contradiction).
Qed.

(** X16: [smr_setname] stores a copy of the string its argument holds, up
    to the first NUL and whatever [addrlen] is; [smr_getname], given room
    for the string and its NUL, then returns 0, stores the string and
    reports its length plus one.  When [strdup] gets no memory, the call
    returns [-FI_ENOMEM] and the endpoint keeps its name. *)
Theorem smr_setname_getname (ep : smr_ep) (s rest : list Byte.byte)
  (addrlen : Z) :
  string_bytes s ->
  Z.of_nat (length s) < INT_MAX ->
  smr_setname ep (holds_string s rest) addrlen false =
    Some (- FI_ENOMEM, ep) /\
  exists ep',
    smr_setname ep (holds_string s rest) addrlen true = Some (0, ep') /\
    name ep' = Some (holds_string s []) /\
    min_multi_recv_size ep' = min_multi_recv_size ep /\
    forall (buf : list Byte.byte) (n : Z),
      Z.of_nat (length s) < n <= Z.of_nat (length buf) ->
      smr_getname ep' (Some buf) n =
        Some (0, Some (holds_string s (drop (S (length s)) buf)),
              Z.of_nat (length s) + 1).
Proof.
  intros Hs Hlen. unfold smr_setname, strdup.
  rewrite (c_str_holds_string s rest Hs). simpl.
  split; [reflexivity|].
  eexists. split; [reflexivity|]. simpl.
  split; [reflexivity|]. split; [reflexivity|].
  intros buf n Hn. unfold smr_getname, strlen. simpl.
  change (s ++ [Byte.x00]) with (holds_string s []).
  destruct (Z.eqb_spec n 0) as [?|_]; [lia|].
  rewrite (snprintf_s_holds_string buf s [] n Hs) by lia. simpl.
  rewrite (c_str_holds_string s [] Hs). simpl.
  assert (Hmax : INT_MAX < 2 ^ 64) by (unfold INT_MAX; lia).
  rewrite (to_size_t_small (Z.of_nat (length s))) by lia.
  rewrite (to_size_t_small (Z.of_nat (length s) + 1)) by lia.
  rewrite (to_size_t_small (Z.of_nat (length s) + 1 - 1)) by lia.
  destruct (Z.leb_spec n (Z.of_nat (length s))) as [?|_]; [lia|]. simpl.
  replace (Z.to_nat (Z.min (Z.of_nat (length s)) (n - 1))) with (length s)
    by lia.
  rewrite firstn_all.
  replace (Z.to_nat (Z.of_nat (length s) + 1 - 1)) with (length s) by lia.
  rewrite bool_decide_eq_true_2.
  - rewrite insert_app_r_alt by lia. rewrite Nat.sub_diag. reflexivity.
  - rewrite length_app. simpl. lia.
Qed.

(** X17: an endpoint without a name has none to give:
    [-FI_EADDRNOTAVAIL], and nothing is stored.  For an endpoint with a
    name, a call without a buffer, with length 0 or with a length that
    leaves no room for the NUL returns [-FI_ETOOSMALL] and always reports
    the length the name needs, NUL included; a buffer of [n > 0] bytes then
    holds the first [n - 1] bytes of the name, terminated by a NUL. *)
Theorem smr_getname_too_small (ep : smr_ep) (s rest : list Byte.byte) :
  string_bytes s ->
  Z.of_nat (length s) < INT_MAX ->
  FI_ETOOSMALL <> 0 ->
  name ep = Some (holds_string s rest) ->
  (forall addr n,
     smr_getname {| name := None;
                    min_multi_recv_size := min_multi_recv_size ep |} addr n =
       Some (- FI_EADDRNOTAVAIL, addr, n)) /\
  (forall n,
     smr_getname ep None n =
       Some (- FI_ETOOSMALL, None, Z.of_nat (length s) + 1)) /\
  (forall buf,
     smr_getname ep (Some buf) 0 =
       Some (- FI_ETOOSMALL, Some buf, Z.of_nat (length s) + 1)) /\
  (forall buf n,
     0 < n <= Z.of_nat (length s) -> n <= Z.of_nat (length buf) ->
     smr_getname ep (Some buf) n =
       Some (- FI_ETOOSMALL,
             Some (holds_string (take (Z.to_nat (n - 1)) s)
                     (drop (Z.to_nat n) buf)),
             Z.of_nat (length s) + 1)).
Proof.
  intros Hs Hlen Hsmall Hname.
  assert (Hmax : INT_MAX < 2 ^ 64) by (unfold INT_MAX; lia).
  assert (Hneg : (- FI_ETOOSMALL =? 0) = false) by (apply Z.eqb_neq; lia).
  repeat split.
  - intros n. unfold smr_getname, strlen. rewrite Hname. simpl.
    rewrite (c_str_holds_string s rest Hs). simpl. rewrite Hneg.
    rewrite to_size_t_small by lia. reflexivity.
  - intros buf. unfold smr_getname, strlen. rewrite Hname. simpl.
    rewrite (c_str_holds_string s rest Hs). simpl. rewrite Hneg.
    rewrite to_size_t_small by lia. reflexivity.
  - intros buf n Hn Hbuf. unfold smr_getname, strlen. rewrite Hname.
    destruct (Z.eqb_spec n 0) as [?|_]; [lia|].
    rewrite (snprintf_s_holds_string buf s rest n Hs) by lia. simpl.
    rewrite (c_str_holds_string s rest Hs). simpl.
    rewrite (to_size_t_small (Z.of_nat (length s))) by lia.
    rewrite (to_size_t_small (Z.of_nat (length s) + 1)) by lia.
    destruct (Z.leb_spec n (Z.of_nat (length s))) as [_|?]; [|lia].
    rewrite Hneg.
    replace (Z.min (Z.of_nat (length s)) (n - 1)) with (n - 1) by lia.
    replace (S (Z.to_nat (n - 1))) with (Z.to_nat n) by lia.
    reflexivity.
Qed.

End SmrCtlProperties.

Lemma smr_setopt_getopt_witness :
  SmrCtl.smr_getopt (sdefs := sample_smr_defs)
    (snd (SmrCtl.smr_setopt (sdefs := sample_smr_defs) unnamed_ep 0 0 512 8))
    0 0 0 0 = (0, 512, 8).
Proof.
  pose proof (smr_setopt_getopt (sdefs := sample_smr_defs) unnamed_ep
                0 0 512 8 0 0) as H.
  destruct (SmrCtl.smr_setopt unnamed_ep 0 0 512 8) as [ret ep'].
  destruct H as (_ & H & _). destruct (H (conj eq_refl eq_refl)) as [_ Hget].
  exact Hget.
Defined.

Lemma smr_setname_getname_witness :
  exists ep',
    SmrCtl.smr_setname (defs := sample_defs) unnamed_ep
      (holds_string ep0_bytes [Byte.x3a; Byte.x00]) 4096 true =
      Some (0, ep') /\
    SmrCtl.smr_getname (sdefs := sample_smr_defs) ep'
      (Some (replicate 6 Byte.xff)) 6 =
      Some (0, Some (holds_string ep0_bytes [Byte.xff; Byte.xff]), 4).
Proof.
  destruct (smr_setname_getname (defs := sample_defs)
              (sdefs := sample_smr_defs) unnamed_ep ep0_bytes
              [Byte.x3a; Byte.x00] 4096) as [_ (ep' & Hset & _ & _ & Hget)].
  - repeat constructor; discriminate.
  - vm_compute. reflexivity.
  - exists ep'. split; [exact Hset|].
    apply (Hget (replicate 6 Byte.xff) 6). simpl. lia.
Defined.

Lemma smr_getname_too_small_witness :
  SmrCtl.smr_getname (sdefs := sample_smr_defs)
    {| SmrCtl.name := Some (holds_string ep0_bytes []);
       SmrCtl.min_multi_recv_size := 0 |}
    (Some (replicate 4 Byte.xff)) 2 =
  Some (-257, Some [Byte.x65; Byte.x00; Byte.xff; Byte.xff], 4).
Proof.
  destruct (smr_getname_too_small (sdefs := sample_smr_defs)
              {| SmrCtl.name := Some (holds_string ep0_bytes []);
                 SmrCtl.min_multi_recv_size := 0 |} ep0_bytes [])
    as (_ & _ & _ & H).
  - repeat constructor; discriminate.
  - vm_compute. reflexivity.
  - vm_compute. discriminate.
  - reflexivity.
  - apply (H (replicate 4 Byte.xff) 2); simpl; lia.
Defined.

(** ** Closing and opening a domain *)

Section DomainProperties.

Import RxrDomain RxrDomainOps.

Variable answer : trace -> lower_call -> Z.

(** X18: whatever the lower layers answer, [rxr_domain_close] frees the
    domain exactly when it returns 0.  It then has closed the core domain,
    the utility domain and, with shm transfers enabled, the shm domain, in
    this order and each with success.  Otherwise the value returned is that
    of the last call made, the only one that failed, and nothing is closed
    after it: the domain stays allocated with the rest open. *)
Theorem rxr_domain_close_trace (env : rxr_env) (d : rxr_domain) (t : trace) :
  let '(ret, d', t') := recorded_domain_close answer env d t in
  exists calls,
    t' = t ++ calls /\
    (d' = None <-> ret = 0) /\
    (d' = None \/ d' = Some d) /\
    (ret = 0 ->
     calls =
       (call_fi_close (rdm_domain d), 0) :: (call_ofi_domain_close, 0) ::
       (if env_enable_shm_transfer env =? 0 then []
        else [(call_fi_close (shm_domain d), 0)])) /\
    (ret <> 0 ->
     exists pre c,
       calls = pre ++ [(c, ret)] /\
       Forall (fun x => snd x = 0) pre /\
       pre ++ [(c, 0)] `prefix_of`
         [(call_fi_close (rdm_domain d), 0); (call_ofi_domain_close, 0);
          (call_fi_close (shm_domain d), 0)] /\
       (c = call_fi_close (shm_domain d) /\ pre <> [] ->
        env_enable_shm_transfer env <> 0)).
Proof.
  unfold recorded_domain_close, rxr_domain_close, rec_fi_close,
    rec_ofi_domain_close, record.
  set (c1 := call_fi_close (rdm_domain d)).
  set (c3 := call_fi_close (shm_domain d)).
  destruct (Z.eqb_spec (answer t c1) 0) as [H1|H1]; simpl.
  - set (t1 := t ++ [(c1, answer t c1)]).
    destruct (Z.eqb_spec (answer t1 call_ofi_domain_close) 0) as [H2|H2];
      simpl.
    + set (t2 := t1 ++ [(call_ofi_domain_close,
                         answer t1 call_ofi_domain_close)]).
      destruct (Z.eqb_spec (env_enable_shm_transfer env) 0) as [Hs|Hs]; simpl.
      * exists [(c1, 0); (call_ofi_domain_close, 0)].
        subst t2 t1. rewrite H1, H2 in *. rewrite <- ?app_assoc in *. simpl in *.
        split; [reflexivity|]. split; [tauto|]. split; [auto|].
        split; [reflexivity | intros; lia].
      * destruct (Z.eqb_spec (answer t2 c3) 0) as [H3|H3]; simpl.
        -- exists [(c1, 0); (call_ofi_domain_close, 0); (c3, 0)].
           subst t2 t1. rewrite H3. rewrite H1, H2 in *.
           rewrite <- ?app_assoc in *. simpl in *.
           split; [reflexivity|]. split; [tauto|]. split; [auto|].
           split; [reflexivity | intros; lia].
        -- exists [(c1, 0); (call_ofi_domain_close, 0); (c3, answer t2 c3)].
           subst t2 t1. rewrite H1, H2 in *. rewrite <- ?app_assoc in *. simpl in *.
           split; [reflexivity|].
           split; [split; [discriminate | intros; lia]|].
           split; [auto|]. split; [intros; lia|].
           intros _. exists [(c1, 0); (call_ofi_domain_close, 0)], c3.
           split; [reflexivity|]. split; [repeat constructor|].
           split; [reflexivity | intros _; exact Hs].
    + exists [(c1, 0); (call_ofi_domain_close,
                         answer t1 call_ofi_domain_close)].
      subst t1. rewrite H1 in *. rewrite <- ?app_assoc in *. simpl in *.
      split; [reflexivity|].
      split; [split; [discriminate | intros; lia]|].
      split; [auto|]. split; [intros; lia|].
      intros _. exists [(c1, 0)], call_ofi_domain_close.
      split; [reflexivity|]. split; [repeat constructor|].
      split; [exists [(c3, 0)]; reflexivity|].
      intros [Hc _]. discriminate Hc.
  - exists [(c1, answer t c1)].
    split; [reflexivity|].
    split; [split; [discriminate | intros; lia]|].
    split; [auto|]. split; [intros; lia|].
    intros _. exists [], c1.
    split; [reflexivity|]. split; [constructor|].
    split; [exists [(call_ofi_domain_close, 0); (c3, 0)]; reflexivity|].
    intros [_ Hpre]. contradiction.
Qed.

End DomainProperties.

(** ** Closing a memory registration *)

Section MrCloseProperties.

Import RxrDomain RxrDomainOps.

Context {defs : fabric_defs} {world : Type}.
Variable calloc : world -> bool * world.
Variable fi_mr_regattr :
  lower_domain -> fi_mr_attr -> Z -> world -> Z * Z * world.
Variable fi_mr_key : Z -> Z.
Variable ofi_mr_map_insert : fi_mr_attr -> Z -> world -> Z * Z * world.
Variable ofi_mr_map_remove : Z -> world -> Z * world.
Variable fi_close : Z -> world -> Z * world.
Variable FI_KEY_NOTAVAIL : Z.
Variable efa_mr_cache_enable : Z.
Variable answer : trace -> lower_call -> Z.
Variable count : trace -> Z -> Z.

(** The registrations [rxr_mr_regattr] hands out: one without a
    registration of the shm provider, although shm transfers are enabled
    and the memory is system memory, exists only with the registration
    cache. *)
Lemma rxr_mr_regattr_shm_msg_mr (env : rxr_env) (attr : fi_mr_attr)
  (flags : Z) (w w' : world) (ret : Z) (mr : rxr_mr) :
  rxr_mr_regattr calloc fi_mr_regattr fi_mr_key ofi_mr_map_insert
    ofi_mr_map_remove fi_close FI_KEY_NOTAVAIL efa_mr_cache_enable
    env attr flags w = Some (ret, Some mr, w') ->
  negb (env_enable_shm_transfer env =? 0) && is_system (peer_iface mr) = true ->
  shm_msg_mr mr = None ->
  efa_mr_cache_enable <> 0.
Proof.
  unfold rxr_mr_regattr.
  destruct attr as [iov cnt [acc|] off key [ctx|] [ifc|] [dev|]]; simpl;
    repeat case_match; intros Hr; simplify_eq/=; intros Hshm Hnone;
    try discriminate.
  all: rewrite andb_true_iff in Hshm; destruct Hshm as [Hs Hi].
  all: rewrite Hs, Hi in *; simpl in *.
  all: repeat match goal with
         | H : _ && _ = false |- _ => apply andb_false_iff in H as [H|H]
         | H : negb _ = false |- _ => apply negb_false_iff in H
         | H : negb _ = true |- _ => apply negb_true_iff in H
         | H : _ && _ = true |- _ => apply andb_true_iff in H as [? ?]
         end.
  all: try discriminate.
  all: try congruence.
  all: try (intros ->; simpl in *; congruence).
Qed.

Lemma rxr_mr_regattr_shm_msg_mr_some (env : rxr_env) (attr : fi_mr_attr)
  (flags : Z) (w w' : world) (ret : Z) (mr : rxr_mr) :
  rxr_mr_regattr calloc fi_mr_regattr fi_mr_key ofi_mr_map_insert
    ofi_mr_map_remove fi_close FI_KEY_NOTAVAIL efa_mr_cache_enable
    env attr flags w = Some (ret, Some mr, w') ->
  negb (env_enable_shm_transfer env =? 0) && is_system (peer_iface mr) = false ->
  shm_msg_mr mr = None.
Proof.
  unfold rxr_mr_regattr.
  destruct attr as [iov cnt [acc|] off key [ctx|] [ifc|] [dev|]]; simpl;
    repeat case_match; intros Hr; simplify_eq/=; intros Hshm;
    try reflexivity.
  all: destruct (env_enable_shm_transfer env =? 0), (is_system ifc);
    simpl in *; rewrite ?andb_false_r in *; congruence.
Qed.

(** X19: every registration [rxr_mr_regattr] has handed out can be closed
    with [rxr_mr_close], whatever the lower layers answer: the key is
    removed from the map first, the registration of the core provider is
    closed next, and without the registration cache the registrations
    closed are exactly the ones the record holds.  The value returned is the
    value of the last of these calls: an earlier failure is not
    reported. *)
Theorem rxr_mr_close_after_regattr (env : rxr_env) (attr : fi_mr_attr)
  (flags : Z) (w w' : world) (ret : Z) (mr : rxr_mr) (t : trace) :
  rxr_mr_regattr calloc fi_mr_regattr fi_mr_key ofi_mr_map_insert
    ofi_mr_map_remove fi_close FI_KEY_NOTAVAIL efa_mr_cache_enable
    env attr flags w = Some (ret, Some mr, w') ->
  exists r r1 r2 rest,
    recorded_mr_close answer count efa_mr_cache_enable env mr t =
      Some (r, t ++ (call_ofi_mr_map_remove (mr_fid_key mr), r1)
                 :: (call_fi_close (msg_mr mr), r2) :: rest) /\
    last_status ((call_fi_close (msg_mr mr), r2) :: rest) = Some r /\
    (efa_mr_cache_enable = 0 ->
     closed rest = match shm_msg_mr mr with Some s => [s] | None => [] end).
Proof.
  intros Hreg.
  pose proof (rxr_mr_regattr_shm_msg_mr _ _ _ _ _ _ _ Hreg) as Hnone.
  pose proof (rxr_mr_regattr_shm_msg_mr_some _ _ _ _ _ _ _ Hreg) as Hsome.
  unfold recorded_mr_close, rxr_mr_close, rec_ofi_mr_map_remove, rec_fi_close,
    rec_shm_mr_map_remove, rec_ofi_atomic_dec32, rec_use_cnt, record.
  cbn [fst snd].
  set (c1 := call_ofi_mr_map_remove (mr_fid_key mr)).
  set (c2 := call_fi_close (msg_mr mr)).
  set (t1 := t ++ [(c1, answer t c1)]).
  set (t2 := t1 ++ [(c2, answer t1 c2)]).
  assert (Ht2 : forall rest,
            t2 ++ rest = t ++ (c1, answer t c1) :: (c2, answer t1 c2) :: rest).
  { intros rest. subst t2 t1. rewrite <- !app_assoc. reflexivity. }
  destruct (negb (env_enable_shm_transfer env =? 0)
            && is_system (peer_iface mr)) eqn:Hs.
  - specialize (Hnone eq_refl). clear Hsome.
    destruct (Z.eqb_spec efa_mr_cache_enable 0) as [Hc|Hc]; simpl.
    + destruct (shm_msg_mr mr) as [s|] eqn:Hshm; [|tauto]. simpl.
      eexists _, _, _, [_]. rewrite Ht2.
      split; [reflexivity|]. split; reflexivity.
    + destruct (count t2 (msg_mr mr) =? 0); simpl.
      * destruct (shm_msg_mr mr) as [s|] eqn:Hshm; simpl.
        -- rewrite ?bool_decide_eq_true_2 by (eexists; reflexivity). simpl.
           eexists _, _, _, [_]. rewrite Ht2.
           split; [reflexivity|]. split; [reflexivity | tauto].
        -- rewrite ?bool_decide_eq_false_2 by (intros [? ?]; discriminate).
           simpl. eexists _, _, _, [_; _]. rewrite <- app_assoc, Ht2.
           split; [reflexivity|]. split; [reflexivity | tauto].
      * eexists _, _, _, []. rewrite <- (app_nil_r t2), Ht2.
        split; [reflexivity|]. split; [reflexivity | tauto].
  - rewrite (Hsome eq_refl).
    eexists _, _, _, []. rewrite <- (app_nil_r t2), Ht2.
    split; [reflexivity|]. split; reflexivity.
Qed.

End MrCloseProperties.

Lemma rxr_mr_close_after_regattr_witness :
  let attr :=
    RxrDomain.rxr_mr_regv_attr
      [{| RxrDomain.iov_base := 4096; RxrDomain.iov_len := 64 |}] 1 0 0 0 17 in
  let regattr :=
    RxrDomain.rxr_mr_regattr (defs := sample_defs)
      (fun w => (true, w))
      (fun _ _ _ w => (0, 100 + Z.of_nat (length w), w))
      (fun lower_mr => lower_mr)
      (fun _ key w => (0, key, key :: w))
      (fun key w => (0, filter (fun k => k <> key) w))
      (fun _ w => (0, w))
      (2 ^ 64 - 1) 0 default_env in
  exists mr w',
    regattr attr 0 [] = Some (0, Some mr, w') /\
    is_Some (recorded_mr_close (fun _ _ => 5) (fun _ _ => 0) 0 default_env
               mr []).
Proof.
  cbv zeta. eexists _, _. split; [vm_compute; reflexivity|].
  destruct (rxr_mr_close_after_regattr (defs := sample_defs)
              (fun w => (true, w))
              (fun _ _ _ w => (0, 100 + Z.of_nat (length w), w))
              (fun lower_mr => lower_mr)
              (fun _ key w => (0, key, key :: w))
              (fun key w => (0, filter (fun k => k <> key) w))
              (fun _ w => (0, w))
              (2 ^ 64 - 1) 0 (fun _ _ => 5) (fun _ _ => 0) default_env
              (RxrDomain.rxr_mr_regv_attr
                 [{| RxrDomain.iov_base := 4096; RxrDomain.iov_len := 64 |}]
                 1 0 0 0 17) 0 [] _ 0 _ []
              ltac:(vm_compute; reflexivity))
    as (r & r1 & r2 & rest & H & _).
  rewrite H. eexists. reflexivity.
Defined.

(** ** Opening a domain *)

Section DomainOpenProperties.

Import RxrDomain RxrDomainOps.

Context {defs : fabric_defs}.
Variable answer : trace -> lower_call -> Z.
Variable handle : trace -> Z.
Variable lower_info : trace -> fi_info.
Variable map_mode : trace -> Z.
Variable ofi_mr_local : fi_info -> Z.
Variable MAX : Z -> Z -> Z.
Variable FI_EP_DGRAM : Z.
Variable FI_MULTI_RECV : Z.
Variable FI_MR_PROV_KEY : Z.

Abbreviation domain_open :=
  (recorded_domain_open answer handle lower_info map_mode ofi_mr_local MAX
     FI_EP_DGRAM FI_MULTI_RECV FI_MR_PROV_KEY).

(** The values the recording layers return are arbitrary: the innermost
    one is replaced by a variable. *)
Ltac forget_answer :=
  match goal with
  | |- context [answer ?tr ?c] =>
      lazymatch tr with
      | context [answer _ _] => fail
      | context [handle _] => fail
      | _ => let r := fresh "r" in
             let E := fresh in
             remember (answer tr c) as r eqn:E; clear E
      end
  | |- context [handle ?tr] =>
      lazymatch tr with
      | context [answer _ _] => fail
      | context [handle _] => fail
      | _ => let h := fresh "h" in
             let E := fresh in
             remember (handle tr) as h eqn:E; clear E
      end
  end.

Ltac split_status :=
  match goal with
  | |- context [negb (?x =? 0)] =>
      is_var x; destruct (Z.eqb_spec x 0); [subst x|]; cbn [negb]
  | |- context [env_enable_shm_transfer ?env =? 0] =>
      destruct (Z.eqb_spec (env_enable_shm_transfer env) 0); cbn [negb]
  | |- context [strcmp_eq ?a ?b] =>
      destruct (strcmp_eq a b) as [[|]|]; cbn [negb mbind option_bind]
  end.

Ltac nonzero_status :=
  repeat match goal with
         | n : ?r <> 0 |- context [match ?r with _ => _ end] =>
             destruct r; [contradiction| |]
         end.

(** X20: whatever the lower layers answer, and for an endpoint type other
    than datagram, [rxr_domain_open] returns 0 exactly when it hands out a
    domain.  On failure every lower domain it had opened is closed again,
    last opened first; on success none is closed, and the domain handed
    out holds the handles opened: the core domain and, with shm transfers
    enabled, the shm domain.  On every path the info obtained from
    [rxr_get_lower_rdm_info] is freed, once. *)
Theorem rxr_domain_open_balance (env : rxr_env) (fabric : rxr_fabric)
  (info : fi_info) (context : Z) (rxr_info shm_info : fi_info) (t : trace)
  (ret : Z) (dom : option fid_domain) (rxr_info' : fi_info) (t' : trace) :
  FI_ENOMEM <> 0 ->
  ep_attr_type info <> FI_EP_DGRAM ->
  domain_open env fabric info context rxr_info shm_info t =
    Some (ret, dom, rxr_info', t') ->
  exists calls,
    t' = t ++ calls /\
    (ret = 0 <-> is_Some dom) /\
    infos_freed calls = infos_obtained calls /\
    (ret <> 0 -> dom = None /\ closed calls = rev (opened calls)) /\
    (ret = 0 ->
     exists d,
       dom = Some (rxr_fid d) /\
       closed calls = [] /\
       opened calls =
         rdm_domain d ::
         (if env_enable_shm_transfer env =? 0 then [] else [shm_domain d]) /\
       (env_enable_shm_transfer env = 0 -> shm_domain d = 0) /\
       do_progress d = 0).
Proof.
  intros Hnomem Hdgram.
  unfold recorded_domain_open, rxr_domain_open, rec_calloc, rec_fi_close,
    rec_rxr_get_lower_rdm_info, rec_fi_domain, rec_ofi_domain_init,
    rec_fi_freeinfo, record.
  cbn [fst snd].
  destruct (Z.eqb_spec (ep_attr_type info) FI_EP_DGRAM); [contradiction|].
  repeat first [progress (repeat forget_answer) | split_status
               | progress cbn [mbind option_bind]].
  all: try (intros ?; discriminate).
  all: intros [= <- <- <- <-].
  all: eexists; split; [rewrite <- ?app_assoc; reflexivity|].
  all: unfold infos_freed, infos_obtained, closed, opened; simpl.
  all: nonzero_status.
  all: split;
    [split;
       [intros Hz; first [eexists; reflexivity | exfalso; lia]
       |intros [? ?]; first [reflexivity | discriminate]]|].
  all: split; [reflexivity|].
  all: split;
    [intros Hn; first [exfalso; apply Hn; reflexivity | split; reflexivity]|].
  all: intros Hz; first [exfalso; lia | idtac].
  all: eexists; split; [reflexivity|].
  all: split; [reflexivity|]. all: split; [reflexivity|].
  all: split; [intros; first [reflexivity | lia] | reflexivity].
Qed.

(** What a successful close and a successful open leave in the trace. *)
Lemma recorded_domain_close_success (env : rxr_env) (d : rxr_domain)
  (t t' : trace) (d' : option rxr_domain) :
  recorded_domain_close answer env d t = (0, d', t') ->
  d' = None /\
  exists calls,
    t' = t ++ calls /\
    closed calls =
      rdm_domain d ::
      (if env_enable_shm_transfer env =? 0 then [] else [shm_domain d]).
Proof.
  unfold recorded_domain_close, rxr_domain_close, rec_fi_close,
    rec_ofi_domain_close, record.
  repeat first [progress (repeat forget_answer) | split_status].
  all: intros H; simplify_eq/=; try (exfalso; lia).
  all: split; [reflexivity|].
  all: eexists; split; [rewrite <- ?app_assoc; reflexivity|].
  all: reflexivity.
Qed.

Lemma recorded_domain_open_success (env : rxr_env) (fabric : rxr_fabric)
  (info : fi_info) (context : Z) (rxr_info shm_info : fi_info) (t : trace)
  (d : rxr_domain) (rxr_info' : fi_info) (t' : trace) :
  ep_attr_type info <> FI_EP_DGRAM ->
  domain_open env fabric info context rxr_info shm_info t =
    Some (0, Some (rxr_fid d), rxr_info', t') ->
  exists calls,
    t' = t ++ calls /\
    closed calls = [] /\
    opened calls =
      rdm_domain d ::
      (if env_enable_shm_transfer env =? 0 then [] else [shm_domain d]).
Proof.
  intros Hdgram.
  unfold recorded_domain_open, rxr_domain_open, rec_calloc, rec_fi_close,
    rec_rxr_get_lower_rdm_info, rec_fi_domain, rec_ofi_domain_init,
    rec_fi_freeinfo, record.
  cbn [fst snd].
  destruct (Z.eqb_spec (ep_attr_type info) FI_EP_DGRAM); [contradiction|].
  repeat first [progress (repeat forget_answer) | split_status
               | progress cbn [mbind option_bind]].
  all: try (intros ?; discriminate).
  all: intros H; simplify_eq/=; try (exfalso; lia).
  all: eexists; split; [rewrite <- ?app_assoc; reflexivity|].
  all: unfold closed, opened; simpl.
  all: split; reflexivity.
Qed.

(** X21: a domain that [rxr_domain_open] has handed out and that
    [rxr_domain_close] then closes with success leaves no lower domain
    open: the close frees the domain and closes exactly the handles the
    open had opened, in the order they were opened, and the open had closed
    none. *)
Theorem rxr_domain_open_close (env : rxr_env) (fabric : rxr_fabric)
  (info : fi_info) (context : Z) (rxr_info shm_info : fi_info)
  (t t1 t2 t3 : trace) (d : rxr_domain) (d' : option rxr_domain)
  (rxr_info' : fi_info) :
  ep_attr_type info <> FI_EP_DGRAM ->
  domain_open env fabric info context rxr_info shm_info t =
    Some (0, Some (rxr_fid d), rxr_info', t1) ->
  recorded_domain_close answer env d t2 = (0, d', t3) ->
  d' = None /\
  exists opening closing,
    t1 = t ++ opening /\ t3 = t2 ++ closing /\
    closed opening = [] /\
    closed closing = opened opening.
Proof.
  intros Hdgram Hopen Hclose.
  destruct (recorded_domain_open_success _ _ _ _ _ _ _ _ _ _ Hdgram Hopen)
    as (opening & -> & Hnone & Hopened).
  destruct (recorded_domain_close_success _ _ _ _ _ Hclose)
    as (-> & closing & -> & Hclosed).
  split; [reflexivity|].
  exists opening, closing. repeat split; congruence.
Qed.

End DomainOpenProperties.

Lemma rxr_domain_open_balance_witness :
  exists dom rxr_info' t',
    accepted_domain_open = Some (0, dom, rxr_info', t') /\ is_Some dom.
Proof.
  eexists _, _, _. split; [vm_compute; reflexivity|].
  destruct (rxr_domain_open_balance (defs := sample_defs) accepting
              numbered_handle (fun _ => rdm_endpoint_info) (fun _ => 0)
              (fun _ => 1) Z.max 3 (2 ^ 16) (2 ^ 7) default_env two_fabrics
              rdm_endpoint_info 0 rdm_endpoint_info shm_fabric_info []
              0 _ _ _
              ltac:(vm_compute; discriminate)
              ltac:(vm_compute; discriminate)
              ltac:(vm_compute; reflexivity))
    as (calls & _ & Hiff & _).
  apply Hiff. reflexivity.
Defined.

Lemma rxr_domain_open_close_witness :
  exists d rxr_info' t1 t3,
    accepted_domain_open =
      Some (0, Some (RxrDomainOps.rxr_fid d), rxr_info', t1) /\
    recorded_domain_close accepting default_env d [] = (0, None, t3) /\
    closed t3 = opened t1.
Proof.
  eexists _, _, _, _. split; [vm_compute; reflexivity|].
  split; [vm_compute; reflexivity|].
  destruct (rxr_domain_open_close (defs := sample_defs) accepting
              numbered_handle (fun _ => rdm_endpoint_info) (fun _ => 0)
              (fun _ => 1) Z.max 3 (2 ^ 16) (2 ^ 7) default_env two_fabrics
              rdm_endpoint_info 0 rdm_endpoint_info shm_fabric_info
              [] _ [] _ _ _ _
              ltac:(vm_compute; discriminate)
              ltac:(vm_compute; reflexivity)
              ltac:(vm_compute; reflexivity))
    as (_ & opening & closing & Ho & Hc & _ & Heq).
  simpl in Ho, Hc. rewrite <- Ho, <- Hc in Heq. exact Heq.
Defined.
